(** * bit: the change-set engine (DataToPersist) and the add resolver (addAction)

    A shallow embedding of [DataToPersist] (consumer/component/sources) and
    of [addAction] (api/consumer/lib/add.js), with the properties of the
    design document checked against it; and of the package-manager client
    ([npm-client]), with properties read off the code of the three.

    JavaScript objects are mutable and shared by reference: vinyl files,
    symlinks and remove-paths live in a heap and the collections of a
    [DataToPersist] hold references to them.  A [throw] is an outcome next
    to the state reached when it was raised. *)

From Stdlib Require Import String Ascii List Bool Arith Lia Permutation.
Import ListNotations.
Open Scope list_scope.
Open Scope string_scope.

(** ** Strings and arrays as JavaScript uses them *)

(** [s.startsWith(pre)] *)
Fixpoint startsWith (s pre : string) {struct pre} : bool :=
  match pre with
  | EmptyString => true
  | String c pre' =>
      match s with
      | EmptyString => false
      | String b s' => Ascii.eqb b c && startsWith s' pre'
      end
  end.

(** Truthiness of a string value: the empty string is falsy. *)
Definition truthy (s : string) : bool := negb (String.eqb s EmptyString).

(** [arr.findIndex(f)], [None] standing for [-1]. *)
Fixpoint findIndex {A : Type} (f : A -> bool) (l : list A) : option nat :=
  match l with
  | [] => None
  | x :: l' => if f x then Some 0 else option_map S (findIndex f l')
  end.

(** [arr.splice(i, 1)]: the array without its element at index [i]. *)
Definition splice1 {A : Type} (i : nat) (l : list A) : list A :=
  (firstn i l ++ skipn (S i) l)%list.

(** ** Node's [path] module

    [path.sep], [path.isAbsolute] and [path.join] belong to the platform,
    not to this repository: the engine is stated over any implementation. *)
Class NodePath : Type := {
  sep : ascii;
  isAbsolute : string -> bool;
  join : string -> string -> string
}.

(** The POSIX implementation, for concrete runs. *)
Module Posix.

Fixpoint split_go (s acc : string) : list string :=
  match s with
  | EmptyString => [acc]
  | String c s' =>
      if Ascii.eqb c "/" then acc :: split_go s' EmptyString
      else split_go s' (acc ++ String c EmptyString)
  end.

(** [s.split('/')] *)
Definition split (s : string) : list string := split_go s EmptyString.

(** One segment pushed on the reversed stack of kept segments. *)
Definition push_segment (allowAboveRoot : bool) (stack : list string) (seg : string)
  : list string :=
  if String.eqb seg EmptyString || String.eqb seg "." then stack
  else if String.eqb seg ".." then
    match stack with
    | top :: rest =>
        if String.eqb top ".." then seg :: stack else rest
    | [] => if allowAboveRoot then [seg] else []
    end
  else seg :: stack.

(** [normalizeString(path, allowAboveRoot, '/')] *)
Definition normalizeString (p : string) (allowAboveRoot : bool) : string :=
  String.concat "/" (rev (fold_left (push_segment allowAboveRoot) (split p) [])).

Definition is_abs (p : string) : bool := startsWith p "/".

Fixpoint endsWithSlash (p : string) : bool :=
  match p with
  | EmptyString => false
  | String c EmptyString => Ascii.eqb c "/"
  | String _ p' => endsWithSlash p'
  end.

(** [path.posix.normalize] *)
Definition normalize (p : string) : string :=
  if String.eqb p EmptyString then "."
  else
    let body := normalizeString p (negb (is_abs p)) in
    let body := if String.eqb body EmptyString && negb (is_abs p) then "." else body in
    let body := if negb (String.eqb body EmptyString) && endsWithSlash p then body ++ "/" else body in
    if is_abs p then "/" ++ body else body.

(** [path.posix.join(a, b)]: empty arguments are skipped. *)
Definition join2 (a b : string) : string :=
  if String.eqb a EmptyString then (if String.eqb b EmptyString then "." else normalize b)
  else if String.eqb b EmptyString then normalize a
  else normalize (a ++ "/" ++ b).

#[export] Instance path : NodePath :=
  {| sep := "/"%char; isAbsolute := is_abs; join := join2 |}.

End Posix.

(** ** Objects, references and the heap *)

(** The properties of an [AbstractVinyl] the engine reads. *)
Record AbstractVinyl : Type := {
  path : string;
  base : string;
  contents : string;
  override : bool
}.

Record Symlink : Type := { src : string; dest : string }.

(** [RemovePath]: its [path] and its [removeItsDirIfEmpty] flag. *)
Record RemovePath : Type := { rm_path : string; removeItsDirIfEmpty : bool }.

(** An object reference; [===] and [includes] on objects compare references. *)
Definition ref : Type := nat.

Record Heap : Type := {
  vinyl : ref -> AbstractVinyl;
  link : ref -> Symlink;
  rmpath : ref -> RemovePath
}.

(** Assignment to the object behind a reference. *)
Definition upd {A : Type} (h : ref -> A) (r : ref) (v : A) : ref -> A :=
  fun r' => if Nat.eqb r' r then v else h r'.

(** ** Exceptions *)

Inductive Error : Type :=
| EmptyFile                                   (* failed adding an empty file *)
| NoPathProperty                              (* ... does not have a path property *)
| EmptyPathToRemove                           (* failed adding a path to remove *)
| SymlinkSrcEmpty
| SymlinkDestEmpty
| DirectoryCollision (file other : string)    (* unable to add the file "file", because another file "other" ... *)
| ExpectsAbsolute (p : string)                (* expects p to be absolute, got relative *)
| ExpectsRelative (p : string)                (* expects p to be relative, but found it absolute *)
| Rejection.                                  (* the reason of a collaborator's rejected promise *)

Inductive outcome (E A : Type) : Type :=
| Returned (a : A)
| Thrown (e : E).
Arguments Returned {E A} a.
Arguments Thrown {E A} e.

(** A method that mutates state [S] and may throw an [E]: the state reached
    is kept next to the outcome, since a throw does not undo earlier writes. *)
Definition M (E S A : Type) : Type := S -> S * outcome E A.

Definition ret {E S A : Type} (a : A) : M E S A := fun s => (s, Returned a).
Definition throw {E S A : Type} (e : E) : M E S A := fun s => (s, Thrown e).
Definition bind {E S A B : Type} (m : M E S A) (k : A -> M E S B) : M E S B :=
  fun s =>
    match m s with
    | (s', Returned a) => k a s'
    | (s', Thrown e) => (s', Thrown e)
    end.
Definition modify {E S : Type} (f : S -> S) : M E S unit := fun s => (f s, Returned tt).
Definition gets {E S A : Type} (f : S -> A) : M E S A := fun s => (s, Returned (f s)).
(** A pure computation that may throw, run inside a method. *)
Definition lift {E S A : Type} (o : outcome E A) : M E S A := fun s => (s, o).

Declare Scope js_scope.
Delimit Scope js_scope with js.
Notation "x <- m ;; k" := (bind m (fun x => k))
  (at level 61, m at next level, right associativity) : js_scope.
Notation "m ;; k" := (bind m (fun _ => k))
  (at level 61, right associativity) : js_scope.

(** [arr.forEach(f)]: a throw in [f] ends the loop. *)
Fixpoint forEach {E S A : Type} (f : A -> M E S unit) (l : list A) : M E S unit :=
  match l with
  | [] => ret tt
  | x :: l' => bind (f x) (fun _ => forEach f l')
  end.

(** [file.updatePaths({ newBase })] is a method of [AbstractVinyl], which
    is outside these sources: it is taken as given, as a function of the new
    base and of the file. *)
Class VinylMethods : Type := {
  updatePaths : string -> AbstractVinyl -> AbstractVinyl
}.

(** ** DataToPersist *)

Record DataToPersist : Type := {
  files : list ref;
  symlinks : list ref;
  remove : list ref
}.

(** [constructor()] *)
Definition new_DataToPersist : DataToPersist :=
  {| files := []; symlinks := []; remove := [] |}.

Section Engine.

Context {P : NodePath} {V : VinylMethods}.

Definition set_files (l : list ref) (d : DataToPersist) : DataToPersist :=
  {| files := l; symlinks := symlinks d; remove := remove d |}.
Definition set_symlinks (l : list ref) (d : DataToPersist) : DataToPersist :=
  {| files := files d; symlinks := l; remove := remove d |}.
Definition set_remove (l : list ref) (d : DataToPersist) : DataToPersist :=
  {| files := files d; symlinks := symlinks d; remove := l |}.

(** The test of [_throwForDirectoryCollision] on one pending file [f]:
    [f.path.startsWith(file.path + sep) || file.path.startsWith(f.path + sep)]. *)
Definition collides (filePath fPath : string) : bool :=
  startsWith fPath (filePath ++ String sep EmptyString)
  || startsWith filePath (fPath ++ String sep EmptyString).

Definition _throwForDirectoryCollision (h : Heap) (file : ref) : M Error DataToPersist unit :=
  fun d =>
    match find (fun f => collides (path (vinyl h file)) (path (vinyl h f))) (files d) with
    | Some directoryCollision =>
        (d, Thrown (DirectoryCollision (path (vinyl h file))
                                       (path (vinyl h directoryCollision))))
    | None => (d, Returned tt)
    end.

(** [addFile(file)]; [None] is a null or undefined argument. *)
Definition addFile (h : Heap) (file : option ref) : M Error DataToPersist unit :=
  match file with
  | None => throw EmptyFile
  | Some file =>
      if negb (truthy (path (vinyl h file))) then throw NoPathProperty
      else fun d =>
        match findIndex (fun existingFile =>
                           String.eqb (path (vinyl h existingFile)) (path (vinyl h file)))
                        (files d) with
        | Some existingFileIndex =>
            if override (vinyl h file) then
              (* delete existing file *)
              (modify (set_files (splice1 existingFileIndex (files d))) ;;
               _throwForDirectoryCollision h file ;;
               modify (fun d => set_files (files d ++ [file])%list d))%js d
            else
              (* don't push this one. keep the existing file *)
              (d, Returned tt)
        | None =>
            (_throwForDirectoryCollision h file ;;
             modify (fun d => set_files (files d ++ [file])%list d))%js d
        end
  end.

Definition addManyFiles (h : Heap) (l : list ref) : M Error DataToPersist unit :=
  forEach (fun file => addFile h (Some file)) l.

(** [removePath(pathToRemove)]: [includes] compares references. *)
Definition removePath (pathToRemove : option ref) : M Error DataToPersist unit :=
  match pathToRemove with
  | None => throw EmptyPathToRemove
  | Some r =>
      fun d =>
        if existsb (Nat.eqb r) (remove d) then (d, Returned tt)
        else (set_remove (remove d ++ [r])%list d, Returned tt)
  end.

Definition removeManyPaths (l : list ref) : M Error DataToPersist unit :=
  forEach (fun r => removePath (Some r)) l.

Definition addSymlink (h : Heap) (symlink : ref) : M Error DataToPersist unit :=
  if negb (truthy (src (link h symlink))) then throw SymlinkSrcEmpty
  else if negb (truthy (dest (link h symlink))) then throw SymlinkDestEmpty
  else modify (fun d => set_symlinks (symlinks d ++ [symlink])%list d).

Definition addManySymlinks (h : Heap) (l : list ref) : M Error DataToPersist unit :=
  forEach (addSymlink h) l.

(** [merge(dataToPersist)], the argument being another change-set (its
    collections as they are when the call starts) or null. *)
Definition merge (h : Heap) (dataToPersist : option DataToPersist) : M Error DataToPersist unit :=
  match dataToPersist with
  | None => ret tt
  | Some other =>
      (addManyFiles h (files other) ;;
       removeManyPaths (remove other) ;;
       addManySymlinks h (symlinks other))%js
  end.

(** *** Rebasing: [addBasePath] *)

Definition set_vinyl (r : ref) (v : AbstractVinyl) (h : Heap) : Heap :=
  {| vinyl := upd (vinyl h) r v; link := link h; rmpath := rmpath h |}.
Definition set_link (r : ref) (v : Symlink) (h : Heap) : Heap :=
  {| vinyl := vinyl h; link := upd (link h) r v; rmpath := rmpath h |}.
Definition set_rmpath (r : ref) (v : RemovePath) (h : Heap) : Heap :=
  {| vinyl := vinyl h; link := link h; rmpath := upd (rmpath h) r v |}.

Definition _assertRelative {S : Type} (pathToCheck : string) : M Error S unit :=
  if isAbsolute pathToCheck then throw (ExpectsRelative pathToCheck) else ret tt.

(** The body of the loop over [this.files]. *)
Definition rebase_file (basePath : string) (file : ref) : M Error Heap unit :=
  (f <- gets (fun h => vinyl h file) ;;
   _assertRelative (base f) ;;
   modify (set_vinyl file (updatePaths (join basePath (base f)) f)))%js.

(** The body of the loop over [this.symlinks]. *)
Definition rebase_symlink (basePath : string) (symlink : ref) : M Error Heap unit :=
  (s <- gets (fun h => link h symlink) ;;
   _assertRelative (src s) ;;
   _assertRelative (dest s) ;;
   modify (set_link symlink {| src := join basePath (src s); dest := join basePath (dest s) |}))%js.

(** The body of the loop over [this.remove]. *)
Definition rebase_remove (basePath : string) (removePath : ref) : M Error Heap unit :=
  (r <- gets (fun h => rmpath h removePath) ;;
   _assertRelative (rm_path r) ;;
   modify (set_rmpath removePath
             {| rm_path := join basePath (rm_path r);
                removeItsDirIfEmpty := removeItsDirIfEmpty r |}))%js.

(** [addBasePath(basePath)]: the objects are rewritten in place, so the
    state is the heap; the collections themselves do not change. *)
Definition addBasePath (d : DataToPersist) (basePath : string) : M Error Heap unit :=
  (forEach (rebase_file basePath) (files d) ;;
   forEach (rebase_symlink basePath) (symlinks d) ;;
   forEach (rebase_remove basePath) (remove d))%js.

(** *** Committing: [persistAllToFS], [persistAllToCapsule] *)

Definition validateAbsolutePath {S : Type} (pathToValidate : string) : M Error S unit :=
  if negb (isAbsolute pathToValidate) then throw (ExpectsAbsolute pathToValidate) else ret tt.

(** [_validate()]: it reads the objects and changes nothing. *)
Definition _validate (h : Heap) (d : DataToPersist) : M Error unit unit :=
  (forEach (fun file => validateAbsolutePath (path (vinyl h file))) (files d) ;;
   forEach (fun removePath => validateAbsolutePath (rm_path (rmpath h removePath))) (remove d) ;;
   forEach (fun symlink =>
              validateAbsolutePath (src (link h symlink)) ;;
              validateAbsolutePath (dest (link h symlink))) (symlinks d))%js.

(** The asynchronous operations a commit starts, on the file system or on
    a capsule.  They are the collaborators' ([AbstractVinyl.write],
    [Symlink.write], [RemovePath.persistToFS], the recursive remover, the
    capsule): only their start and their settlement are observed. *)
Inductive task : Type :=
| removeFilesAndEmptyDirsRecursively (paths : list string)
| persistToFS (removePath : ref)
| write_file (file : ref)
| write_symlink (symlink : ref)
| capsule_removePath (p : string)
| capsule_outputFile (p c : string)
| capsule_symlink (s t : string).

Inductive event : Type :=
| Started (t : task)
| Fulfilled (t : task)
| Rejected (t : task).

(** [_deletePathsFromFS()]: the batches it awaits, in order. *)
Definition _deletePathsFromFS (h : Heap) (d : DataToPersist) : list (list task) :=
  let pathWithRemoveItsDirIfEmptyEnabled :=
    map (fun p => rm_path (rmpath h p))
        (filter (fun p => removeItsDirIfEmpty (rmpath h p)) (remove d)) in
  let restPaths := filter (fun p => negb (removeItsDirIfEmpty (rmpath h p))) (remove d) in
  ((if Nat.eqb (List.length pathWithRemoveItsDirIfEmptyEnabled) 0 then []
    else [[removeFilesAndEmptyDirsRecursively pathWithRemoveItsDirIfEmptyEnabled]])
   ++ [map persistToFS restPaths])%list.

Definition _persistFilesToFS (d : DataToPersist) : list task :=
  map write_file (files d).

Definition _persistSymlinksToFS (d : DataToPersist) : list task :=
  map write_symlink (symlinks d).

(** The batches [persistAllToFS] awaits after [_validate], in order. *)
Definition fs_batches (h : Heap) (d : DataToPersist) : list (list task) :=
  (_deletePathsFromFS h d ++ [_persistFilesToFS d; _persistSymlinksToFS d])%list.

(** The batches [persistAllToCapsule] awaits, in order. *)
Definition capsule_batches (h : Heap) (d : DataToPersist) : list (list task) :=
  [ map (fun pathToRemove => capsule_removePath (rm_path (rmpath h pathToRemove))) (remove d);
    map (fun file => capsule_outputFile (path (vinyl h file)) (contents (vinyl h file))) (files d);
    map (fun symlink => capsule_symlink (src (link h symlink)) (dest (link h symlink)))
        (symlinks d) ].

(** [await Promise.all(tasks.map(start))]: every task is started, in order,
    by the synchronous [map]; the tasks then settle in any order.  The await
    resumes once all are fulfilled ([true]), or throws at the first rejection
    ([false]), whatever the other tasks still do.  A collaborator that throws
    instead of returning a promise ends the [map] there: the tasks after it
    are never started. *)
Inductive awaitAll : list task -> list event -> bool -> Prop :=
| awaitAll_fulfilled (ts settled : list task) :
    Permutation settled ts ->
    awaitAll ts (map Started ts ++ map Fulfilled settled)%list true
| awaitAll_rejected (ts settled : list task) (t : task) (pending : list task) :
    Permutation (settled ++ t :: pending)%list ts ->
    awaitAll ts (map Started ts ++ map Fulfilled settled ++ [Rejected t])%list false
| awaitAll_thrown (started : list task) (t : task) (unstarted : list task) :
    awaitAll (started ++ t :: unstarted)%list
             (map Started started ++ [Started t; Rejected t])%list false.

(** A sequence of awaited batches: the next one is reached only when the
    await before it resumed normally. *)
Inductive awaitEach : list (list task) -> list event -> outcome Error unit -> Prop :=
| awaitEach_done : awaitEach [] [] (Returned tt)
| awaitEach_next (ts : list task) (rest : list (list task)) (tr1 tr2 : list event)
                 (res : outcome Error unit) :
    awaitAll ts tr1 true ->
    awaitEach rest tr2 res ->
    awaitEach (ts :: rest) (tr1 ++ tr2)%list res
| awaitEach_throw (ts : list task) (rest : list (list task)) (tr1 : list event) :
    awaitAll ts tr1 false ->
    awaitEach (ts :: rest) tr1 (Thrown Rejection).

(** [persistAllToFS()]: the events it produces and how it ends.  ([_log]
    only writes to the debug log.) *)
Definition persistAllToFS (h : Heap) (d : DataToPersist)
           (tr : list event) (res : outcome Error unit) : Prop :=
  match snd (_validate h d tt) with
  | Thrown e => tr = [] /\ res = Thrown e
  | Returned _ => awaitEach (fs_batches h d) tr res
  end.

(** [persistAllToCapsule(capsule)] *)
Definition persistAllToCapsule (h : Heap) (d : DataToPersist)
           (tr : list event) (res : outcome Error unit) : Prop :=
  awaitEach (capsule_batches h d) tr res.

(** The change-sets a caller can build on a fixed heap: from the empty one,
    by any sequence of insertions and merges, a throwing call included (the
    state it leaves is the one reached when it threw). *)
Inductive built (h : Heap) : DataToPersist -> Prop :=
| built_new : built h new_DataToPersist
| built_addFile (d : DataToPersist) (file : option ref) :
    built h d -> built h (fst (addFile h file d))
| built_removePath (d : DataToPersist) (pathToRemove : option ref) :
    built h d -> built h (fst (removePath pathToRemove d))
| built_addSymlink (d : DataToPersist) (symlink : ref) :
    built h d -> built h (fst (addSymlink h symlink d))
| built_merge (d : DataToPersist) (other : option DataToPersist) :
    built h d -> built h (fst (merge h other d)).

(** Two pending files that can stand together: different paths, neither a
    directory of the other. *)
Definition compatible (h : Heap) (a b : ref) : Prop :=
  path (vinyl h a) <> path (vinyl h b)
  /\ collides (path (vinyl h a)) (path (vinyl h b)) = false.

(** The insertion-time invariant of the pending writes. *)
Definition disjoint_writes (h : Heap) (d : DataToPersist) : Prop :=
  ForallOrdPairs (compatible h) (files d).

(** *** The pending entries, in the order [addBasePath] visits them *)

Inductive entry : Type :=
| File (file : ref)
| Link (symlink : ref)
| Remove (removePath : ref).

Definition entries (d : DataToPersist) : list entry :=
  (map File (files d) ++ map Link (symlinks d) ++ map Remove (remove d))%list.

(** The paths [addBasePath] asserts to be relative, for one entry. *)
Definition asserted_paths (h : Heap) (x : entry) : list string :=
  match x with
  | File r => [base (vinyl h r)]
  | Link r => [src (link h r); dest (link h r)]
  | Remove r => [rm_path (rmpath h r)]
  end.

Definition rebase_entry (basePath : string) (x : entry) : M Error Heap unit :=
  match x with
  | File r => rebase_file basePath r
  | Link r => rebase_symlink basePath r
  | Remove r => rebase_remove basePath r
  end.

(** The assignment [addBasePath] makes to one entry once its assertions
    passed. *)
Definition rewritten (basePath : string) (h : Heap) (x : entry) : Heap :=
  match x with
  | File r => set_vinyl r (updatePaths (join basePath (base (vinyl h r))) (vinyl h r)) h
  | Link r =>
      set_link r {| src := join basePath (src (link h r));
                    dest := join basePath (dest (link h r)) |} h
  | Remove r =>
      set_rmpath r {| rm_path := join basePath (rm_path (rmpath h r));
                      removeItsDirIfEmpty := removeItsDirIfEmpty (rmpath h r) |} h
  end.

(** Every path the rebase asserts on [x] is relative. *)
Definition relative_entry (h : Heap) (x : entry) : Prop :=
  Forall (fun p => isAbsolute p = false) (asserted_paths h x).

(** The object of [x] is the same in both heaps. *)
Definition unchanged (h h' : Heap) (x : entry) : Prop :=
  match x with
  | File r => vinyl h' r = vinyl h r
  | Link r => link h' r = link h r
  | Remove r => rmpath h' r = rmpath h r
  end.

(** The object of [x] in [h'] is the one in [h], rebased. *)
Definition joined (b : string) (h h' : Heap) (x : entry) : Prop :=
  match x with
  | File r => vinyl h' r = updatePaths (join b (base (vinyl h r))) (vinyl h r)
  | Link r =>
      link h' r = {| src := join b (src (link h r)); dest := join b (dest (link h r)) |}
  | Remove r =>
      rmpath h' r = {| rm_path := join b (rm_path (rmpath h r));
                       removeItsDirIfEmpty := removeItsDirIfEmpty (rmpath h r) |}
  end.

(** The paths [_validate] checks, in the order it checks them. *)
Definition validated_paths (h : Heap) (d : DataToPersist) : list string :=
  (map (fun file => path (vinyl h file)) (files d)
   ++ map (fun removePath => rm_path (rmpath h removePath)) (remove d)
   ++ flat_map (fun symlink => [src (link h symlink); dest (link h symlink)]) (symlinks d))%list.

(** The task of the remove phase of [persistAllToFS] that removes [r]. *)
Definition removes (h : Heap) (t : task) (r : ref) : Prop :=
  match t with
  | removeFilesAndEmptyDirsRecursively paths => In (rm_path (rmpath h r)) paths
  | persistToFS r' => r' = r
  | _ => False
  end.

End Engine.

(** *** What a change-set holds and what a trace shows *)

(** The paths of the pending writes. *)
Definition write_paths (h : Heap) (d : DataToPersist) : list string :=
  map (fun f => path (vinyl h f)) (files d).

(** The tasks a trace starts, fulfils and rejects, in the order of the
    trace. *)
Definition started_tasks (tr : list event) : list task :=
  flat_map (fun e => match e with Started t => [t] | _ => [] end) tr.
Definition fulfilled_tasks (tr : list event) : list task :=
  flat_map (fun e => match e with Fulfilled t => [t] | _ => [] end) tr.
Definition rejected_tasks (tr : list event) : list task :=
  flat_map (fun e => match e with Rejected t => [t] | _ => [] end) tr.

(** The paths handed to the recursive remover by [_deletePathsFromFS]. *)
Definition flagged_paths (h : Heap) (d : DataToPersist) : list string :=
  map (fun p => rm_path (rmpath h p))
      (filter (fun p => removeItsDirIfEmpty (rmpath h p)) (remove d)).

(** The paths [_validate] checks on one entry. *)
Definition checked_paths (h : Heap) (x : entry) : list string :=
  match x with
  | File r => [path (vinyl h r)]
  | Link r => [src (link h r); dest (link h r)]
  | Remove r => [rm_path (rmpath h r)]
  end.

(** [s] without its prefix [pre], when it starts with it. *)
Fixpoint strip_prefix (pre s : string) {struct pre} : option string :=
  match pre with
  | EmptyString => Some s
  | String c pre' =>
      match s with
      | EmptyString => None
      | String b s' => if Ascii.eqb b c then strip_prefix pre' s' else None
      end
  end.

(** The path of a file relative to its base. *)
Definition vinyl_relative {P : NodePath} (f : AbstractVinyl) : string :=
  match strip_prefix (base f ++ String sep EmptyString) (path f) with
  | Some rest => rest
  | None => path f
  end.

(** Modelled from the spec: [AbstractVinyl.updatePaths] is missing from the
    sources.  The design document has a rebase rewrite every path by joining
    it with the base; [addBasePath] hands over the joined base as [newBase],
    so the file takes [newBase] as its base and its path, relative to the
    old base, moves under it. *)
#[export] Instance spec_vinyl {P : NodePath} : VinylMethods :=
  {| updatePaths := fun newBase f =>
       {| path := join newBase (vinyl_relative f);
          base := newBase;
          contents := contents f;
          override := override f |} |}.

(** ** Sample objects, for concrete runs on POSIX paths *)

Module Sample.

(** The vinyl methods on POSIX paths. *)
Definition methods : VinylMethods := @spec_vinyl Posix.path.

Definition mk_vinyl (p b c : string) (o : bool) : AbstractVinyl :=
  {| path := p; base := b; contents := c; override := o |}.

Definition heap : Heap :=
  {| vinyl := fun r =>
       match r with
       | 0 => mk_vinyl "bar/foo" "bar" "first" false
       | 1 => mk_vinyl "bar" EmptyString "dir" false
       | 2 => mk_vinyl "bar/foo" "bar" "second" false
       | 3 => mk_vinyl "bar/foo" "bar" "third" true
       | 4 => mk_vinyl "/repo/lib/a.js" "/repo/lib" "abs" false
       | _ => mk_vinyl "lib/b.js" "lib" "rel" false
       end;
     link := fun r =>
       match r with
       | 0 => {| src := "a"; dest := "b" |}
       | _ => {| src := "/repo/a"; dest := "/repo/b" |}
       end;
     rmpath := fun r =>
       match r with
       | 0 => {| rm_path := "old"; removeItsDirIfEmpty := false |}
       | 1 => {| rm_path := "/repo/old"; removeItsDirIfEmpty := true |}
       | _ => {| rm_path := "/repo/lib/a.js"; removeItsDirIfEmpty := false |}
       end |}.

(** [new DataToPersist()] after [addFile] of the file "bar/foo". *)
Definition with_bar_foo : DataToPersist :=
  fst (addFile (P := Posix.path) heap (Some 0) new_DataToPersist).

(** [new DataToPersist()] after [addFile] of the file "bar". *)
Definition with_bar : DataToPersist :=
  fst (addFile (P := Posix.path) heap (Some 1) new_DataToPersist).

(** One relative symlink, then one remove-path that is already absolute. *)
Definition mixed : DataToPersist :=
  {| files := []; symlinks := [0]; remove := [1] |}.

(** One relative file, one relative symlink, one relative remove-path. *)
Definition relative : DataToPersist :=
  {| files := [5]; symlinks := [0]; remove := [0] |}.

(** The same relative symlink object, pushed twice. *)
Definition twice : DataToPersist :=
  {| files := []; symlinks := [0; 0]; remove := [] |}.

(** Absolute paths only; the remove-path and the file share a path. *)
Definition absolute : DataToPersist :=
  {| files := [4]; symlinks := [1]; remove := [2] |}.

End Sample.

(** ** More sample change-sets and traces, on the heap of [Sample] *)

Module SampleRuns.

(** The remove-path "old", given twice. *)
Definition removed_twice : DataToPersist :=
  fst (removePath (Some 0) (fst (removePath (Some 0) new_DataToPersist))).

(** The file "bar/foo" with [override] set, a symlink and a remove-path. *)
Definition overriding : DataToPersist :=
  {| files := [3]; symlinks := [0]; remove := [0] |}.

(** The file "bar" alone. *)
Definition only_bar : DataToPersist :=
  {| files := [1]; symlinks := []; remove := [] |}.

(** Two absolute remove-paths, the first with [removeItsDirIfEmpty]. *)
Definition two_removes : DataToPersist :=
  {| files := []; symlinks := []; remove := [1; 2] |}.

(** A commit of [Sample.absolute] in which every task is fulfilled. *)
Definition fulfilled_trace : list event :=
  [Started (persistToFS 2); Fulfilled (persistToFS 2);
   Started (write_file 4); Fulfilled (write_file 4);
   Started (write_symlink 1); Fulfilled (write_symlink 1)].

(** A commit of [Sample.absolute] whose removal is rejected. *)
Definition rejected_trace : list event :=
  [Started (persistToFS 2); Rejected (persistToFS 2)].

(** A commit of [two_removes]. *)
Definition removal_trace : list event :=
  [Started (removeFilesAndEmptyDirsRecursively ["/repo/old"]);
   Fulfilled (removeFilesAndEmptyDirsRecursively ["/repo/old"]);
   Started (persistToFS 2); Fulfilled (persistToFS 2)].

End SampleRuns.


(** * The add resolver: [addAction]

    The in-memory index ([BitMap]), the ids ([BitId]), the file system and
    the helpers of [utils] are collaborators outside these sources: they are
    taken as given.  The asynchronous steps of [addAction] only read the
    index and the file system, so they are run in order; when several calls
    of one [Promise.all] throw, the error that surfaces is the first in
    time, which here is the first in order: nothing below depends on which
    it is. *)

Module Add.

(** A JavaScript object used as a dictionary: its keys in insertion order
    (the keys met here are paths and component ids). *)
Definition dict (A : Type) : Type := list (string * A).

Fixpoint dict_get {A : Type} (o : dict A) (k : string) : option A :=
  match o with
  | [] => None
  | (k', v) :: o' => if String.eqb k' k then Some v else dict_get o' k
  end.

(** [o[k] = v] *)
Fixpoint dict_set {A : Type} (o : dict A) (k : string) (v : A) : dict A :=
  match o with
  | [] => [(k, v)]
  | (k', v') :: o' => if String.eqb k' k then (k', v) :: o' else (k', v') :: dict_set o' k v
  end.

(** [delete o[k]] *)
Definition dict_delete {A : Type} (o : dict A) (k : string) : dict A :=
  filter (fun kv => negb (String.eqb (fst kv) k)) o.

(** [Object.keys(o)] *)
Definition keys {A : Type} (o : dict A) : list string := map fst o.

(** [R.groupBy(key)] and lodash's [groupby]. *)
Definition groupBy {A : Type} (key : A -> string) (l : list A) : dict (list A) :=
  fold_left (fun o x =>
               dict_set o (key x)
                        (match dict_get o (key x) with
                         | Some group => group ++ [x]
                         | None => [x]
                         end)%list)
            l [].

(** [R.uniq] on strings. *)
Fixpoint uniq (l : list string) : list string :=
  match l with
  | [] => []
  | x :: l' => x :: filter (fun y => negb (String.eqb y x)) (uniq l')
  end.

(** [arr.includes(x)] on strings. *)
Definition includes (l : list string) (x : string) : bool := existsb (String.eqb x) l.

(** The array after an assignment to its first element that passes [f]. *)
Fixpoint replace_first {A : Type} (f : A -> bool) (y : A) (l : list A) : list A :=
  match l with
  | [] => []
  | x :: l' => if f x then y :: l' else x :: replace_first f y l'
  end.

(** Truthiness of a value that is a string or undefined. *)
Definition truthyO (o : option string) : bool :=
  match o with
  | Some s => truthy s
  | None => false
  end.

Record ComponentMapFile : Type := {
  relativePath : string;
  test : bool;
  name : string
}.

(** [COMPONENT_ORIGINS] *)
Inductive ComponentOrigin : Type := AUTHORED | IMPORTED | NESTED.

(** An entry of the index, as far as [addAction] reads it. *)
Record ComponentMap : Type := {
  entry_files : list ComponentMapFile;
  origin : ComponentOrigin;
  rootDir : option string
}.

(** [BitId] *)
Class BitIdClass : Type := {
  BitId : Type;
  parse : string -> BitId;
  getValidBitId : option string -> option string -> BitId;
  toString : BitId -> string;
  toStringWithoutVersion : BitId -> string;
  toStringWithoutScopeAndVersion : BitId -> string
}.

(** [BitMap], the index in memory.  [getComponent] is given the id and
    [includeSearchByBoxAndNameOnly] ([shouldThrow] is never set);
    [getComponentObjectOfFileByPath] gives the first key of the object it
    returns; [relocateFoundFile] is the index after the assignment
    [foundFile.relativePath = path.join(rootDir, foundFile.relativePath)] to
    the file found, by its relative path, in the entry found for an id. *)
Class BitMapClass {I : BitIdClass} : Type := {
  BitMap : Type;
  getExistingComponentId : BitMap -> string -> option string;
  getComponent : BitMap -> string -> bool -> option ComponentMap;
  getComponentObjectOfFileByPath : BitMap -> string -> option string;
  getComponentIdByPath : BitMap -> string -> option string;
  addComponent :
    BitMap -> BitId -> list ComponentMapFile -> option string -> ComponentOrigin -> bool -> BitMap;
  relocateFoundFile : BitMap -> string -> string -> BitMap
}.

(** The file system, [glob], [ignore], Node's [path] beyond [NodePath], the
    consumer and the helpers of [utils], as seen during one invocation. *)
Class Utils : Type := {
  glob : string -> list string;               (* glob(pattern) *)
  glob_nodir : string -> list string;         (* glob(pattern, { cwd, nodir: true }) *)
  glob_ignore : string -> list string;        (* glob(pattern, { ignore: ignoreList }) *)
  gitIgnore_filter : list string -> list string;
  existsSync : string -> bool;                (* utils *)
  fs_existsSync : string -> bool;             (* fs.existsSync *)
  isDir : string -> bool;
  getMissingTestFiles : list string -> list string;
  isAutoGeneratedFile : string -> bool;
  arrayDiff : list string -> list string -> list string;
  format_dsl : string -> string -> string;    (* format(dsl, calculateFileInfo(file)) *)
  matches_REGEX_PATTERN : string -> bool;     (* mainFile.match(REGEX_PATTERN) *)
  pathNormalizeToLinux : string -> string;
  getPathRelativeToConsumer : string -> string;
  consumer_getPath : string;
  consumer_projectPath : string;
  path_resolve : string -> string;
  path_split : string -> list string;         (* p.split(path.sep) *)
  path_parse_dir : string -> string;
  path_parse_name : string -> string;
  path_dirname : string -> string;
  path_basename : string -> string;
  path_normalize : string -> string;
  path_relative : string -> string -> string
}.

Section Resolver.

Context {P : NodePath} {I : BitIdClass} {B : BitMapClass} {U : Utils}.

(** A candidate component, as [addOneComponent] returns it. *)
Record Component : Type := {
  componentId : BitId;
  files : list ComponentMapFile;
  mainFile : option string
}.

Inductive AddError : Type :=
| PathNotExists (paths : list string)
| MissingComponentIdForImportedComponent (id : string)
| IncorrectIdForImportedComponent (importedId newId : string)
| NoFiles (ignoredFiles : list string)
| DuplicateIds (componentObject : dict (list Component))
| EmptyDirectory
| DependencyHasSameName (existingComponentId : string)
    (* One of your dependencies (existingComponentId) has already the same namespace and name *)
| TypeError.

(** What [addAction] returns for one component added to the index. *)
Record Added : Type := { added_id : string; added_files : list ComponentMapFile }.

Record Result : Type := {
  addedComponents : list Added;
  result_warnings : dict (list string)
}.

(** The index in memory, the warnings collected so far, and what
    [bitMap.write()] has written, in order. *)
Record State : Type := {
  bitMap : BitMap;
  warnings : dict (list string);
  written : list BitMap
}.

Definition set_bitMap (b : BitMap) (s : State) : State :=
  {| bitMap := b; warnings := warnings s; written := written s |}.
Definition set_warnings (w : dict (list string)) (s : State) : State :=
  {| bitMap := bitMap s; warnings := w; written := written s |}.

(** [bitMap.write()] *)
Definition write : M AddError State unit :=
  modify (fun s => {| bitMap := bitMap s; warnings := warnings s;
                      written := (written s ++ [bitMap s])%list |}).

(** [arr.map(f)] where [f] may throw. *)
Fixpoint mapM {E S A R : Type} (f : A -> M E S R) (l : list A) : M E S (list R) :=
  match l with
  | [] => ret []
  | x :: l' => (y <- f x ;; ys <- mapM f l' ;; ret (y :: ys))%js
  end.

(** [validatePaths(fileArray)] *)
Fixpoint validatePaths_go (fileArray : list string) (componentPathsStats : dict bool)
  : outcome AddError (dict bool) :=
  match fileArray with
  | [] => Returned componentPathsStats
  | componentPath :: rest =>
      if negb (existsSync componentPath) then Thrown (PathNotExists [componentPath])
      else validatePaths_go rest (dict_set componentPathsStats componentPath (isDir componentPath))
  end.

Definition validatePaths (fileArray : list string) : outcome AddError (dict bool) :=
  validatePaths_go fileArray [].

(** [groupFilesByComponentId(componentId, files, bitMap)] *)
Definition groupFilesByComponentId (componentId : BitId) (files : list ComponentMapFile)
           (bitMap : BitMap) : dict (list (string * ComponentMapFile)) :=
  let filesWithId :=
    map (fun file =>
           let bitMapComponentId := getComponentObjectOfFileByPath bitMap (relativePath file) in
           (match bitMapComponentId with
            | Some i => if truthy i then i else toString componentId
            | None => toString componentId
            end, file))
        files in
  groupBy fst filesWithId.

(** [addToBitMap(bitmap, { componentId, files, mainFile })] *)
Definition addToBitMap (override : bool) (component : Component) : M AddError State Added :=
  (modify (fun s => set_bitMap (addComponent (bitMap s) (componentId component) (files component)
                                             (mainFile component) AUTHORED override) s) ;;
   found <- gets (fun s => getComponent (bitMap s) (toString (componentId component)) false) ;;
   match found with
   | Some c => ret {| added_id := toString (componentId component);
                      added_files := entry_files c |}
   | None => throw TypeError
   end)%js.

(** [warnings[key]] gets one more path: the push when [warnings[tested]]
    is there, the assignment of a new array otherwise. *)
Definition warn (tested key : string) (relPath : string) : M AddError State unit :=
  fun s =>
    match dict_get (warnings s) tested with
    | Some _ =>
        match dict_get (warnings s) key with
        | Some paths => (set_warnings (dict_set (warnings s) key (paths ++ [relPath])%list) s,
                         Returned tt)
        | None => (s, Thrown TypeError)
        end
    | None => (set_warnings (dict_set (warnings s) key [relPath]) s, Returned tt)
    end.

(** The callback of [files.map] for a group whose id is in the index; the
    entry found is passed along, since the callback may assign to one of its
    files.  [None] is the undefined returned for an auto-generated file. *)
Definition reconcile_found_file (consumerPath : string) (id : option string)
           (bitMapComponentId : string) (parsedBitId : BitId)
           (foundComponentFromBitMap : ComponentMap) (file : ComponentMapFile)
  : M AddError State (ComponentMap * option ComponentMapFile) :=
  if negb (isAutoGeneratedFile (join consumerPath (relativePath file))) then
    let notImported :=
      (tracked <- gets (fun s => getComponentIdByPath (bitMap s) (relativePath file)) ;;
       (if match tracked with
           | Some t => negb (String.eqb t (toString parsedBitId))
           | None => true
           end
        then warn bitMapComponentId bitMapComponentId (relativePath file)
        else ret tt) ;;
       ret (foundComponentFromBitMap, Some file))%js in
    if truthy bitMapComponentId && truthyO (rootDir foundComponentFromBitMap) then
      (* throw error in case user didnt add id to imported component or the id is incorrect *)
      match id with
      | Some i =>
          if negb (truthy i) then
            throw (MissingComponentIdForImportedComponent (toStringWithoutVersion parsedBitId))
          else if negb (String.eqb (toStringWithoutScopeAndVersion parsedBitId) i)
                  && negb (String.eqb (toStringWithoutVersion parsedBitId) i) then
            throw (IncorrectIdForImportedComponent (toStringWithoutVersion parsedBitId) i)
          else
            let root := match rootDir foundComponentFromBitMap with Some r => r | None => EmptyString end in
            let tempFile := path_relative root (relativePath file) in
            match find (fun f => String.eqb (relativePath f) tempFile)
                       (entry_files foundComponentFromBitMap) with
            | Some foundFile =>
                let moved := {| relativePath := join root (relativePath foundFile);
                                test := test foundFile; name := name foundFile |} in
                (modify (fun s => set_bitMap
                                    (relocateFoundFile (bitMap s) bitMapComponentId tempFile) s) ;;
                 ret ({| entry_files :=
                           replace_first (fun f => String.eqb (relativePath f) tempFile) moved
                                         (entry_files foundComponentFromBitMap);
                         origin := origin foundComponentFromBitMap;
                         rootDir := rootDir foundComponentFromBitMap |},
                      Some moved))%js
            | None => notImported
            end
      | None =>
          throw (MissingComponentIdForImportedComponent (toStringWithoutVersion parsedBitId))
      end
    else
      (* not imported component file but exists in bitmap *)
      notImported
  else ret (foundComponentFromBitMap, None).

(** [files.map(...)] over the files of a found group, in order. *)
Fixpoint reconcile_found_files (consumerPath : string) (id : option string)
         (bitMapComponentId : string) (parsedBitId : BitId)
         (foundComponentFromBitMap : ComponentMap) (files : list ComponentMapFile)
  : M AddError State (list (option ComponentMapFile)) :=
  match files with
  | [] => ret []
  | file :: rest =>
      (r <- reconcile_found_file consumerPath id bitMapComponentId parsedBitId
                                 foundComponentFromBitMap file ;;
       rs <- reconcile_found_files consumerPath id bitMapComponentId parsedBitId (fst r) rest ;;
       ret (snd r :: rs))%js
  end.

(** The callback of [files.map] for a group whose id is not in the index. *)
Definition reconcile_new_file (bitMapComponentId : string) (file : ComponentMapFile)
  : M AddError State (option ComponentMapFile) :=
  (bitMapid <- gets (fun s => getComponentIdByPath (bitMap s) (relativePath file)) ;;
   match bitMapid with
   | Some i =>
       if truthy i then (warn bitMapComponentId i (relativePath file) ;; ret None)%js
       else ret (Some file)
   | None => ret (Some file)
   end)%js.

(** [arr.filter(x => x)] on the results of such a [map]. *)
Definition defined {A : Type} (l : list (option A)) : list A :=
  flat_map (fun o => match o with Some x => [x] | None => [] end) l.

(** The callback of [Object.keys(groupedById).map] in
    [addOrUpdateExistingComponentsInBitMap].  The component is assigned to
    on the way: it is returned with the result. *)
Definition reconcile_group (consumerPath : string) (id : option string) (override : bool)
           (component : Component) (group : string * list (string * ComponentMapFile))
  : M AddError State (Component * option Added) :=
  let bitMapComponentId := fst group in
  let parsedBitId := parse bitMapComponentId in
  let groupFiles := map snd (snd group) in
  (foundComponentFromBitMap <- gets (fun s => getComponent (bitMap s) bitMapComponentId true) ;;
   match foundComponentFromBitMap with
   | Some found =>
       kept <- reconcile_found_files consumerPath id bitMapComponentId parsedBitId found groupFiles ;;
       locatedIDFromBitMap <- gets (fun s => getExistingComponentId (bitMap s) bitMapComponentId) ;;
       let component :=
         {| componentId := match locatedIDFromBitMap with
                           | Some l => if truthy l then parse l else parse bitMapComponentId
                           | None => parse bitMapComponentId
                           end;
            files := defined kept;
            mainFile := mainFile component |} in
       added <- addToBitMap override component ;;
       ret (component, Some added)
   | None =>
       (* if id is not in bitmap check that files are not tracked by another component *)
       kept <- mapM (reconcile_new_file bitMapComponentId) groupFiles ;;
       let component :=
         {| componentId := componentId component;
            files := defined kept;
            mainFile := mainFile component |} in
       match files component with
       | [] => ret (component, None)
       | _ :: _ => (added <- addToBitMap override component ;; ret (component, Some added))
       end
   end)%js.

(** [Object.keys(groupedById).map(...)], in order: the component as the
    callbacks left it, and what they returned. *)
Fixpoint reconcile_groups (consumerPath : string) (id : option string) (override : bool)
         (component : Component) (groups : dict (list (string * ComponentMapFile)))
  : M AddError State (Component * list (option Added)) :=
  match groups with
  | [] => ret (component, [])
  | group :: rest =>
      (r <- reconcile_group consumerPath id override component group ;;
       rs <- reconcile_groups consumerPath id override (fst r) rest ;;
       ret (fst rs, snd r :: snd rs))%js
  end.

(** [addOrUpdateExistingComponentsInBitMap(consumerPath, bitmap, component)] *)
Definition addOrUpdateExistingComponentsInBitMap (consumerPath : string) (id : option string)
           (override : bool) (component : Component) : M AddError State (list Added) :=
  (groupedById <- gets (fun s => groupFilesByComponentId (componentId component)
                                                          (files component) (bitMap s)) ;;
   addedComponents <- reconcile_groups consumerPath id override component groupedById ;;
   ret (defined (snd addedComponents)))%js.

(** [validateNoDuplicateIds(addComponents)]: the components are grouped by
    the string of their id. *)
Definition duplicateIds (addComponents : list Component) : dict (list Component) :=
  filter (fun kv => Nat.ltb 1 (List.length (snd kv)))
         (groupBy (fun c => toString (componentId c)) addComponents).

Definition validateNoDuplicateIds {S : Type} (addComponents : list Component)
  : M AddError S unit :=
  match duplicateIds addComponents with
  | [] => ret tt
  | _ :: _ => throw (DuplicateIds (duplicateIds addComponents))
  end.

(** [getPathRelativeToProjectRoot(componentPath, projectRoot)] *)
Definition getPathRelativeToProjectRoot (componentPath projectRoot : string) : string :=
  if negb (truthy componentPath) then componentPath
  else
    let absPath := path_resolve componentPath in
    path_relative projectRoot absPath.

(** [getFiles(files, testFiles)]: update test files according to dsl. *)
Definition getFiles (fileList testFiles : list string) : list string :=
  let fileListRes :=
    flat_map (fun dsl =>
                flat_map (fun file =>
                            let generatedFile := format_dsl dsl file in
                            let matches := glob_ignore generatedFile in
                            filter fs_existsSync matches)
                         fileList)
             testFiles in
  map (fun testFile =>
         let relativeToConsumer := getPathRelativeToProjectRoot testFile consumer_getPath in
         pathNormalizeToLinux relativeToConsumer)
      (uniq fileListRes).

(** lodash's [unionBy(a, b, 'relativePath')] *)
Fixpoint uniqByPath (l : list ComponentMapFile) : list ComponentMapFile :=
  match l with
  | [] => []
  | x :: l' =>
      x :: filter (fun y => negb (String.eqb (relativePath y) (relativePath x))) (uniqByPath l')
  end.

Definition unionBy (a b : list ComponentMapFile) : list ComponentMapFile :=
  uniqByPath (a ++ b).

(** [mergeTestFilesWithFiles(files)] *)
Definition mergeTestFilesWithFiles (tests : list string) (fileList : list ComponentMapFile)
  : list ComponentMapFile :=
  let testFilesArr :=
    match tests with
    | [] => []
    | _ :: _ => getFiles (map relativePath fileList) tests
    end in
  let resolvedTestFiles :=
    map (fun testFile => {| relativePath := testFile; test := true;
                            name := path_basename testFile |})
        testFilesArr in
  unionBy resolvedTestFiles fileList.

(** [addMainFileToFiles(files, mainFile)]: the array it may push to, and
    the main file it resolves. *)
Definition addMainFileToFiles (fileList : list ComponentMapFile) (mainFile : option string)
  : list ComponentMapFile * option string :=
  let looped :=
    match mainFile with
    | Some m =>
        if truthy m && matches_REGEX_PATTERN m then
          let step (acc : list ComponentMapFile * string) (file : ComponentMapFile) :=
            let generatedFile := format_dsl (snd acc) (relativePath file) in
            let foundFile :=
              find (fun f => String.eqb (relativePath f) generatedFile) (fst acc) in
            match foundFile with
            | Some f => (fst acc, relativePath f)
            | None =>
                if fs_existsSync generatedFile then
                  ((fst acc ++ [{| relativePath := generatedFile; test := false;
                                   name := path_basename generatedFile |}])%list,
                   generatedFile)
                else acc
            end in
          let r := fold_left step fileList (fileList, m) in
          (fst r, Some (snd r))
        else (fileList, mainFile)
    | None => (fileList, mainFile)
    end in
  let resolvedMainFile :=
    match snd looped with
    | Some m =>
        if truthy m then
          let mainPath := join consumer_getPath (getPathRelativeToConsumer m) in
          if fs_existsSync mainPath then Some (getPathRelativeToConsumer mainPath)
          else Some m
        else None
    | None => None
    end in
  (fst looped, resolvedMainFile).

(** [a || b] on values that are a string or undefined. *)
Definition orO (a b : option string) : option string :=
  if truthyO a then a else b.

(** [arr[arr.length - k]] *)
Definition from_end (k : nat) (l : list string) : option string :=
  if Nat.ltb (List.length l) k then None else nth_error l (List.length l - k).

(** [updateIdAccordingToExistingComponent(currentId)]; the state is
    [parsedId] ([componentExists] and [foundId] are not read afterwards). *)
Definition updateIdAccordingToExistingComponent (bitMap : BitMap) (currentId : string)
  : M AddError (option BitId) unit :=
  let existingComponentId := getExistingComponentId bitMap currentId in
  let componentExists := truthyO existingComponentId in
  match existingComponentId with
  | Some existing =>
      if componentExists then
        match getComponent bitMap existing false with
        | Some c =>
            match origin c with
            | NESTED => throw (DependencyHasSameName existing)
            | _ => modify (fun _ => Some (parse existing))
            end
        | None => throw TypeError
        end
      else modify (fun _ => Some (parse currentId))
  | None => modify (fun _ => Some (parse currentId))
  end.

(** The callback of [addOneComponent] over its paths, for a directory. *)
Definition add_directory (main namespace : option string) (tests : list string)
           (componentPath : string) : M AddError (option BitId) Component :=
  let relativeComponentPath := getPathRelativeToProjectRoot componentPath consumer_getPath in
  let absoluteComponentPath := path_resolve componentPath in
  let splitPath := path_split absoluteComponentPath in
  let lastDir := from_end 1 splitPath in
  let nameSpaceOrDir := orO namespace (from_end 2 splitPath) in
  let matches := glob_nodir (join relativeComponentPath "**") in
  let filteredMatches := gitIgnore_filter matches in
  match filteredMatches with
  | [] => throw EmptyDirectory
  | _ :: _ =>
      let fileList :=
        map (fun m => {| relativePath := pathNormalizeToLinux m; test := false;
                         name := path_basename m |})
            filteredMatches in
      (* merge test files with files *)
      let fileList := mergeTestFilesWithFiles tests fileList in
      let r := addMainFileToFiles fileList (option_map pathNormalizeToLinux main) in
      (parsedId <- gets (fun parsedId =>
                           match parsedId with
                           | Some i => i
                           | None => getValidBitId nameSpaceOrDir lastDir
                           end) ;;
       modify (fun _ => Some parsedId) ;;
       ret {| componentId := parsedId; files := fst r; mainFile := snd r |})%js
  end.

(** The callback of [addOneComponent] over its paths, for a file. *)
Definition add_file (bitMap : BitMap) (main namespace : option string) (tests : list string)
           (componentPath : string) : M AddError (option BitId) Component :=
  let resolvedPath := path_resolve componentPath in
  let relativeFilePath := getPathRelativeToProjectRoot componentPath consumer_getPath in
  let dirName :=
    if truthy (path_parse_dir resolvedPath) then path_parse_dir resolvedPath
    else
      let absPath := path_resolve componentPath in
      path_dirname absPath in
  let nameSpaceOrLastDir := orO namespace (from_end 1 (path_split dirName)) in
  let derived := getValidBitId nameSpaceOrLastDir (Some (path_parse_name resolvedPath)) in
  (parsedId <- gets (fun parsedId => parsedId) ;;
   match parsedId with
   | Some _ => ret tt
   | None =>
       modify (fun _ => Some derived) ;;
       updateIdAccordingToExistingComponent bitMap (toString derived)
   end ;;
   parsedId <- gets (fun parsedId => match parsedId with Some i => i | None => derived end) ;;
   let fileList :=
     [{| relativePath := pathNormalizeToLinux relativeFilePath; test := false;
         name := path_basename relativeFilePath |}] in
   let fileList := mergeTestFilesWithFiles tests fileList in
   let r := addMainFileToFiles fileList main in
   ret {| componentId := parsedId; files := fst r; mainFile := snd r |})%js.

(** [removeExcludedFiles(mapValues, excludedList)] *)
Definition removeExcludedFiles (mapValues : list Component) (excludedList : list string)
  : list Component :=
  let allPaths := flat_map (fun x => map relativePath (files x)) mapValues in
  let resolvedExcludedFiles := getFiles allPaths excludedList in
  map (fun mapVal =>
         let main := option_map pathNormalizeToLinux (mainFile mapVal) in
         if match main with
            | Some m => includes resolvedExcludedFiles m
            | None => false
            end
         then {| componentId := componentId mapVal; files := []; mainFile := mainFile mapVal |}
         else {| componentId := componentId mapVal;
                 files := filter (fun key => negb (includes resolvedExcludedFiles
                                                             (relativePath key)))
                                 (files mapVal);
                 mainFile := mainFile mapVal |})
      mapValues.

(** [assignwith({}, ...group, (val1, val2) => val1 || val2)] on the files
    that share a relative path. *)
Definition assign_first_truthy (group : list ComponentMapFile) : option ComponentMapFile :=
  match group with
  | [] => None
  | x :: rest =>
      Some (fold_left (fun acc y =>
                         {| relativePath := if truthy (relativePath acc) then relativePath acc
                                            else relativePath y;
                            test := test acc || test y;
                            name := if truthy (name acc) then name acc else name y |})
                      rest x)
  end.

(** [addOneComponent(componentPathsStats, consumer)] *)
Definition addOneComponent (bitMap : BitMap) (id main namespace : option string)
           (tests : list string) (exclude : option (list string))
           (componentPathsStats : dict bool) : M AddError (option BitId) Component :=
  ((match id with
    | Some idOrFoundID =>
        if truthy idOrFoundID then updateIdAccordingToExistingComponent bitMap idOrFoundID
        else ret tt
    | None => ret tt
    end) ;;
   mapValues <- mapM (fun stat =>
                        if (snd stat : bool) then add_directory main namespace tests (fst stat)
                        else add_file bitMap main namespace tests (fst stat))
                     componentPathsStats ;;
   (* remove files that are excluded *)
   let mapValues := match exclude with
                    | Some excluded => removeExcludedFiles mapValues excluded
                    | None => mapValues
                    end in
   match mapValues with
   | [] => throw TypeError
   | first :: _ =>
       let componentId := componentId first in
       let mapValues := filter (fun mapVal => negb (Nat.eqb (List.length (files mapVal)) 0))
                               mapValues in
       match mapValues with
       | [] => ret {| componentId := componentId; files := []; mainFile := None |}
       | [only] => ret only
       | head :: _ =>
           let allFiles := flat_map files mapValues in
           let groupedComponents := groupBy relativePath allFiles in
           let uniqComponents :=
             defined (map (fun kv => assign_first_truthy (snd kv)) groupedComponents) in
           ret {| componentId := componentId; files := uniqComponents;
                  mainFile := mainFile head |}
       end
   end)%js.

(** [R.isEmpty] on an array. *)
Definition isEmpty {A : Type} (l : list A) : bool :=
  match l with
  | [] => true
  | _ :: _ => false
  end.

(** The paths [addAction] goes on with: the component paths as globbed and
    filtered, or the test files when nothing was globbed. *)
Definition resolveComponentPaths (componentPaths : list string) (id : option string)
           (tests : list string) : outcome AddError (dict bool) :=
  let resolvedComponentPathsWithoutGitIgnore := flat_map glob componentPaths in
  let resolvedComponentPathsWithGitIgnore :=
    gitIgnore_filter resolvedComponentPathsWithoutGitIgnore in
  (* Run diff on both arrays to see what was filtered out because of the gitignore file *)
  let diff := arrayDiff resolvedComponentPathsWithGitIgnore
                        resolvedComponentPathsWithoutGitIgnore in
  if negb (isEmpty tests) && truthyO id && isEmpty resolvedComponentPathsWithoutGitIgnore then
    let resolvedTestFiles := flat_map glob tests in
    validatePaths resolvedTestFiles
  else if isEmpty resolvedComponentPathsWithoutGitIgnore then
    Thrown (PathNotExists componentPaths)
  else if negb (isEmpty resolvedComponentPathsWithGitIgnore) then
    validatePaths resolvedComponentPathsWithGitIgnore
  else Thrown (NoFiles diff).

(** A call of [addOneComponent] made by [addAction]: it reads the index. *)
Definition call_addOneComponent (id main namespace : option string) (tests : list string)
           (exclude : option (list string)) (componentPathsStats : dict bool)
  : M AddError State Component :=
  fun s => (s, snd (addOneComponent (bitMap s) id main namespace tests exclude
                                    componentPathsStats None)).

(** [addAction(componentPaths, id, main, namespace, tests, exclude, override)] *)
Definition addAction (componentPaths : list string) (id main namespace : option string)
           (tests : list string) (exclude : option (list string)) (override : bool)
  : M AddError State Result :=
  (* check unknown test files *)
  let missingFiles := getMissingTestFiles tests in
  if negb (isEmpty missingFiles) then throw (PathNotExists missingFiles)
  else
    (componentPathsStats <- lift (resolveComponentPaths componentPaths id tests) ;;
     (* if a user entered multiple paths and entered an id, he wants all these paths
        to be one component *)
     let isMultipleComponents :=
       Nat.ltb 1 (List.length (keys componentPathsStats)) && negb (truthyO id) in
     added <-
       (if isMultipleComponents then
          let testToRemove :=
            if negb (isEmpty tests) then getFiles (keys componentPathsStats) tests else [] in
          let componentPathsStats :=
            fold_left (fun o t => dict_delete o (path_normalize t)) testToRemove
                      componentPathsStats in
          addedComponents <-
            mapM (fun stat => call_addOneComponent id main namespace tests exclude [stat])
                 componentPathsStats ;;
          validateNoDuplicateIds addedComponents ;;
          mapM (fun component =>
                  if negb (isEmpty (files component)) then
                    addOrUpdateExistingComponentsInBitMap consumer_projectPath id override
                                                          component
                  else ret [])
               addedComponents
        else
          addedOne <- call_addOneComponent id main namespace tests exclude componentPathsStats ;;
          if negb (isEmpty (files addedOne)) then
            addedResult <- addOrUpdateExistingComponentsInBitMap consumer_projectPath id
                                                                 override addedOne ;;
            ret [addedResult]
          else ret []) ;;
     write ;;
     w <- gets warnings ;;
     ret {| addedComponents := concat added; result_warnings := w |})%js.

End Resolver.

End Add.

(** ** A small index and working tree, for concrete runs of [addAction] *)

Module AddSample.

Import Add.

Fixpoint before_at (s : string) : string :=
  match s with
  | EmptyString => EmptyString
  | String c s' => if Ascii.eqb c "@" then EmptyString else String c (before_at s')
  end.

Definition withoutScopeAndVersion (s : string) : string :=
  match Posix.split (before_at s) with
  | [_; box; name] => box ++ "/" ++ name
  | _ => before_at s
  end.

(** Modelled from the spec: [BitId] is missing from the sources.  An id is
    "box/name", with an optional scope in front and an optional "@version"
    behind; here it is kept as its string. *)
#[export] Instance ids : BitIdClass :=
  {| BitId := string;
     parse := fun s => s;
     getValidBitId := fun box name =>
       match box with Some b => b | None => EmptyString end ++ "/"
       ++ match name with Some n => n | None => EmptyString end;
     toString := fun i => i;
     toStringWithoutVersion := before_at;
     toStringWithoutScopeAndVersion := withoutScopeAndVersion |}.

Definition Index : Type := dict ComponentMap.

Definition by_box_and_name (bm : Index) (id : string) : option (string * ComponentMap) :=
  find (fun kv => String.eqb (withoutScopeAndVersion (fst kv)) (withoutScopeAndVersion id)) bm.

Definition lookup (bm : Index) (id : string) (includeSearchByBoxAndNameOnly : bool)
  : option (string * ComponentMap) :=
  match dict_get bm id with
  | Some c => Some (id, c)
  | None => if includeSearchByBoxAndNameOnly then by_box_and_name bm id else None
  end.

(** The path of a file of an entry, from the root of the working tree. *)
Definition tracked_path (c : ComponentMap) (f : ComponentMapFile) : string :=
  match rootDir c with
  | Some root => Posix.join2 root (relativePath f)
  | None => relativePath f
  end.

Definition id_by_path (bm : Index) (p : string) : option string :=
  option_map fst
    (find (fun kv => existsb (fun f => String.eqb (tracked_path (snd kv) f) p)
                             (entry_files (snd kv)))
          bm).

(** Modelled from the spec: [BitMap] is missing from the sources.  The
    lookups are those of the design document: by id, by box and name only
    when asked, by the path of a tracked file; adding to an entry that exists
    merges the file sets and keeps its origin, adding to none creates one. *)
#[export] Instance index : BitMapClass :=
  {| BitMap := Index;
     getExistingComponentId := fun bm id => option_map fst (lookup bm id true);
     getComponent := fun bm id fuzzy => option_map snd (lookup bm id fuzzy);
     getComponentObjectOfFileByPath := id_by_path;
     getComponentIdByPath := id_by_path;
     addComponent := fun bm componentId fileList _ origin override =>
       match dict_get bm componentId with
       | Some c =>
           dict_set bm componentId
                    {| entry_files := if (override : bool) then fileList
                                      else unionBy fileList (entry_files c);
                       origin := Add.origin c;
                       rootDir := rootDir c |}
       | None =>
           (bm ++ [(componentId,
                    {| entry_files := fileList; origin := origin; rootDir := None |})])%list
       end;
     relocateFoundFile := fun bm id tempFile =>
       match lookup bm id true with
       | Some (k, c) =>
           let root := match rootDir c with Some r => r | None => EmptyString end in
           dict_set bm k
                    {| entry_files :=
                         map (fun f =>
                                if String.eqb (relativePath f) tempFile
                                then {| relativePath := Posix.join2 root (relativePath f);
                                        test := test f; name := name f |}
                                else f)
                             (entry_files c);
                       origin := Add.origin c;
                       rootDir := rootDir c |}
       | None => bm
       end |}.

(** The working tree, under "/work". *)
Definition directories : list string := ["deps/foo"; "a/ns/foo"; "b/ns/foo"; "components/comp"].

Definition regular_files : list string :=
  ["deps/foo/index.js"; "deps/foo.js"; "a/ns/foo/x.js"; "b/ns/foo/y.js";
   "components/comp/index.js"; "components/comp/lib.js"; "dist/out.js"; "test/a.spec.js"].

Definition last_segment (p : string) : string := last (Posix.split p) EmptyString.

Fixpoint before_dot (s : string) : string :=
  match s with
  | EmptyString => EmptyString
  | String c s' => if Ascii.eqb c "." then EmptyString else String c (before_dot s')
  end.

Definition dirname (p : string) : string :=
  String.concat "/" (removelast (Posix.split p)).

Definition relative_to (from to : string) : string :=
  match strip_prefix (from ++ "/") to with
  | Some rest => rest
  | None => to
  end.

(** The helpers on this tree: a pattern is a literal path, the ignore rules
    drop what lies under "dist/", and one file is auto-generated. *)
#[export] Instance tree : Utils :=
  {| glob := fun p => if includes (directories ++ regular_files) p then [p] else [];
     glob_nodir := fun p =>
       filter (fun f => match strip_prefix (dirname p ++ "/") f with
                        | Some _ => true
                        | None => false
                        end)
              regular_files;
     glob_ignore := fun p => if includes regular_files p then [p] else [];
     gitIgnore_filter := filter (fun p => negb (startsWith p "dist/"));
     existsSync := includes (directories ++ regular_files);
     fs_existsSync := includes (directories ++ regular_files);
     isDir := includes directories;
     getMissingTestFiles := filter (fun t => negb (includes regular_files t));
     isAutoGeneratedFile := String.eqb "/work/components/comp/index.js";
     arrayDiff := fun a b => filter (fun x => negb (includes a x)) b;
     format_dsl := fun dsl _ => dsl;
     matches_REGEX_PATTERN := fun _ => false;
     pathNormalizeToLinux := fun p => p;
     getPathRelativeToConsumer := relative_to "/work";
     consumer_getPath := "/work";
     consumer_projectPath := "/work";
     path_resolve := fun p => if Posix.is_abs p then Posix.normalize p else Posix.join2 "/work" p;
     path_split := Posix.split;
     path_parse_dir := dirname;
     path_parse_name := fun p => before_dot (last_segment p);
     path_dirname := dirname;
     path_basename := last_segment;
     path_normalize := Posix.normalize;
     path_relative := relative_to |}.

Definition nested_entry (root : option string) : ComponentMap :=
  {| entry_files := []; origin := NESTED; rootDir := root |}.

Definition imported_entry : ComponentMap :=
  {| entry_files := [{| relativePath := "index.js"; test := false; name := "index.js" |};
                     {| relativePath := "lib.js"; test := false; name := "lib.js" |}];
     origin := IMPORTED;
     rootDir := Some "components/comp" |}.

(** The index with one Nested entry, "deps/foo". *)
Definition with_nested (root : option string) : Index := [("deps/foo", nested_entry root)].

(** The index with one Imported entry, "scope/comp/lib@0.0.1". *)
Definition with_imported : Index := [("scope/comp/lib@0.0.1", imported_entry)].

Definition tracked (p n : string) : ComponentMapFile :=
  {| relativePath := p; test := false; name := n |}.

(** A candidate with the id [i] and the files [fs]. *)
Definition candidate (i : string) (fs : list ComponentMapFile) : Component :=
  {| componentId := (i : @BitId ids); files := fs; mainFile := None |}.

Definition state_of (bm : Index) : State :=
  {| bitMap := bm; warnings := []; written := [] |}.

(** [addAction] on this tree, with POSIX paths. *)
Definition run (componentPaths : list string) (id : option string) (tests : list string)
           (bm : Index) : State * outcome AddError Result :=
  addAction (P := Posix.path) componentPaths id None None tests None false (state_of bm).

End AddSample.

(** ** A working tree in which a directory holds ignored files only *)

Module IgnoredSample.

Import Add.
Import AddSample.

(** The tree of [AddSample], "dist" being a directory of it. *)
#[export] Instance tree : Utils :=
  {| glob := fun p => if includes ("dist" :: directories ++ regular_files)%list p then [p] else [];
     glob_nodir := glob_nodir (Utils := AddSample.tree);
     glob_ignore := glob_ignore (Utils := AddSample.tree);
     gitIgnore_filter := gitIgnore_filter (Utils := AddSample.tree);
     existsSync := includes ("dist" :: directories ++ regular_files)%list;
     fs_existsSync := includes ("dist" :: directories ++ regular_files)%list;
     isDir := includes ("dist" :: directories);
     getMissingTestFiles := getMissingTestFiles (Utils := AddSample.tree);
     isAutoGeneratedFile := isAutoGeneratedFile (Utils := AddSample.tree);
     arrayDiff := arrayDiff (Utils := AddSample.tree);
     format_dsl := format_dsl (Utils := AddSample.tree);
     matches_REGEX_PATTERN := matches_REGEX_PATTERN (Utils := AddSample.tree);
     pathNormalizeToLinux := pathNormalizeToLinux (Utils := AddSample.tree);
     getPathRelativeToConsumer := getPathRelativeToConsumer (Utils := AddSample.tree);
     consumer_getPath := consumer_getPath (Utils := AddSample.tree);
     consumer_projectPath := consumer_projectPath (Utils := AddSample.tree);
     path_resolve := path_resolve (Utils := AddSample.tree);
     path_split := path_split (Utils := AddSample.tree);
     path_parse_dir := path_parse_dir (Utils := AddSample.tree);
     path_parse_name := path_parse_name (Utils := AddSample.tree);
     path_dirname := path_dirname (Utils := AddSample.tree);
     path_basename := path_basename (Utils := AddSample.tree);
     path_normalize := path_normalize (Utils := AddSample.tree);
     path_relative := path_relative (Utils := AddSample.tree) |}.

End IgnoredSample.

(** * The package-manager client: [npm-client]

    Running a package manager is an effect on the world outside: the
    processes started ([execa]), the directories made ([fs.ensureDirSync])
    and the analytics data set are recorded, in order; what a process
    answers is the platform's, given the record so far.  ([logger] calls
    are left out.)

    The package manager of an install is one of the two names its type
    allows; where the code takes any string it is a string.  The output of
    [npm list -j], once parsed, is taken as the object the code reads: for
    each dependency, whether [peerMissing] is truthy and, when [required]
    is there, its [name] and [version] as strings.  Objects used as
    dictionaries keep their keys in insertion order (the keys met here are
    package names and option names). *)

Module Npm.

Import Add.

(** The line feed. *)
Definition nl : string := String "010"%char EmptyString.

(** The double quote. *)
Definition dquote : string := String "034"%char EmptyString.

(** [s.split(c)] for a separator of one character. *)
Fixpoint split (c : ascii) (s : string) : list string :=
  match s with
  | EmptyString => [EmptyString]
  | String b s' =>
      if Ascii.eqb b c then EmptyString :: split c s'
      else match split c s' with
           | w :: ws => String b w :: ws
           | [] => [String b EmptyString]
           end
  end.

(** [s.includes(sub)] *)
Fixpoint str_includes (s sub : string) : bool :=
  startsWith s sub
  || match s with
     | EmptyString => false
     | String _ s' => str_includes s' sub
     end.

(** [R.pick(names, obj)] *)
Definition pick {A : Type} (names : list string) (obj : dict A) : dict A :=
  flat_map (fun n => match dict_get obj n with
                     | Some v => [(n, v)]
                     | None => []
                     end) names.

(** [packageManager: 'npm' | 'yarn'] *)
Inductive PackageManager : Type := npm | yarn.

Definition pm_name (packageManager : PackageManager) : string :=
  match packageManager with
  | npm => "npm"
  | yarn => "yarn"
  end.

(** [modules?: string[] | { [string]: number | string }]; an element of
    the array may be null, a version is taken as the string it prints as. *)
Inductive Modules : Type :=
| ModulesArray (l : list (option string))
| ModulesObject (o : dict string).

(** [type PackageManagerResults = { stdout: string, stderr: string }] *)
Record PackageManagerResults : Type := { stdout : string; stderr : string }.

(** The error of a rejected [execa] promise, as far as the client reads
    it; [None] is a property that is not there. *)
Record ExecaError : Type := {
  err_stdout : option string;
  err_stderr : option string;
  err_cmd : string;
  err_message : string
}.

Inductive effect : Type :=
| EnsureDir (dir : string)                                      (* fs.ensureDirSync(dir) *)
| Exec (file : string) (args : list string) (cwd : option string)
       (options : dict string)                                  (* execa(file, args, options) *)
| SetExtraData (key : string) (value : option string).          (* Analytics.setExtraData *)

Definition World : Type := list effect.

Inductive NpmError : Type :=
| GeneralError (msg : string)
| PlainError (msg : string)        (* new Error(msg) *)
| TypeError
| FsError.                         (* thrown by fs.ensureDirSync *)

(** A dependency of the parsed output of [npm list -j], as far as the
    client reads it: whether [dep.peerMissing] is truthy, and
    [dep.required.name], [dep.required.version] when [dep.required] is
    there. *)
Record Required : Type := { req_name : string; req_version : string }.
Record Dependency : Type := { peerMissing : bool; required : option Required }.

(** The parsed output: its [dependencies], none when the property is not
    there. *)
Record NpmList : Type := { dependencies : dict Dependency }.

(** What the platform and the imported modules give. *)
Class Platform : Type := {
  execa : World -> string -> list string -> option string -> dict string
          -> outcome ExecaError PackageManagerResults;
  ensureDirSync : World -> string -> bool;               (* false: it throws *)
  JSON_parse : string -> outcome string NpmList;         (* thrown: err.message *)
  semver_gte : string -> string -> option bool;          (* None: it throws a TypeError *)
  semver_lt : string -> string -> option bool;
  chalk_white : string -> string;
  chalk_yellow : string -> string;
  DEFAULT_PACKAGE_MANAGER : PackageManager;
  BASE_DOCS_DOMAIN : string
}.

(** The directories in which an install was started, in order: the [cwd]
    of the processes whose first argument is [install]. *)
Definition installs (w : World) : list (option string) :=
  flat_map (fun e => match e with
                     | Exec _ (arg :: _) cwd _ =>
                         if String.eqb arg "install" then [cwd] else []
                     | _ => []
                     end) w.

(** [m] starts installs in the directories [l], in this order, and in
    no other; when it throws, in the first ones of them only. *)
Definition installs_in {A : Type} (l : list (option string)) (m : M NpmError World A) : Prop :=
  forall w,
    match m w with
    | (w', Returned _) => installs w' = (installs w ++ l)%list
    | (w', Thrown _) =>
        exists done rest, installs w' = (installs w ++ done)%list /\ l = (done ++ rest)%list
    end.

(** The version [parsePeers] ends with for the name [n]: that of the last
    dependency that misses a peer of this name. *)
Fixpoint last_required (deps : dict Dependency) (n : string) : option string :=
  match deps with
  | [] => None
  | (_, dep) :: rest =>
      match last_required rest n with
      | Some v => Some v
      | None =>
          match required dep with
          | Some r =>
              if peerMissing dep && String.eqb (req_name r) n then Some (req_version r)
              else None
          | None => None
          end
      end
  end.

(** [c] occurs in [s]. *)
Fixpoint has_char (c : ascii) (s : string) : bool :=
  match s with
  | EmptyString => false
  | String b s' => Ascii.eqb b c || has_char c s'
  end.

Section Client.

Context {P : NodePath} {W : Platform}.

(** [const objectToArray = obj => map(join('@'), toPairs(obj))] *)
Definition objectToArray (obj : dict string) : list string :=
  map (fun kv => fst kv ++ "@" ++ snd kv) obj.

(** [const rejectNils = R.reject(isNil)] *)
Definition rejectNils (l : list (option string)) : list string := defined l.

Definition defaultPackageManagerArgs (packageManager : PackageManager) : list (option string) :=
  match packageManager with
  | npm => []
  | yarn => []
  end.

Definition warningPrefix (packageManager : string) : string :=
  if String.eqb packageManager "npm" then "npm WARN" else "warning".

Definition errorPrefix (packageManager : string) : string :=
  if String.eqb packageManager "npm" then "npm ERR!" else "error".

Definition peerDependenciesMissing (packageManager : string) : string :=
  if String.eqb packageManager "npm" then "requires a peer" else "unmet peer".

Definition stripNonNpmErrors (errors packageManager : string) : string :=
  let prefix := errorPrefix packageManager in
  String.concat nl (filter (fun error => startsWith error prefix) (split "010"%char errors)).

Definition stripNonPeerDependenciesWarnings (errors packageManager : string) : string :=
  let prefix := warningPrefix packageManager in
  let peer := peerDependenciesMissing packageManager in
  String.concat nl (filter (fun error => startsWith error prefix && str_includes error peer)
                           (split "010"%char errors)).

Definition allowdOptions : list string :=
  ["shell"; "env"; "extendEnv"; "uid"; "gid"; "preferLocal"; "localDir"; "timeout"].

(** Pick only allowed to be overridden options *)
Definition getAllowdPackageManagerProcessOptions (userOptions : dict string) : dict string :=
  pick allowdOptions userOptions.

(** [execa(file, args, options)], awaited: the process is recorded; a
    rejection is handed to the caller's [catch]. *)
Definition run_execa (file : string) (args : list string) (cwd : option string)
           (options : dict string)
  : M NpmError World (outcome ExecaError PackageManagerResults) :=
  fun w => ((w ++ [Exec file args cwd options])%list, Returned (execa w file args cwd options)).

(** [fs.ensureDirSync(dir)] *)
Definition run_ensureDirSync (dir : string) : M NpmError World unit :=
  fun w => ((w ++ [EnsureDir dir])%list,
            if ensureDirSync w dir then Returned tt else Thrown FsError).

(** Install packages in specific directory *)
Definition _installInOneDirectory (modules : Modules) (packageManager : PackageManager)
           (packageManagerArgs : list (option string))
           (packageManagerProcessOptions : dict string)
           (dir : option string) (verbose : bool)
  : M NpmError World PackageManagerResults :=
  (* Handle process options *)
  let allowedPackageManagerProcessOptions :=
    getAllowdPackageManagerProcessOptions packageManagerProcessOptions in
  (* dir || concretePackageManagerProcessOptions.cwd, the latter being the
     function process.cwd: cwd is not an option that can be overridden *)
  let cwd := if truthyO dir then dir else None in
  (* taking care of object case *)
  let processedModules :=
    match modules with
    | ModulesObject o => map Some (objectToArray o)
    | ModulesArray l => l
    end in
  (* Handle process args *)
  let concretePackageManagerDefaultArgs :=
    ((Some "install" :: processedModules) ++ defaultPackageManagerArgs packageManager)%list in
  let concretePackageManagerArgs :=
    rejectNils (concretePackageManagerDefaultArgs ++ packageManagerArgs)%list in
  match cwd with
  | None => throw TypeError          (* path.join of a function *)
  | Some cwd =>
      (run_ensureDirSync (join cwd "node_modules") ;;
       childProcess <- run_execa (pm_name packageManager) concretePackageManagerArgs
                                 (Some cwd) allowedPackageManagerProcessOptions ;;
       (* Remove the install from args since it's always there *)
       let printArgs :=
         filter (fun arg => negb (String.eqb arg "install")) concretePackageManagerArgs in
       let argsString :=
         if Nat.ltb 0 (List.length printArgs)
         then "with args: " ++ String.concat "," printArgs
         else EmptyString in
       match childProcess with
       | Returned r =>
           let successMessage :=
             nl ++ "successfully ran " ++ pm_name packageManager ++ " install at " ++ cwd
                ++ " " ++ argsString in
           let peerWarnings :=
             stripNonPeerDependenciesWarnings (stderr r) (pm_name packageManager) in
           ret {| stdout := if verbose then stdout r ++ successMessage
                            else chalk_white peerWarnings ++ successMessage;
                  stderr := if verbose then stderr r else EmptyString |}
       | Thrown err =>
           let failed :=
             "failed running " ++ pm_name packageManager ++ " install at " ++ cwd ++ " "
               ++ argsString ++ "  " ++ nl in
           let troubleshooting :=
             chalk_yellow ("see troubleshooting at https://" ++ BASE_DOCS_DOMAIN
                             ++ "/docs/install-components.html") in
           if verbose then
             throw (GeneralError
                      (failed ++ match err_stderr err with
                                 | Some s => s
                                 | None => "undefined"
                                 end ++ nl ++ nl ++ troubleshooting))
           else
             match err_stderr err with
             | Some s =>
                 throw (GeneralError
                          (failed ++ stripNonNpmErrors s (pm_name packageManager)
                                  ++ nl ++ nl ++ troubleshooting))
             | None => throw TypeError        (* undefined.split *)
             end
       end)%js
  end.

(** [getNpmVersion()] *)
Definition getNpmVersion : M NpmError World (option string) :=
  (r <- run_execa "npm" ["--version"] None [] ;;
   match r with
   | Returned r => if truthy (stdout r) && negb (truthy (stderr r)) then ret (Some (stdout r))
                   else ret None
   | Thrown _ => ret None
   end)%js.

(** [getYarnVersion()] *)
Definition getYarnVersion : M NpmError World (option string) :=
  (r <- run_execa "yarn" ["-v"] None [] ;;
   match r with
   | Returned r => ret (Some (stdout r))
   | Thrown _ => ret None
   end)%js.

(** [getPackageLatestVersion(packageName)] *)
Definition getPackageLatestVersion (packageName : string) : M NpmError World (option string) :=
  (r <- run_execa "npm" ["show"; packageName; "version"] None [] ;;
   match r with
   | Returned r => ret (Some (stdout r))
   | Thrown _ => ret None
   end)%js.

(** [isSupportedInstallationOfSubDirFromRoot(packageManager)] *)
Definition isSupportedInstallationOfSubDirFromRoot (packageManager : string)
  : M NpmError World bool :=
  if String.eqb packageManager "npm" then
    (version <- getNpmVersion ;;
     match version with
     | Some v =>
         if truthy v then
           match semver_gte v "5.0.0" with
           | Some true => ret true
           | Some false => ret false
           | None => throw TypeError
           end
         else ret false
     | None => ret false
     end)%js
  else ret false.

(** [parseNpmListJsonGracefully(str, packageManager)] *)
Definition parseNpmListJsonGracefully (str : string) (packageManager : string)
  : M NpmError World NpmList :=
  match JSON_parse str with
  | Returned json => ret json
  | Thrown message =>
      let failed :=
        throw (PlainError ("failed parsing the output of npm list due to an error: "
                             ++ message)) in
      if String.eqb packageManager "npm" then
        (version <- getNpmVersion ;;
         (fun w => ((w ++ [SetExtraData "npmVersion" version])%list, Returned tt)) ;;
         match version with
         | Some v =>
             if truthy v then
               match semver_gte v "5.0.0" with
               | Some true =>
                   match semver_lt v "5.1.0" with
                   | Some true =>
                       (* see here for more info about this issue with npm 5.0.0 *)
                       throw (PlainError
                                ("error: your npm version " ++ dquote ++ v ++ dquote
                                   ++ " has issues returning json, please upgrade to 5.1.0 or above (npm install -g npm@5.1.0)"))
                   | Some false => failed
                   | None => throw TypeError
                   end
               | Some false => failed
               | None => throw TypeError
               end
             else failed
         | None => failed
         end)%js
      else failed
  end.

(** [parsePeers(deps)]: the loop over the dependencies, [result] growing. *)
Fixpoint parsePeers_from (deps : dict Dependency) (result : dict string)
  : outcome NpmError (dict string) :=
  match deps with
  | [] => Returned result
  | (_, dep) :: rest =>
      if peerMissing dep then
        match required dep with
        | Some r => parsePeers_from rest (dict_set result (req_name r) (req_version r))
        | None => Thrown TypeError
        end
      else parsePeers_from rest result
  end.

Definition parsePeers (deps : dict Dependency) : outcome NpmError (dict string) :=
  parsePeers_from deps [].

(** [getPeerDepsFromNpmList(npmList, packageManager)] *)
Definition getPeerDepsFromNpmList (npmList : string) (packageManager : string)
  : M NpmError World (list string) :=
  (npmListObject <- parseNpmListJsonGracefully npmList packageManager ;;
   peers <- lift (parsePeers (dependencies npmListObject)) ;;
   ret (objectToArray peers))%js.

(** Get peer dependencies for directory *)
Definition _getPeerDeps (dir : option string) : M NpmError World (list string) :=
  let packageManager := pm_name DEFAULT_PACKAGE_MANAGER in
  (r <- run_execa packageManager ["list"; "-j"] dir [] ;;
   match r with
   | Returned npmList => getPeerDepsFromNpmList (stdout npmList) packageManager
   | Thrown err =>
       match err_stdout err with
       | Some out =>
           if truthy out && startsWith out "{" then
             (* it's probably a valid json with errors, that's fine, parse it. *)
             getPeerDepsFromNpmList out packageManager
           else
             throw (PlainError ("failed running " ++ err_cmd err
                                  ++ " to find the peer dependencies due to an error: "
                                  ++ err_message err))
       | None =>
           throw (PlainError ("failed running " ++ err_cmd err
                                ++ " to find the peer dependencies due to an error: "
                                ++ err_message err))
       end
   end)%js.

(** What [_installInOneDirectoryWithPeerOption] resolves to: one result,
    or the array of the two. *)
Inductive InstallResults : Type :=
| OneResult (r : PackageManagerResults)
| ManyResults (l : list PackageManagerResults).

(** A wrapper function to call the install then get the peers then install
    the peers *)
Definition _installInOneDirectoryWithPeerOption (modules : Modules)
           (packageManager : PackageManager) (packageManagerArgs : list (option string))
           (packageManagerProcessOptions : dict string) (dir : option string)
           (installPeerDependencies verbose : bool)
  : M NpmError World InstallResults :=
  (rootDirResults <- _installInOneDirectory modules packageManager packageManagerArgs
                                            packageManagerProcessOptions dir verbose ;;
   if installPeerDependencies then
     peers <- _getPeerDeps dir ;;
     peerResults <- _installInOneDirectory (ModulesArray (map Some peers)) packageManager
                                           packageManagerArgs packageManagerProcessOptions
                                           dir verbose ;;
     ret (ManyResults [rootDirResults; peerResults])
   else ret (OneResult rootDirResults))%js.

(** [R.flatten] of what the installs resolved to. *)
Definition flatten (l : list InstallResults) : list PackageManagerResults :=
  flat_map (fun r => match r with
                     | OneResult r => [r]
                     | ManyResults l => l
                     end) l.

(** [installAction({ modules, packageManager, ... })]: when modules is
    empty, it runs 'npm install' without any package, which installs
    according to package.json file *)
Definition installAction (modules : Modules) (packageManager : PackageManager)
           (packageManagerArgs : list (option string))
           (packageManagerProcessOptions : dict string)
           (useWorkspaces : bool) (dirs : list string) (rootDir : option string)
           (installRootPackageJson installPeerDependencies verbose : bool)
  : M NpmError World (list PackageManagerResults) :=
  let install dir :=
    _installInOneDirectoryWithPeerOption modules packageManager packageManagerArgs
                                         packageManagerProcessOptions dir
                                         installPeerDependencies verbose in
  ((if useWorkspaces && match packageManager with yarn => true | npm => false end
    then (install rootDir ;; ret tt)
    else ret tt) ;;
   results <-
     (if installRootPackageJson then
        (* installation of the root package.json has to be completed before
           installing the sub-directories package.json. *)
        rootDirResults <- install rootDir ;;
        match rootDirResults with
        | ManyResults _ => ret []           (* results.concat(...): its value is dropped *)
        | OneResult r => ret [r]            (* results.push(rootDirResults) *)
        end
      else ret []) ;;
   (* run npm install for each one of the directories serially, not in
      parallel. *)
   promisesResults <- mapM (fun dir => install (Some dir)) dirs ;;
   ret (results ++ flatten promisesResults)%list)%js.

(** The directories [installAction] installs in, in order: the root for
    yarn workspaces, the root for its own package.json, then the
    directories given. *)
Definition install_targets (packageManager : PackageManager) (useWorkspaces : bool)
           (dirs : list string) (rootDir : option string) (installRootPackageJson : bool)
  : list (option string) :=
  ((if useWorkspaces && match packageManager with yarn => true | npm => false end
    then [rootDir] else [])
   ++ (if installRootPackageJson then [rootDir] else [])
   ++ map Some dirs)%list.

End Client.

End Npm.

(** ** A platform for concrete runs of the package-manager client *)

Module NpmSample.

Import Add.
Import Npm.

(** What the sample processes print: [npm --version] a version, [npm list
    -j] a list, an install a warning about a missing peer among other
    lines. *)
Definition answers (file : string) (args : list string) : PackageManagerResults :=
  match args with
  | arg :: _ =>
      if String.eqb arg "--version" then {| stdout := "6.14.8"; stderr := EmptyString |}
      else if String.eqb arg "list" then {| stdout := "{}"; stderr := EmptyString |}
      else {| stdout := "added 1 package";
              stderr := "npm WARN a@1.0.0 requires a peer of react@16" ++ nl
                          ++ "npm notice created a lockfile" |}
  | [] => {| stdout := EmptyString; stderr := EmptyString |}
  end.

(** The parsed list: two dependencies miss the peer "react", one misses
    none. *)
Definition listed : NpmList :=
  {| dependencies :=
       [("a", {| peerMissing := true;
                 required := Some {| req_name := "react"; req_version := "15" |} |});
        ("b", {| peerMissing := false; required := None |});
        ("c", {| peerMissing := true;
                 required := Some {| req_name := "react"; req_version := "16" |} |})] |}.

#[export] Instance platform : Platform :=
  {| execa := fun _ file args _ _ => Returned (answers file args);
     ensureDirSync := fun _ _ => true;
     JSON_parse := fun _ => Returned listed;
     semver_gte := fun _ _ => Some true;
     semver_lt := fun _ _ => Some false;
     chalk_white := fun s => s;
     chalk_yellow := fun s => s;
     DEFAULT_PACKAGE_MANAGER := npm;
     BASE_DOCS_DOMAIN := "docs.example" |}.

(** A platform on which [npm list -j] prints no JSON, [npm --version]
    being 5.0.3. *)
Definition broken : Platform :=
  {| execa := fun _ _ _ _ _ => Returned {| stdout := "5.0.3"; stderr := EmptyString |};
     ensureDirSync := fun _ _ => true;
     JSON_parse := fun _ => Thrown "Unexpected token o in JSON at position 0";
     semver_gte := fun _ _ => Some true;
     semver_lt := fun _ _ => Some true;
     chalk_white := fun s => s;
     chalk_yellow := fun s => s;
     DEFAULT_PACKAGE_MANAGER := npm;
     BASE_DOCS_DOMAIN := "docs.example" |}.

(** [installAction] of the module "left-pad" in the directories "/work/a"
    and "/work/b", the root being "/work". *)
Definition run (installRootPackageJson installPeerDependencies : bool)
  : World * outcome NpmError (list PackageManagerResults) :=
  installAction (P := Posix.path) (ModulesArray [Some "left-pad"]) npm [] [("cwd", "/tmp")]
                false ["/work/a"; "/work/b"] (Some "/work")
                installRootPackageJson installPeerDependencies false [].

End NpmSample.


(** * Properties *)


(** ** Strings and arrays *)

(** No string starts with a strictly longer one. *)
Lemma startsWith_longer (s : string) (c : ascii) (t : string) :
  startsWith s (s ++ String c t) = false.
Proof.
  induction s as [|b s IH]; simpl; [reflexivity|].
  now rewrite Ascii.eqb_refl, IH.
Qed.

Lemma truthy_true (s : string) : truthy s = true <-> s <> EmptyString.
Proof.
  unfold truthy. rewrite negb_true_iff. apply String.eqb_neq.
Qed.

Lemma findIndex_None {A : Type} (f : A -> bool) (l : list A) :
  findIndex f l = None <-> Forall (fun x => f x = false) l.
Proof.
  induction l as [|x l IH]; simpl.
  - split; auto.
  - destruct (f x) eqn:Hx.
    + split; [discriminate|]. intros H. inversion H; congruence.
    + destruct (findIndex f l); simpl.
      * split; [discriminate|]. intros H. inversion H; subst.
        destruct IH as [_ IH]. specialize (IH H3). discriminate.
      * split; auto. intros _. constructor; [assumption|]. now apply IH.
Qed.

(** What [findIndex] finds: the first element that passes the test, and
    what [splice] leaves when it is taken out. *)
Lemma findIndex_Some {A : Type} (f : A -> bool) (l : list A) (i : nat) :
  findIndex f l = Some i ->
  exists l1 x l2,
    l = (l1 ++ x :: l2)%list /\ List.length l1 = i /\ f x = true
    /\ Forall (fun y => f y = false) l1 /\ splice1 i l = (l1 ++ l2)%list.
Proof.
  revert i. induction l as [|x l IH]; simpl; intros i H; [discriminate|].
  destruct (f x) eqn:Hx.
  - inversion H; subst. exists [], x, l. repeat split; auto.
  - destruct (findIndex f l) as [j|] eqn:Hj; simpl in H; [|discriminate].
    inversion H; subst. destruct (IH j eq_refl) as (l1 & y & l2 & -> & Hlen & Hy & Hall & Hsp).
    exists (x :: l1), y, l2. repeat split; simpl; auto.
    change (splice1 (S j) (x :: l1 ++ y :: l2)) with (x :: splice1 j (l1 ++ y :: l2)).
    now rewrite Hsp.
Qed.

(** The first passing element is where the list splits, when nothing before
    the split passes. *)
Lemma findIndex_split {A : Type} (f : A -> bool) (l1 : list A) (x : A) (l2 : list A) :
  Forall (fun y => f y = false) l1 -> f x = true ->
  findIndex f (l1 ++ x :: l2) = Some (List.length l1)
  /\ splice1 (List.length l1) (l1 ++ x :: l2) = (l1 ++ l2)%list.
Proof.
  intros Hall Hx. induction l1 as [|y l1 IH]; simpl.
  - rewrite Hx. split; reflexivity.
  - inversion Hall; subst. rewrite H1. destruct (IH H2) as [-> Hsp].
    split; [reflexivity|].
    change (splice1 (S (List.length l1)) (y :: l1 ++ x :: l2))
      with (y :: splice1 (List.length l1) (l1 ++ x :: l2)).
    now rewrite Hsp.
Qed.

Lemma find_None_Forall {A : Type} (f : A -> bool) (l : list A) :
  find f l = None <-> Forall (fun x => f x = false) l.
Proof.
  induction l as [|x l IH]; simpl.
  - split; auto.
  - destruct (f x) eqn:Hx.
    + split; [discriminate|]. intros H. inversion H; congruence.
    + rewrite IH. split; intros H; [constructor; assumption|now inversion H].
Qed.

(** ** Pairwise relations on a list *)

Lemma FOP_app_end {A : Type} (R : A -> A -> Prop) (l : list A) (y : A) :
  ForallOrdPairs R l -> Forall (fun x => R x y) l -> ForallOrdPairs R (l ++ [y]).
Proof.
  induction 1 as [|x l Hx Hl IH]; simpl; intros Hy.
  - constructor; constructor.
  - inversion Hy; subst. constructor.
    + apply Forall_app. split; [assumption|]. constructor; [assumption|constructor].
    + now apply IH.
Qed.

Lemma FOP_remove {A : Type} (R : A -> A -> Prop) (l1 : list A) (x : A) (l2 : list A) :
  ForallOrdPairs R (l1 ++ x :: l2) -> ForallOrdPairs R (l1 ++ l2).
Proof.
  induction l1 as [|y l1 IH]; simpl; intros H.
  - now inversion H.
  - inversion H; subst. constructor.
    + apply Forall_app in H2. destruct H2 as [Ha Hb]. apply Forall_app.
      split; [assumption|]. now inversion Hb.
    + now apply IH.
Qed.

Lemma FOP_split {A : Type} (R : A -> A -> Prop) (l1 : list A) (x : A) (l2 : list A) :
  (forall a b, R a b -> R b a) ->
  ForallOrdPairs R (l1 ++ x :: l2) -> Forall (R x) (l1 ++ l2).
Proof.
  intros Hsym. induction l1 as [|y l1 IH]; simpl; intros H.
  - now inversion H.
  - inversion H; subst. constructor.
    + apply Hsym. apply Forall_app in H2. destruct H2 as [_ Hb]. now inversion Hb.
    + now apply IH.
Qed.

Lemma FOP_nth {A : Type} (R : A -> A -> Prop) (l : list A) :
  ForallOrdPairs R l ->
  forall i j a b, i < j -> nth_error l i = Some a -> nth_error l j = Some b -> R a b.
Proof.
  induction 1 as [|x l Hx Hl IH]; intros i j a b Hij Ha Hb.
  - destruct i; discriminate.
  - destruct j as [|j]; [lia|]. simpl in Hb. destruct i as [|i]; simpl in Ha.
    + inversion Ha; subst. rewrite Forall_forall in Hx. apply Hx.
      eapply nth_error_In; eassumption.
    + apply (IH i j); auto. lia.
Qed.

(** ** Insertion into a change-set *)

Section EngineFacts.

Context {P : NodePath}.

Lemma collides_sym (p q : string) : collides p q = collides q p.
Proof. unfold collides. apply orb_comm. Qed.

Lemma collides_same (p : string) : collides p p = false.
Proof. unfold collides. now rewrite startsWith_longer. Qed.

Lemma compatible_sym (h : Heap) (a b : ref) : compatible h a b -> compatible h b a.
Proof.
  intros [Hne Hc]. split; [congruence|]. now rewrite collides_sym.
Qed.

(** [_throwForDirectoryCollision] passes exactly when no pending file
    collides, and never changes the change-set. *)
Lemma throwForDirectoryCollision_pass (h : Heap) (file : ref) (d : DataToPersist) :
  Forall (fun f => collides (path (vinyl h file)) (path (vinyl h f)) = false) (files d) ->
  _throwForDirectoryCollision h file d = (d, Returned tt).
Proof.
  intros H. unfold _throwForDirectoryCollision.
  apply find_None_Forall in H. now rewrite H.
Qed.

Lemma throwForDirectoryCollision_throw (h : Heap) (file e : ref) (d : DataToPersist) :
  In e (files d) ->
  collides (path (vinyl h file)) (path (vinyl h e)) = true ->
  exists other,
    In other (files d)
    /\ collides (path (vinyl h file)) (path (vinyl h other)) = true
    /\ _throwForDirectoryCollision h file d
       = (d, Thrown (DirectoryCollision (path (vinyl h file)) (path (vinyl h other)))).
Proof.
  intros Hin Hc. unfold _throwForDirectoryCollision.
  destruct (find _ (files d)) as [o|] eqn:Hf.
  - apply find_some in Hf. destruct Hf as [Ho Hco]. exists o. auto.
  - apply find_None_Forall in Hf. rewrite Forall_forall in Hf.
    specialize (Hf e Hin). simpl in Hf. congruence.
Qed.

(** Every insertion keeps the pending writes pairwise disjoint, whether it
    returns or throws. *)
Lemma addFile_disjoint (h : Heap) (file : option ref) (d : DataToPersist) :
  disjoint_writes h d -> disjoint_writes h (fst (addFile h file d)).
Proof.
  intros Hd. unfold addFile. destruct file as [file|]; [|exact Hd].
  destruct (truthy (path (vinyl h file))); simpl; [|exact Hd].
  destruct (findIndex _ (files d)) as [i|] eqn:Hi.
  - destruct (override (vinyl h file)); [|exact Hd].
    apply findIndex_Some in Hi.
    destruct Hi as (l1 & x & l2 & Hl & _ & Hx & _ & Hsp).
    apply String.eqb_eq in Hx.
    unfold bind, modify. rewrite Hsp.
    unfold disjoint_writes in Hd. rewrite Hl in Hd.
    unfold _throwForDirectoryCollision. simpl.
    destruct (find _ (l1 ++ l2)%list) eqn:Hf; simpl.
    + unfold disjoint_writes. simpl. eapply FOP_remove; eassumption.
    + unfold disjoint_writes. simpl. apply FOP_app_end.
      * eapply FOP_remove; eassumption.
      * apply find_None_Forall in Hf.
        pose proof (FOP_split (compatible h) l1 x l2 (compatible_sym h) Hd) as Hx'.
        rewrite Forall_forall in *. intros y Hy.
        apply compatible_sym. split.
        -- destruct (Hx' y Hy) as [Hne _]. congruence.
        -- apply Hf. exact Hy.
  - unfold bind, modify, _throwForDirectoryCollision.
    destruct (find _ (files d)) eqn:Hf; simpl; [exact Hd|].
    unfold disjoint_writes. simpl. apply FOP_app_end; [exact Hd|].
    apply find_None_Forall in Hf. apply findIndex_None in Hi.
    rewrite Forall_forall in *. intros y Hy. apply compatible_sym. split.
    + specialize (Hi y Hy). simpl in Hi. apply String.eqb_neq in Hi. congruence.
    + apply Hf. exact Hy.
Qed.

Lemma forEach_invariant {E S A : Type} (I : S -> Prop) (f : A -> M E S unit) (l : list A) :
  (forall x s, I s -> I (fst (f x s))) ->
  forall s, I s -> I (fst (forEach f l s)).
Proof.
  intros Hf. induction l as [|x l IH]; intros s Hs; simpl; [exact Hs|].
  unfold bind. specialize (Hf x s Hs).
  destruct (f x s) as [s' [[]|e]]; simpl in *; auto.
Qed.

Lemma bind_invariant {E S A B : Type} (I : S -> Prop) (m : M E S A) (k : A -> M E S B) (s : S) :
  I (fst (m s)) -> (forall a s', I s' -> I (fst (k a s'))) -> I (fst (bind m k s)).
Proof.
  intros Hm Hk. unfold bind. destruct (m s) as [s' [a|e]]; simpl in *; auto.
Qed.

Lemma removePath_files (p : option ref) (d : DataToPersist) :
  files (fst (removePath p d)) = files d.
Proof.
  unfold removePath. destruct p as [r|]; [|reflexivity].
  now destruct (existsb (Nat.eqb r) (remove d)).
Qed.

Lemma addSymlink_files (h : Heap) (s : ref) (d : DataToPersist) :
  files (fst (addSymlink h s d)) = files d.
Proof.
  unfold addSymlink.
  destruct (negb (truthy (src (link h s)))); [reflexivity|].
  now destruct (negb (truthy (dest (link h s)))).
Qed.

Lemma merge_disjoint (h : Heap) (other : option DataToPersist) (d : DataToPersist) :
  disjoint_writes h d -> disjoint_writes h (fst (merge h other d)).
Proof.
  intros Hd. destruct other as [o|]; [|exact Hd].
  unfold merge, addManyFiles, removeManyPaths, addManySymlinks.
  apply (bind_invariant (disjoint_writes h)).
  - apply (forEach_invariant (disjoint_writes h)); [|exact Hd].
    intros x s. apply addFile_disjoint.
  - intros _ s Hs. apply (bind_invariant (disjoint_writes h)).
    + apply (forEach_invariant (disjoint_writes h)); [|exact Hs]. intros x s0 H0.
      unfold disjoint_writes in *. now rewrite removePath_files.
    + intros _ s0 H0. apply (forEach_invariant (disjoint_writes h)); [|exact H0].
      intros x s1 H1. unfold disjoint_writes in *. now rewrite addSymlink_files.
Qed.

(** The invariant holds of every change-set a caller can build. *)
Lemma built_disjoint (h : Heap) (d : DataToPersist) :
  built h d -> disjoint_writes h d.
Proof.
  induction 1.
  - constructor.
  - now apply addFile_disjoint.
  - unfold disjoint_writes in *. now rewrite removePath_files.
  - unfold disjoint_writes in *. now rewrite addSymlink_files.
  - now apply merge_disjoint.
Qed.

(** C1. In a change-set built by insertions and merges, inserting a file
    whose path is a directory of a pending file's path, or has a pending
    file's path as a directory, throws the collision error (naming the file
    and a pending file it collides with) and inserts nothing; and no two
    pending files of such a change-set stand in that relation. *)
Theorem C1_directory_collision (h : Heap) (d : DataToPersist) :
  built h d ->
  (forall file e,
      path (vinyl h file) <> EmptyString ->
      In e (files d) ->
      collides (path (vinyl h file)) (path (vinyl h e)) = true ->
      exists other,
        In other (files d)
        /\ collides (path (vinyl h file)) (path (vinyl h other)) = true
        /\ addFile h (Some file) d
           = (d, Thrown (DirectoryCollision (path (vinyl h file)) (path (vinyl h other)))))
  /\ (forall i j a b,
         i <> j ->
         nth_error (files d) i = Some a -> nth_error (files d) j = Some b ->
         collides (path (vinyl h a)) (path (vinyl h b)) = false).
Proof.
  intros Hb. apply built_disjoint in Hb. split.
  - intros file e Hp He Hc.
    assert (Hnone : findIndex (fun existingFile =>
                       String.eqb (path (vinyl h existingFile)) (path (vinyl h file)))
                      (files d) = None).
    { destruct (findIndex _ (files d)) as [i|] eqn:Hi; [|reflexivity]. exfalso.
      apply findIndex_Some in Hi. destruct Hi as (l1 & x & l2 & Hl & _ & Hx & _).
      apply String.eqb_eq in Hx.
      assert (Hxin : In x (files d)) by (rewrite Hl; apply in_elt).
      destruct (ForallOrdPairs_In Hb x e Hxin He) as [Heq|[[_ Hxe]|[_ Hex]]].
      - subst e. rewrite Hx, collides_same in Hc. discriminate.
      - rewrite Hx in Hxe. congruence.
      - rewrite collides_sym, Hx in Hex. congruence. }
    destruct (throwForDirectoryCollision_throw h file e d He Hc) as (o & Ho & Hco & Ht).
    exists o. repeat split; auto.
    unfold addFile. apply truthy_true in Hp. rewrite Hp. simpl.
    rewrite Hnone. unfold bind. now rewrite Ht.
  - intros i j a b Hij Ha Hbj.
    destruct (Nat.lt_ge_cases i j) as [Hlt|Hge].
    + exact (proj2 (FOP_nth _ _ Hb i j a b Hlt Ha Hbj)).
    + assert (Hlt : j < i) by lia.
      rewrite collides_sym. exact (proj2 (FOP_nth _ _ Hb j i b a Hlt Hbj Ha)).
Qed.

(** C2. When a file is pending for a path, adding another file for that
    path without [override] changes nothing (the pending file and every
    object stay as they are); adding one with [override] takes the pending
    file out and puts the new one in, at the end. *)
Theorem C2_same_path_insertion (h : Heap) (d : DataToPersist) (file e : ref)
        (l1 l2 : list ref) :
  built h d ->
  files d = (l1 ++ e :: l2)%list ->
  path (vinyl h e) = path (vinyl h file) ->
  path (vinyl h file) <> EmptyString ->
  (override (vinyl h file) = false ->
   addFile h (Some file) d = (d, Returned tt))
  /\ (override (vinyl h file) = true ->
      addFile h (Some file) d = (set_files (l1 ++ l2 ++ [file]) d, Returned tt)
      /\ Forall (fun f => path (vinyl h f) <> path (vinyl h file)) (l1 ++ l2)).
Proof.
  intros Hb Hl He Hp. apply built_disjoint in Hb. unfold disjoint_writes in Hb.
  rewrite Hl in Hb.
  pose proof (FOP_split (compatible h) l1 e l2 (compatible_sym h) Hb) as Hrest.
  assert (Hl1 : Forall (fun y => String.eqb (path (vinyl h y)) (path (vinyl h file)) = false) l1).
  { apply Forall_app in Hrest. destruct Hrest as [H1 _].
    rewrite Forall_forall in *. intros y Hy. apply String.eqb_neq.
    destruct (H1 y Hy) as [Hne _]. congruence. }
  assert (Hex : String.eqb (path (vinyl h e)) (path (vinyl h file)) = true)
    by now apply String.eqb_eq.
  destruct (findIndex_split (fun y => String.eqb (path (vinyl h y)) (path (vinyl h file)))
              l1 e l2 Hl1 Hex) as [Hfi Hsp].
  apply truthy_true in Hp.
  split; intros Ho; unfold addFile; rewrite Hp; simpl; rewrite Hl, Hfi, Ho.
  - reflexivity.
  - split.
    + unfold bind, modify. rewrite Hsp.
      rewrite throwForDirectoryCollision_pass.
      * unfold set_files. simpl. now rewrite <- app_assoc.
      * simpl. rewrite Forall_forall in *. intros y Hy.
        destruct (Hrest y Hy) as [_ Hc]. now rewrite <- He.
    + rewrite Forall_forall in *. intros y Hy.
      destruct (Hrest y Hy) as [Hne _]. congruence.
Qed.

End EngineFacts.

(** ** Loops that may throw *)

Lemma forEach_app {E S A : Type} (f : A -> M E S unit) (l1 l2 : list A) (s : S) :
  forEach f (l1 ++ l2) s = bind (forEach f l1) (fun _ => forEach f l2) s.
Proof.
  revert s. induction l1 as [|x l1 IH]; intros s; simpl.
  - reflexivity.
  - unfold bind. destruct (f x s) as [s' [[]|e]]; [|reflexivity].
    rewrite IH. reflexivity.
Qed.

Lemma bind_ext {E S A B : Type} (m m' : M E S A) (k k' : A -> M E S B) (s : S) :
  m s = m' s -> (forall a s', k a s' = k' a s') -> bind m k s = bind m' k' s.
Proof.
  intros Hm Hk. unfold bind. rewrite Hm. destruct (m' s) as [s' [a|e]]; auto.
Qed.

Lemma forEach_map {E S A B : Type} (g : A -> B) (f : B -> M E S unit) (l : list A) (s : S) :
  forEach f (map g l) s = forEach (fun x => f (g x)) l s.
Proof.
  revert s. induction l as [|x l IH]; intros s; simpl; [reflexivity|].
  unfold bind. destruct (f (g x) s) as [s' [[]|e]]; [apply IH|reflexivity].
Qed.

(** ** Rebasing *)

Section RebaseFacts.

Context {P : NodePath} {V : VinylMethods}.

Lemma addBasePath_entries (d : DataToPersist) (b : string) (h : Heap) :
  addBasePath d b h = forEach (rebase_entry b) (entries d) h.
Proof.
  unfold addBasePath, entries.
  rewrite forEach_app. apply bind_ext.
  - now rewrite forEach_map.
  - intros _ h1. rewrite forEach_app. apply bind_ext.
    + now rewrite forEach_map.
    + intros _ h2. now rewrite forEach_map.
Qed.


(** One entry: either its assertions pass and it is rewritten, or one of
    them throws and nothing is written. *)
Lemma rebase_entry_cases (b : string) (x : entry) (h : Heap) :
  (relative_entry h x /\ rebase_entry b x h = (rewritten b h x, Returned tt))
  \/ (exists p, In p (asserted_paths h x) /\ isAbsolute p = true
                /\ rebase_entry b x h = (h, Thrown (ExpectsRelative p))).
Proof.
  unfold relative_entry.
  destruct x as [r|r|r]; simpl;
    unfold rebase_file, rebase_symlink, rebase_remove, bind, gets, modify, _assertRelative,
           throw, ret; simpl.
  - destruct (isAbsolute (base (vinyl h r))) eqn:Hb.
    + right. exists (base (vinyl h r)). auto.
    + left. split; [repeat constructor; assumption | reflexivity].
  - destruct (isAbsolute (src (link h r))) eqn:Hs.
    + right. exists (src (link h r)). auto.
    + destruct (isAbsolute (dest (link h r))) eqn:Hd.
      * right. exists (dest (link h r)). auto.
      * left. split; [repeat constructor; assumption | reflexivity].
  - destruct (isAbsolute (rm_path (rmpath h r))) eqn:Hb.
    + right. exists (rm_path (rmpath h r)). auto.
    + left. split; [repeat constructor; assumption | reflexivity].
Qed.

(** A rebase that throws stops at one entry: those before it were rewritten,
    in order, and the heap is left as they made it. *)
Lemma forEach_rebase_throw (b : string) (l : list entry) (h h' : Heap) (e : Error) :
  forEach (rebase_entry b) l h = (h', Thrown e) ->
  exists pre x post p,
    l = (pre ++ x :: post)%list
    /\ forEach (rebase_entry b) pre h = (h', Returned tt)
    /\ h' = fold_left (rewritten b) pre h
    /\ e = ExpectsRelative p
    /\ In p (asserted_paths h' x) /\ isAbsolute p = true.
Proof.
  revert h. induction l as [|x l IH]; intros h H; simpl in H.
  - discriminate.
  - unfold bind in H.
    destruct (rebase_entry_cases b x h) as [[_ Hx]|(p & Hp & Ha & Hx)]; rewrite Hx in H.
    + destruct (IH _ H) as (pre & y & post & q & -> & Hpre & Hh & He & Hq & Hqa).
      exists (x :: pre), y, post, q. simpl. unfold bind. rewrite Hx.
      repeat split; auto.
    + inversion H; subst. exists [], x, l, p. simpl. repeat split; auto.
Qed.

(** *** What a rewrite does to each object *)

Lemma entry_eq_dec (x y : entry) : {x = y} + {x <> y}.
Proof. decide equality; apply Nat.eq_dec. Qed.

Lemma rewritten_self (b : string) (h : Heap) (x : entry) : joined b h (rewritten b h x) x.
Proof.
  destruct x as [r|r|r]; simpl; unfold upd; now rewrite Nat.eqb_refl.
Qed.

Lemma rewritten_other (b : string) (h : Heap) (x y : entry) :
  x <> y -> unchanged h (rewritten b h x) y.
Proof.
  intros Hne. destruct x as [r|r|r], y as [q|q|q]; simpl; try reflexivity;
    unfold upd; destruct (Nat.eqb q r) eqn:Hq; try reflexivity;
    apply Nat.eqb_eq in Hq; subst; congruence.
Qed.

Lemma unchanged_paths (h h' : Heap) (x : entry) :
  unchanged h h' x -> asserted_paths h' x = asserted_paths h x.
Proof.
  destruct x as [r|r|r]; simpl; intros ->; reflexivity.
Qed.

Lemma unchanged_trans (h h1 h2 : Heap) (x : entry) :
  unchanged h h1 x -> unchanged h1 h2 x -> unchanged h h2 x.
Proof.
  destruct x as [r|r|r]; simpl; congruence.
Qed.

Lemma joined_then_unchanged (b : string) (h h1 h2 : Heap) (x : entry) :
  joined b h h1 x -> unchanged h1 h2 x -> joined b h h2 x.
Proof.
  destruct x as [r|r|r]; simpl; congruence.
Qed.

Lemma unchanged_then_joined (b : string) (h h1 h2 : Heap) (x : entry) :
  unchanged h h1 x -> joined b h1 h2 x -> joined b h h2 x.
Proof.
  destruct x as [r|r|r]; simpl; intros H1 H2; now rewrite <- H1.
Qed.

(** Rewriting a list of distinct objects rebases each of them once and
    touches nothing else. *)
Lemma fold_rewritten (b : string) (l : list entry) (h : Heap) :
  NoDup l ->
  (forall y, In y l -> joined b h (fold_left (rewritten b) l h) y)
  /\ (forall y, ~ In y l -> unchanged h (fold_left (rewritten b) l h) y).
Proof.
  revert h. induction l as [|x l IH]; intros h Hnd; simpl.
  - split; [intros y []|]. intros y _. destruct y; reflexivity.
  - inversion Hnd as [|? ? Hx Hl]; subst.
    destruct (IH (rewritten b h x) Hl) as [Hin Hout]. split.
    + intros y [->|Hy].
      * eapply joined_then_unchanged; [apply rewritten_self|]. now apply Hout.
      * apply unchanged_then_joined with (h1 := rewritten b h x); [|now apply Hin].
        apply rewritten_other. intros ->. contradiction.
    + intros y Hy. apply unchanged_trans with (h1 := rewritten b h x).
      * apply rewritten_other. intros ->. apply Hy. now left.
      * apply Hout. intros Hy'. apply Hy. now right.
Qed.

(** With distinct objects that all pass the assertions, the rebase returns. *)
Lemma forEach_rebase_ok (b : string) (l : list entry) (h : Heap) :
  NoDup l ->
  (forall y, In y l -> relative_entry h y) ->
  forEach (rebase_entry b) l h = (fold_left (rewritten b) l h, Returned tt).
Proof.
  revert h. induction l as [|x l IH]; intros h Hnd Hrel; simpl; [reflexivity|].
  inversion Hnd as [|? ? Hx Hl]; subst. unfold bind.
  destruct (rebase_entry_cases b x h) as [[_ Hx']|(p & Hp & Ha & _)].
  - rewrite Hx'. apply IH; [assumption|]. intros y Hy. unfold relative_entry.
    rewrite (unchanged_paths h).
    + apply Hrel. now right.
    + apply rewritten_other. intros ->. contradiction.
  - exfalso. specialize (Hrel x (or_introl eq_refl)). unfold relative_entry in Hrel.
    rewrite Forall_forall in Hrel. specialize (Hrel p Hp). congruence.
Qed.

(** A rebase that returns met no absolute path: an object is first visited
    as the caller left it. *)
Lemma forEach_rebase_returns_relative (b : string) (l : list entry) (h h' : Heap) :
  forEach (rebase_entry b) l h = (h', Returned tt) ->
  forall y, In y l -> relative_entry h y.
Proof.
  revert h. induction l as [|x l IH]; intros h H y Hy; [destruct Hy|].
  simpl in H. unfold bind in H.
  destruct (rebase_entry_cases b x h) as [[Hrel Hx]|(p & _ & _ & Hx)]; rewrite Hx in H;
    [|discriminate].
  destruct (entry_eq_dec x y) as [->|Hne]; [assumption|].
  destruct Hy as [->|Hy]; [congruence|].
  specialize (IH _ H y Hy). unfold relative_entry in *.
  rewrite (unchanged_paths h) in IH; [assumption|]. now apply rewritten_other.
Qed.

Lemma forEach_rebase_result (b : string) (l : list entry) (h : Heap) :
  (exists h', forEach (rebase_entry b) l h = (h', Returned tt))
  \/ (exists h' p, forEach (rebase_entry b) l h = (h', Thrown (ExpectsRelative p))).
Proof.
  destruct (forEach (rebase_entry b) l h) as [h' [[]|e]] eqn:H.
  - left. now exists h'.
  - right. destruct (forEach_rebase_throw b l h h' e H) as (pre & x & post & p & _ & _ & _ & -> & _).
    now exists h', p.
Qed.

Lemma NoDup_entries (d : DataToPersist) :
  NoDup (files d) -> NoDup (symlinks d) -> NoDup (remove d) -> NoDup (entries d).
Proof.
  intros Hf Hs Hr. unfold entries.
  assert (inj : forall (c : ref -> entry), (forall a b, c a = c b -> a = b) ->
                forall l, NoDup l -> NoDup (map c l)).
  { intros c Hc l Hl. induction Hl; simpl; constructor; auto.
    intros Hin. apply in_map_iff in Hin. destruct Hin as (y & Hy & Hin).
    apply Hc in Hy. now subst. }
  apply NoDup_app.
  - apply inj; [|assumption]. intros a c H. now inversion H.
  - apply NoDup_app.
    + apply inj; [|assumption]. intros a c H. now inversion H.
    + apply inj; [|assumption]. intros a c H. now inversion H.
    + intros x Hx Hx'. apply in_map_iff in Hx. apply in_map_iff in Hx'.
      destruct Hx as (a & <- & _). destruct Hx' as (c & Hc & _). discriminate.
  - intros x Hx Hx'. apply in_map_iff in Hx. destruct Hx as (a & <- & _).
    apply in_app_or in Hx'. destruct Hx' as [Hx'|Hx']; apply in_map_iff in Hx';
      destruct Hx' as (c & Hc & _); discriminate.
Qed.

End RebaseFacts.

(** ** POSIX paths *)

Lemma posix_normalize_absolute (p : string) :
  Posix.is_abs p = true -> Posix.is_abs (Posix.normalize p) = true.
Proof.
  intros Hp. unfold Posix.normalize.
  destruct (String.eqb p EmptyString) eqn:He.
  - apply String.eqb_eq in He. subst. discriminate.
  - rewrite Hp. cbv zeta. unfold Posix.is_abs. reflexivity.
Qed.

(** Joining onto an absolute path gives an absolute path. *)
Lemma posix_join_absolute (a p : string) :
  isAbsolute (NodePath := Posix.path) a = true ->
  isAbsolute (NodePath := Posix.path) (join (NodePath := Posix.path) a p) = true.
Proof.
  simpl. intros Ha. unfold Posix.join2.
  destruct (String.eqb a EmptyString) eqn:He.
  - apply String.eqb_eq in He. subst. discriminate.
  - destruct (String.eqb p EmptyString); apply posix_normalize_absolute; [assumption|].
    destruct a as [|c a]; [discriminate|]. exact Ha.
Qed.

Section RebaseClaims.

Context {P : NodePath} {V : VinylMethods}.

(** C8, as the code has it.  When every pending path is relative -- for a
    file to write, its [base] -- and no object is listed twice, the rebase
    returns, having rebased every file through [updatePaths] onto its base
    joined to the base path, and joined the source and destination of every
    symlink and the path of every remove-path onto the base path; nothing
    else changes.  A second rebase of a change-set that is not empty, on an
    absolute base, then throws at its first entry.  And a rebase throws
    whenever one of those paths is absolute. *)
Theorem C8_rebase (d : DataToPersist) (b : string) (h : Heap) :
  (NoDup (files d) -> NoDup (symlinks d) -> NoDup (remove d) ->
   (forall x, In x (entries d) -> relative_entry h x) ->
   exists h1,
     addBasePath d b h = (h1, Returned tt)
     /\ (forall x, In x (entries d) -> joined b h h1 x)
     /\ (forall x, ~ In x (entries d) -> unchanged h h1 x)
     /\ (isAbsolute b = true ->
         (forall a p, isAbsolute a = true -> isAbsolute (join a p) = true) ->
         (forall newBase f, base (updatePaths newBase f) = newBase) ->
         entries d <> [] ->
         exists p, addBasePath d b h1 = (h1, Thrown (ExpectsRelative p))))
  /\ ((exists x p, In x (entries d) /\ In p (asserted_paths h x) /\ isAbsolute p = true) ->
      exists h' p, addBasePath d b h = (h', Thrown (ExpectsRelative p))).
Proof.
  split.
  - intros Hf Hs Hr Hrel.
    pose proof (NoDup_entries d Hf Hs Hr) as Hnd.
    exists (fold_left (rewritten b) (entries d) h).
    destruct (fold_rewritten b (entries d) h Hnd) as [Hin Hout].
    rewrite addBasePath_entries.
    split; [now apply forEach_rebase_ok|]. split; [exact Hin|]. split; [exact Hout|].
    intros Hb Hjoin Hupd Hne. rewrite addBasePath_entries.
    destruct (entries d) as [|x l] eqn:He; [congruence|]. clear Hne.
    set (h1 := fold_left (rewritten b) (x :: l) h) in *.
    specialize (Hin x (or_introl eq_refl)).
    assert (Habs : exists p, In p (asserted_paths h1 x) /\ isAbsolute p = true).
    { destruct x as [r|r|r]; simpl in Hin |- *; rewrite Hin; simpl.
      - rewrite Hupd. eexists. split; [left; reflexivity|]. now apply Hjoin.
      - eexists. split; [left; reflexivity|]. now apply Hjoin.
      - eexists. split; [left; reflexivity|]. now apply Hjoin. }
    destruct (rebase_entry_cases b x h1) as [[Hrel1 _]|(p & Hp & Ha & Hx)].
    + exfalso. destruct Habs as (p & Hp & Ha). unfold relative_entry in Hrel1.
      rewrite Forall_forall in Hrel1. specialize (Hrel1 p Hp). congruence.
    + exists p. simpl. unfold bind. now rewrite Hx.
  - intros (x & p & Hx & Hp & Ha). rewrite addBasePath_entries.
    destruct (forEach_rebase_result b (entries d) h) as [[h' H]|H]; [|exact H].
    exfalso. pose proof (forEach_rebase_returns_relative b (entries d) h h' H x Hx) as Hrel.
    unfold relative_entry in Hrel. rewrite Forall_forall in Hrel.
    specialize (Hrel p Hp). congruence.
Qed.

(** C10. A rebase that throws is not undone.  The entries are visited in
    the order files, symlinks, remove-paths; the throw comes from the
    assertion on one entry, whose path is absolute at that moment; the
    entries before it have been rewritten, in order, and the heap is left as
    they made it: when they are distinct objects each of them is rebased and
    every other object is as it was. *)
Theorem C10_rebase_not_atomic (d : DataToPersist) (b : string) (h h' : Heap) (e : Error) :
  addBasePath d b h = (h', Thrown e) ->
  exists pre x post p,
    entries d = (pre ++ x :: post)%list
    /\ forEach (rebase_entry b) pre h = (h', Returned tt)
    /\ h' = fold_left (rewritten b) pre h
    /\ e = ExpectsRelative p
    /\ In p (asserted_paths h' x) /\ isAbsolute p = true
    /\ (NoDup pre ->
        (forall y, In y pre -> joined b h h' y)
        /\ (forall y, ~ In y pre -> unchanged h h' y)).
Proof.
  intros H. rewrite addBasePath_entries in H.
  destruct (forEach_rebase_throw b (entries d) h h' e H)
    as (pre & x & post & p & He & Hpre & Hh & Hp & Hin & Ha).
  exists pre, x, post, p. repeat split; auto.
  - intros y Hy. rewrite Hh. now apply fold_rewritten.
  - intros y Hy. rewrite Hh. now apply fold_rewritten.
Qed.

End RebaseClaims.

(** ** Committing *)

Lemma awaitAll_started (ts : list task) (tr : list event) (ok : bool) (w : task) :
  awaitAll ts tr ok -> In (Started w) tr -> In w ts.
Proof.
  assert (Hmap : forall l, In (Started w) (map Started l) -> In w l).
  { intros l Hin. apply in_map_iff in Hin. destruct Hin as (x & Hx & Hin). now inversion Hx; subst. }
  assert (Hno : forall l, ~ In (Started w) (map Fulfilled l)).
  { intros l Hin. apply in_map_iff in Hin. destruct Hin as (x & Hx & _). discriminate. }
  intros H Hin. inversion H; subst; apply in_app_or in Hin; destruct Hin as [Hin|Hin]; auto.
  - now apply Hno in Hin.
  - apply in_app_or in Hin. destruct Hin as [Hin|[Hin|[]]]; [now apply Hno in Hin|discriminate].
  - apply in_or_app. left. now apply Hmap.
  - apply in_or_app. right. destruct Hin as [Hin|[Hin|[]]]; [|discriminate].
    inversion Hin; subst. now left.
Qed.

Lemma awaitAll_all_fulfilled (ts : list task) (tr : list event) (t : task) :
  awaitAll ts tr true -> In t ts -> In (Fulfilled t) tr.
Proof.
  intros H Hin. inversion H; subst. apply in_or_app. right. apply in_map.
  eapply Permutation_in; [apply Permutation_sym; eassumption|assumption].
Qed.

(** A task of a later batch starts only once every task of the earlier
    batches is fulfilled. *)
Lemma awaitEach_order (pre post : list (list task)) (tr : list event) (res : outcome Error unit) :
  awaitEach (pre ++ post) tr res ->
  forall l1 w l2,
    tr = (l1 ++ Started w :: l2)%list ->
    ~ In w (concat pre) ->
    forall t, In t (concat pre) -> In (Fulfilled t) l1.
Proof.
  revert tr. induction pre as [|ts pre IH]; intros tr H l1 w l2 Htr Hw t Ht; [destruct Ht|].
  simpl in H, Hw, Ht.
  assert (Hts : forall tr1 ok, awaitAll ts tr1 ok -> ~ In (Started w) tr1).
  { intros tr1 ok Hall Hin. apply Hw. apply in_or_app. left.
    eapply awaitAll_started; eassumption. }
  assert (Hpre : ~ In w (concat pre)).
  { intros Hin. apply Hw. apply in_or_app. now right. }
  inversion H as [| ts' rest tr1 tr2 res' Hall Hrest Hbs Htr' Hres
                  | ts' rest tr1 Hall Hbs Htr' Hres]; subst.
  - apply app_eq_app in Htr'. destruct Htr' as (l & [[H1 H2]|[H1 H2]]).
    + destruct l as [|x l].
      * simpl in H2. rewrite app_nil_r in H1. subst.
        apply in_app_or in Ht. destruct Ht as [Ht|Ht].
        -- eapply awaitAll_all_fulfilled; eassumption.
        -- exfalso. exact (IH _ Hrest [] w l2 eq_refl Hpre t Ht).
      * simpl in H2. inversion H2; subst. exfalso. apply (Hts _ _ Hall).
        apply in_or_app. right. now left.
    + (* the event lies in the later batches *)
      subst. apply in_or_app. apply in_app_or in Ht. destruct Ht as [Ht|Ht].
      * left. eapply awaitAll_all_fulfilled; eassumption.
      * right. exact (IH _ Hrest l w l2 eq_refl Hpre t Ht).
  - exfalso. apply (Hts _ _ Hall). apply in_or_app. right. now left.
Qed.

Section CommitFacts.

Context {P : NodePath}.

Lemma delete_tasks_kind (h : Heap) (d : DataToPersist) (t : task) :
  In t (concat (_deletePathsFromFS h d)) ->
  (exists paths, t = removeFilesAndEmptyDirsRecursively paths) \/ (exists r, t = persistToFS r).
Proof.
  unfold _deletePathsFromFS. rewrite concat_app. intros Hin.
  apply in_app_or in Hin. destruct Hin as [Hin|Hin].
  - destruct (Nat.eqb _ 0); simpl in Hin; [destruct Hin|].
    destruct Hin as [<-|[]]. left. eauto.
  - simpl in Hin. rewrite app_nil_r in Hin. apply in_map_iff in Hin.
    destruct Hin as (r & <- & _). right. eauto.
Qed.

(** Every pending remove-path is removed by a task of the remove phase. *)
Lemma delete_tasks_cover (h : Heap) (d : DataToPersist) (r : ref) :
  In r (remove d) ->
  exists t, In t (concat (_deletePathsFromFS h d)) /\ removes h t r.
Proof.
  intros Hr. unfold _deletePathsFromFS. rewrite concat_app.
  destruct (removeItsDirIfEmpty (rmpath h r)) eqn:Hflag.
  - set (flagged := map (fun p => rm_path (rmpath h p))
                        (filter (fun p => removeItsDirIfEmpty (rmpath h p)) (remove d))).
    assert (Hin : In (rm_path (rmpath h r)) flagged).
    { unfold flagged. apply (in_map (fun p => rm_path (rmpath h p))).
      apply filter_In. auto. }
    exists (removeFilesAndEmptyDirsRecursively flagged). split; [|exact Hin].
    apply in_or_app. left. destruct flagged; [destruct Hin|]. simpl. now left.
  - exists (persistToFS r). split; [|reflexivity].
    apply in_or_app. right. simpl. rewrite app_nil_r. apply in_map.
    apply filter_In. split; [assumption|]. now rewrite Hflag.
Qed.

Lemma validate_result (h : Heap) (d : DataToPersist) :
  snd (_validate h d tt)
  = match find (fun p => negb (isAbsolute p)) (validated_paths h d) with
    | Some p => Thrown (ExpectsAbsolute p)
    | None => Returned tt
    end.
Proof.
  unfold _validate, validated_paths.
  assert (Hloop : forall (A : Type) (g : A -> string) (l : list A) (k : M Error unit unit)
                         (rest : list string),
             snd (k tt) = match find (fun p => negb (isAbsolute p)) rest with
                          | Some p => Thrown (ExpectsAbsolute p)
                          | None => Returned tt
                          end ->
             snd (bind (forEach (fun x => validateAbsolutePath (g x)) l) (fun _ => k) tt)
             = match find (fun p => negb (isAbsolute p)) (map g l ++ rest) with
               | Some p => Thrown (ExpectsAbsolute p)
               | None => Returned tt
               end).
  { intros A g l k rest Hk. induction l as [|x l IH]; simpl.
    - unfold bind, ret. exact Hk.
    - unfold bind, validateAbsolutePath in *.
      destruct (negb (isAbsolute (g x))); simpl; [reflexivity|].
      destruct (forEach _ l tt) as [[] o]. exact IH. }
  apply Hloop. apply Hloop.
  induction (symlinks d) as [|x l IH]; simpl; [reflexivity|].
  unfold bind, validateAbsolutePath in *.
  destruct (negb (isAbsolute (src (link h x)))); simpl; [reflexivity|].
  destruct (negb (isAbsolute (dest (link h x)))); simpl; [reflexivity|].
  destruct (forEach _ l tt) as [[] o]. exact IH.
Qed.

(** C3. In a commit, to the file system or to a capsule, a write starts
    only once every task of the remove phase is fulfilled, and a symlink is
    made only once every task of the remove phase and every write is
    fulfilled; so a pending remove-path is removed before any pending file
    is written, whatever their paths. *)
Theorem C3_phase_order (h : Heap) (d : DataToPersist) (tr : list event)
        (res : outcome Error unit) (l1 l2 : list event) (w : task) :
  tr = (l1 ++ Started w :: l2)%list ->
  (persistAllToFS h d tr res ->
   (In w (_persistFilesToFS d) ->
    forall t, In t (concat (_deletePathsFromFS h d)) -> In (Fulfilled t) l1)
   /\ (In w (_persistSymlinksToFS d) ->
       forall t, In t (concat (_deletePathsFromFS h d) ++ _persistFilesToFS d)%list ->
                 In (Fulfilled t) l1)
   /\ (In w (_persistFilesToFS d) ->
       forall r, In r (remove d) -> exists t, removes h t r /\ In (Fulfilled t) l1))
  /\ (persistAllToCapsule h d tr res ->
      forall removals writes links,
        capsule_batches h d = [removals; writes; links] ->
        (In w writes -> forall t, In t removals -> In (Fulfilled t) l1)
        /\ (In w links -> forall t, In t (removals ++ writes)%list -> In (Fulfilled t) l1)).
Proof.
  intros Htr. split.
  - unfold persistAllToFS. intros H.
    destruct (snd (_validate h d tt)) as [[]|e].
    2:{ destruct H as [Hnil _]. rewrite Hnil in Htr. now destruct l1. }
    unfold fs_batches in H.
    assert (Hwrite : In w (_persistFilesToFS d) ->
                     forall t, In t (concat (_deletePathsFromFS h d)) -> In (Fulfilled t) l1).
    { intros Hw t Ht.
      apply (awaitEach_order _ _ _ _ H l1 w l2 Htr); [|assumption].
      intros Hin. apply delete_tasks_kind in Hin. apply in_map_iff in Hw.
      destruct Hw as (f & <- & _). destruct Hin as [[? Hin]|[? Hin]]; discriminate. }
    split; [exact Hwrite|]. split.
    + intros Hw t Ht.
      change (_deletePathsFromFS h d ++ [_persistFilesToFS d; _persistSymlinksToFS d])%list
        with (_deletePathsFromFS h d ++ [_persistFilesToFS d] ++ [_persistSymlinksToFS d])%list
        in H.
      rewrite app_assoc in H.
      assert (Hc : concat (_deletePathsFromFS h d ++ [_persistFilesToFS d])
                   = (concat (_deletePathsFromFS h d) ++ _persistFilesToFS d)%list).
      { rewrite concat_app. simpl. now rewrite app_nil_r. }
      apply (awaitEach_order _ _ _ _ H l1 w l2 Htr); rewrite Hc; [|assumption].
      intros Hin. apply in_map_iff in Hw. destruct Hw as (s & <- & _).
      apply in_app_or in Hin. destruct Hin as [Hin|Hin].
      * apply delete_tasks_kind in Hin. destruct Hin as [[? Hin]|[? Hin]]; discriminate.
      * apply in_map_iff in Hin. destruct Hin as (f & Hf & _). discriminate.
    + intros Hw r Hr. destruct (delete_tasks_cover h d r Hr) as (t & Ht & Hrem).
      exists t. split; [assumption|]. now apply Hwrite.
  - unfold persistAllToCapsule. intros H removals writes links Hb.
    assert (Hrem : forall t, In t removals -> exists p, t = capsule_removePath p).
    { unfold capsule_batches in Hb. inversion Hb; subst. intros t Ht.
      apply in_map_iff in Ht. destruct Ht as (x & <- & _). eauto. }
    assert (Hwr : forall t, In t writes -> exists p c, t = capsule_outputFile p c).
    { unfold capsule_batches in Hb. inversion Hb; subst. intros t Ht.
      apply in_map_iff in Ht. destruct Ht as (x & <- & _). eauto. }
    assert (Hln : forall t, In t links -> exists s u, t = capsule_symlink s u).
    { unfold capsule_batches in Hb. inversion Hb; subst. intros t Ht.
      apply in_map_iff in Ht. destruct Ht as (x & <- & _). eauto. }
    rewrite Hb in H. split.
    + intros Hw t Ht.
      apply (awaitEach_order [removals] [writes; links] _ _ H l1 w l2 Htr);
        simpl; rewrite app_nil_r; [|assumption].
      intros Hin. destruct (Hwr _ Hw) as (p & c & ->).
      destruct (Hrem _ Hin) as (q & Hq). discriminate.
    + intros Hw t Ht.
      apply (awaitEach_order [removals; writes] [links] _ _ H l1 w l2 Htr);
        simpl; rewrite app_nil_r; [|assumption].
      intros Hin. destruct (Hln _ Hw) as (s & u & ->).
      apply in_app_or in Hin. destruct Hin as [Hin|Hin].
      * destruct (Hrem _ Hin) as (q & Hq). discriminate.
      * destruct (Hwr _ Hin) as (q & c & Hq). discriminate.
Qed.

(** C4, as the code has it.  [persistAllToFS] validates first: when a path
    of a pending file, remove-path or symlink (source or destination) is not
    absolute, it throws, naming the first such path, and no task has
    started.  [persistAllToCapsule] validates nothing: it never throws that
    error, whatever the paths. *)
Theorem C4_commit_validation (h : Heap) (d : DataToPersist) (tr : list event)
        (res : outcome Error unit) :
  (forall p,
      find (fun p => negb (isAbsolute p)) (validated_paths h d) = Some p ->
      persistAllToFS h d tr res ->
      tr = [] /\ res = Thrown (ExpectsAbsolute p))
  /\ (persistAllToCapsule h d tr res -> res = Returned tt \/ res = Thrown Rejection).
Proof.
  split.
  - intros p Hp. unfold persistAllToFS. rewrite validate_result, Hp. auto.
  - unfold persistAllToCapsule. generalize (capsule_batches h d). intros bs H.
    induction H; auto.
Qed.

End CommitFacts.

(** ** Concrete runs of the change-set engine *)

(** "bar/foo" is pending and "bar" is inserted, or "bar" is pending and
    "bar/foo" is inserted: either way the insertion throws the collision
    error. *)
Lemma C1_directory_collision_witness :
  (exists other,
      In other (files Sample.with_bar_foo)
      /\ collides (P := Posix.path) "bar" (path (vinyl Sample.heap other)) = true
      /\ addFile (P := Posix.path) Sample.heap (Some 1) Sample.with_bar_foo
         = (Sample.with_bar_foo,
            Thrown (DirectoryCollision "bar" (path (vinyl Sample.heap other)))))
  /\ (exists other,
         In other (files Sample.with_bar)
         /\ collides (P := Posix.path) "bar/foo" (path (vinyl Sample.heap other)) = true
         /\ addFile (P := Posix.path) Sample.heap (Some 0) Sample.with_bar
            = (Sample.with_bar,
               Thrown (DirectoryCollision "bar/foo" (path (vinyl Sample.heap other))))).
Proof.
  split.
  - apply (proj1 (C1_directory_collision (P := Posix.path) Sample.heap Sample.with_bar_foo
                    (built_addFile Sample.heap new_DataToPersist (Some 0)
                       (built_new Sample.heap))) 1 0).
    + discriminate.
    + simpl. left. reflexivity.
    + reflexivity.
  - apply (proj1 (C1_directory_collision (P := Posix.path) Sample.heap Sample.with_bar
                    (built_addFile Sample.heap new_DataToPersist (Some 1)
                       (built_new Sample.heap))) 0 1).
    + discriminate.
    + simpl. left. reflexivity.
    + reflexivity.
Defined.

(** "bar/foo" is pending; a second file for it is dropped, or replaces it. *)
Lemma C2_same_path_insertion_witness :
  addFile (P := Posix.path) Sample.heap (Some 2) Sample.with_bar_foo
  = (Sample.with_bar_foo, Returned tt)
  /\ addFile (P := Posix.path) Sample.heap (Some 3) Sample.with_bar_foo
     = (set_files [3] Sample.with_bar_foo, Returned tt).
Proof.
  assert (Hb : built (P := Posix.path) Sample.heap Sample.with_bar_foo)
    by exact (built_addFile Sample.heap new_DataToPersist (Some 0) (built_new Sample.heap)).
  split.
  - apply (proj1 (C2_same_path_insertion (P := Posix.path) Sample.heap Sample.with_bar_foo
                    2 0 [] [] Hb eq_refl eq_refl ltac:(discriminate))).
    reflexivity.
  - apply (proj2 (C2_same_path_insertion (P := Posix.path) Sample.heap Sample.with_bar_foo
                    3 0 [] [] Hb eq_refl eq_refl ltac:(discriminate))).
    reflexivity.
Defined.

Lemma sample_relative_entries (x : entry) :
  In x (entries Sample.relative) ->
  relative_entry (P := Posix.path) Sample.heap x.
Proof.
  intros [<-|[<-|[<-|[]]]]; repeat constructor.
Qed.

(** A relative change-set rebased on "/repo": the second rebase throws; and
    a change-set with an absolute remove-path: the rebase throws. *)
Lemma C8_rebase_witness :
  (exists h1,
      addBasePath (P := Posix.path) (V := Sample.methods) Sample.relative "/repo" Sample.heap
      = (h1, Returned tt)
      /\ exists p,
        addBasePath (P := Posix.path) (V := Sample.methods) Sample.relative "/repo" h1
        = (h1, Thrown (ExpectsRelative p)))
  /\ (exists h' p,
         addBasePath (P := Posix.path) (V := Sample.methods) Sample.mixed "/repo" Sample.heap
         = (h', Thrown (ExpectsRelative p))).
Proof.
  split.
  - destruct (proj1 (C8_rebase (P := Posix.path) (V := Sample.methods)
                       Sample.relative "/repo" Sample.heap))
      as (h1 & Hret & _ & _ & Hagain).
    + repeat constructor; simpl; intuition.
    + repeat constructor; simpl; intuition.
    + repeat constructor; simpl; intuition.
    + exact sample_relative_entries.
    + exists h1. split; [exact Hret|]. apply Hagain.
      * reflexivity.
      * exact posix_join_absolute.
      * reflexivity.
      * discriminate.
  - apply (proj2 (C8_rebase (P := Posix.path) (V := Sample.methods)
                    Sample.mixed "/repo" Sample.heap)).
    exists (Remove 1), "/repo/old". simpl. intuition.
Defined.

(** The rebase is not bound to fail the second time: on a relative base the
    joined paths are relative again, and an empty change-set has no path to
    check. *)
Lemma C8_counterexample :
  (forall x, In x (entries Sample.relative) ->
             relative_entry (P := Posix.path) Sample.heap x)
  /\ snd (addBasePath (P := Posix.path) (V := Sample.methods) Sample.relative "work" Sample.heap)
     = Returned tt
  /\ snd (addBasePath (P := Posix.path) (V := Sample.methods) Sample.relative "work"
            (fst (addBasePath (P := Posix.path) (V := Sample.methods)
                    Sample.relative "work" Sample.heap)))
     = Returned tt
  /\ snd (addBasePath (P := Posix.path) (V := Sample.methods) new_DataToPersist "/repo"
            (fst (addBasePath (P := Posix.path) (V := Sample.methods)
                    new_DataToPersist "/repo" Sample.heap)))
     = Returned tt.
Proof.
  split; [exact sample_relative_entries|]. repeat split; reflexivity.
Qed.

(** An object listed twice is rebased at its first visit and found absolute
    at the second: the rebase throws although every path was relative. *)
Lemma rebase_same_symlink_twice :
  (forall x, In x (entries Sample.twice) -> relative_entry (P := Posix.path) Sample.heap x)
  /\ snd (addBasePath (P := Posix.path) (V := Sample.methods) Sample.twice "/repo" Sample.heap)
     = Thrown (ExpectsRelative "/repo/a").
Proof.
  split; [|reflexivity]. intros x [<-|[<-|[]]]; repeat constructor.
Qed.

(** The symlink is rebased, then the absolute remove-path stops the rebase. *)
Lemma C10_rebase_not_atomic_witness :
  exists h',
    addBasePath (P := Posix.path) (V := Sample.methods) Sample.mixed "/repo" Sample.heap
    = (h', Thrown (ExpectsRelative "/repo/old"))
    /\ link h' 0 = {| src := "/repo/a"; dest := "/repo/b" |}
    /\ link Sample.heap 0 = {| src := "a"; dest := "b" |}
    /\ exists pre x post p,
        entries Sample.mixed = (pre ++ x :: post)%list
        /\ forEach (rebase_entry (P := Posix.path) (V := Sample.methods) "/repo") pre Sample.heap
           = (h', Returned tt)
        /\ h' = fold_left (rewritten (P := Posix.path) (V := Sample.methods) "/repo") pre Sample.heap
        /\ ExpectsRelative "/repo/old" = ExpectsRelative p
        /\ In p (asserted_paths h' x) /\ isAbsolute (NodePath := Posix.path) p = true
        /\ (NoDup pre ->
            (forall y, In y pre ->
                       joined (P := Posix.path) (V := Sample.methods) "/repo" Sample.heap h' y)
            /\ (forall y, ~ In y pre -> unchanged Sample.heap h' y)).
Proof.
  exists (fst (addBasePath (P := Posix.path) (V := Sample.methods)
                 Sample.mixed "/repo" Sample.heap)).
  split; [reflexivity|]. split; [reflexivity|]. split; [reflexivity|].
  apply (C10_rebase_not_atomic (P := Posix.path) (V := Sample.methods)
           Sample.mixed "/repo" Sample.heap).
  reflexivity.
Defined.

(** A commit of absolute paths to the file system, every task fulfilled. *)
Lemma C3_phase_order_witness :
  persistAllToFS (P := Posix.path) Sample.heap Sample.absolute
    [Started (persistToFS 2); Fulfilled (persistToFS 2);
     Started (write_file 4); Fulfilled (write_file 4);
     Started (write_symlink 1); Fulfilled (write_symlink 1)]
    (Returned tt)
  /\ (forall t, In t (concat (_deletePathsFromFS Sample.heap Sample.absolute)) ->
                In (Fulfilled t) [Started (persistToFS 2); Fulfilled (persistToFS 2)]).
Proof.
  assert (H : persistAllToFS (P := Posix.path) Sample.heap Sample.absolute
                [Started (persistToFS 2); Fulfilled (persistToFS 2);
                 Started (write_file 4); Fulfilled (write_file 4);
                 Started (write_symlink 1); Fulfilled (write_symlink 1)]
                (Returned tt)).
  { unfold persistAllToFS. simpl.
    apply (awaitEach_next [persistToFS 2] _
             [Started (persistToFS 2); Fulfilled (persistToFS 2)]).
    - apply (awaitAll_fulfilled [persistToFS 2] [persistToFS 2]). apply Permutation_refl.
    - apply (awaitEach_next [write_file 4] _
               [Started (write_file 4); Fulfilled (write_file 4)]).
      + apply (awaitAll_fulfilled [write_file 4] [write_file 4]). apply Permutation_refl.
      + apply (awaitEach_next [write_symlink 1] []
                 [Started (write_symlink 1); Fulfilled (write_symlink 1)] []).
        * apply (awaitAll_fulfilled [write_symlink 1] [write_symlink 1]).
          apply Permutation_refl.
        * apply awaitEach_done. }
  split; [exact H|].
  apply (proj1 (proj1 (C3_phase_order (P := Posix.path) Sample.heap Sample.absolute _
                         (Returned tt)
                         [Started (persistToFS 2); Fulfilled (persistToFS 2)]
                         [Fulfilled (write_file 4);
                          Started (write_symlink 1); Fulfilled (write_symlink 1)]
                         (write_file 4) eq_refl) H)).
  simpl. left. reflexivity.
Defined.

(** A commit of relative paths to the file system is refused at once. *)
Lemma C4_commit_validation_witness :
  find (fun p => negb (isAbsolute (NodePath := Posix.path) p))
       (validated_paths Sample.heap Sample.relative) = Some "lib/b.js"
  /\ persistAllToFS (P := Posix.path) Sample.heap Sample.relative []
       (Thrown (ExpectsAbsolute "lib/b.js"))
  /\ ([] : list event) = []
  /\ (Thrown (ExpectsAbsolute "lib/b.js") : outcome Error unit)
     = Thrown (ExpectsAbsolute "lib/b.js").
Proof.
  assert (H : persistAllToFS (P := Posix.path) Sample.heap Sample.relative []
                (Thrown (ExpectsAbsolute "lib/b.js"))).
  { unfold persistAllToFS. simpl. split; reflexivity. }
  split; [reflexivity|]. split; [exact H|].
  exact (proj1 (C4_commit_validation (P := Posix.path) Sample.heap Sample.relative []
                  (Thrown (ExpectsAbsolute "lib/b.js")))
               "lib/b.js" eq_refl H).
Defined.

(** The same change-set goes to a capsule unchecked: its relative paths are
    removed, written and linked, and the commit returns. *)
Lemma C4_counterexample :
  isAbsolute (NodePath := Posix.path) "lib/b.js" = false
  /\ In "lib/b.js" (validated_paths Sample.heap Sample.relative)
  /\ persistAllToCapsule Sample.heap Sample.relative
       [Started (capsule_removePath "old"); Fulfilled (capsule_removePath "old");
        Started (capsule_outputFile "lib/b.js" "rel");
        Fulfilled (capsule_outputFile "lib/b.js" "rel");
        Started (capsule_symlink "a" "b"); Fulfilled (capsule_symlink "a" "b")]
       (Returned tt).
Proof.
  split; [reflexivity|]. split; [simpl; auto|].
  unfold persistAllToCapsule. simpl.
  apply (awaitEach_next [capsule_removePath "old"] _
           [Started (capsule_removePath "old"); Fulfilled (capsule_removePath "old")]).
  - apply (awaitAll_fulfilled [capsule_removePath "old"] [capsule_removePath "old"]).
    apply Permutation_refl.
  - apply (awaitEach_next [capsule_outputFile "lib/b.js" "rel"] _
             [Started (capsule_outputFile "lib/b.js" "rel");
              Fulfilled (capsule_outputFile "lib/b.js" "rel")]).
    + apply (awaitAll_fulfilled [capsule_outputFile "lib/b.js" "rel"]
               [capsule_outputFile "lib/b.js" "rel"]).
      apply Permutation_refl.
    + apply (awaitEach_next [capsule_symlink "a" "b"] []
               [Started (capsule_symlink "a" "b"); Fulfilled (capsule_symlink "a" "b")] []).
      * apply (awaitAll_fulfilled [capsule_symlink "a" "b"] [capsule_symlink "a" "b"]).
        apply Permutation_refl.
      * apply awaitEach_done.
Qed.

(** * Further properties of the change-set engine *)

Section MoreInsertionFacts.

Context {P : NodePath}.

(** What an insertion does to the pending writes. *)
Lemma addFile_files_cases (h : Heap) (file : option ref) (d : DataToPersist) :
  fst (addFile h file d) = d
  \/ exists f,
      file = Some f /\ path (vinyl h f) <> EmptyString
      /\ ((exists l1 x l2,
              files d = (l1 ++ x :: l2)%list
              /\ path (vinyl h x) = path (vinyl h f)
              /\ override (vinyl h f) = true
              /\ (fst (addFile h file d) = set_files (l1 ++ l2)%list d
                  \/ fst (addFile h file d) = set_files ((l1 ++ l2) ++ [f])%list d))
          \/ fst (addFile h file d) = set_files (files d ++ [f])%list d).
Proof.
  unfold addFile. destruct file as [f|]; [|now left].
  destruct (truthy (path (vinyl h f))) eqn:Hp; simpl; [|now left].
  apply truthy_true in Hp.
  destruct (findIndex _ (files d)) as [i|] eqn:Hi.
  - destruct (override (vinyl h f)) eqn:Ho; [|now left].
    right. exists f. split; [reflexivity|]. split; [assumption|]. left.
    apply findIndex_Some in Hi. destruct Hi as (l1 & x & l2 & Hl & _ & Hx & _ & Hsp).
    apply String.eqb_eq in Hx. exists l1, x, l2.
    split; [assumption|]. split; [assumption|]. split; [exact Ho|].
    unfold bind, modify, _throwForDirectoryCollision. rewrite Hsp. simpl.
    destruct (find _ (l1 ++ l2)%list); simpl; [now left|now right].
  - unfold bind, modify, _throwForDirectoryCollision.
    destruct (find _ (files d)); simpl; [now left|].
    right. exists f. split; [reflexivity|]. split; [assumption|]. now right.
Qed.

Lemma addFile_frame (h : Heap) (file : option ref) (d : DataToPersist) :
  symlinks (fst (addFile h file d)) = symlinks d
  /\ remove (fst (addFile h file d)) = remove d.
Proof.
  destruct (addFile_files_cases h file d) as [->|(f & _ & _ & [(l1 & x & l2 & _ & _ & _ & [->| ->])| ->])];
    split; reflexivity.
Qed.

Lemma removePath_frame (p : option ref) (d : DataToPersist) :
  files (fst (removePath p d)) = files d
  /\ symlinks (fst (removePath p d)) = symlinks d.
Proof.
  unfold removePath. destruct p as [r|]; [|split; reflexivity].
  destruct (existsb (Nat.eqb r) (remove d)); split; reflexivity.
Qed.

Lemma addSymlink_frame (h : Heap) (s : ref) (d : DataToPersist) :
  files (fst (addSymlink h s d)) = files d
  /\ remove (fst (addSymlink h s d)) = remove d.
Proof.
  unfold addSymlink.
  destruct (negb (truthy (src (link h s)))); [split; reflexivity|].
  destruct (negb (truthy (dest (link h s)))); split; reflexivity.
Qed.

(** A property kept by every insertion holds of every change-set a caller
    can build. *)
Lemma built_invariant (h : Heap) (Inv : DataToPersist -> Prop) :
  Inv new_DataToPersist ->
  (forall file d, Inv d -> Inv (fst (addFile h file d))) ->
  (forall p d, Inv d -> Inv (fst (removePath p d))) ->
  (forall s d, Inv d -> Inv (fst (addSymlink h s d))) ->
  forall d, built h d -> Inv d.
Proof.
  intros Hnew Hfile Hrem Hsym d Hb. induction Hb as [|d file _ IH|d p _ IH|d s _ IH|d other _ IH].
  - exact Hnew.
  - now apply Hfile.
  - now apply Hrem.
  - now apply Hsym.
  - destruct other as [o|]; [|exact IH].
    unfold merge, addManyFiles, removeManyPaths, addManySymlinks.
    apply (bind_invariant Inv).
    + apply (forEach_invariant Inv); [|exact IH]. intros x s. apply Hfile.
    + intros _ s Hs. apply (bind_invariant Inv).
      * apply (forEach_invariant Inv); [|exact Hs]. intros x s0. apply Hrem.
      * intros _ s0 H0. apply (forEach_invariant Inv); [|exact H0]. intros x s1. apply Hsym.
Qed.

Lemma existsb_eqb_In (r : ref) (l : list ref) : existsb (Nat.eqb r) l = true <-> In r l.
Proof.
  rewrite existsb_exists. split.
  - intros (x & Hx & He). apply Nat.eqb_eq in He. now subst.
  - intros H. exists r. split; [assumption|apply Nat.eqb_refl].
Qed.

Lemma NoDup_app_end {A : Type} (l : list A) (x : A) : NoDup l -> ~ In x l -> NoDup (l ++ [x]).
Proof.
  intros Hl Hx. induction Hl as [|y l Hy Hl IH]; simpl.
  - constructor; [intros []|constructor].
  - constructor.
    + intros Hin. apply in_app_or in Hin. destruct Hin as [Hin|[->|[]]]; [contradiction|].
      apply Hx. now left.
    + apply IH. intros Hin. apply Hx. now right.
Qed.

Lemma built_remove_NoDup (h : Heap) (d : DataToPersist) : built h d -> NoDup (remove d).
Proof.
  revert d. apply (built_invariant h (fun d => NoDup (remove d))).
  - constructor.
  - intros file d Hd. now rewrite (proj2 (addFile_frame h file d)).
  - intros p d Hd. unfold removePath. destruct p as [r|]; [|exact Hd].
    destruct (existsb (Nat.eqb r) (remove d)) eqn:He; [exact Hd|]. simpl.
    apply NoDup_app_end; [assumption|]. intros Hin. apply existsb_eqb_In in Hin. congruence.
  - intros s d Hd. now rewrite (proj2 (addSymlink_frame h s d)).
Qed.

Lemma built_files_have_paths (h : Heap) (d : DataToPersist) :
  built h d -> Forall (fun f => path (vinyl h f) <> EmptyString) (files d).
Proof.
  revert d. apply (built_invariant h
    (fun d => Forall (fun f => path (vinyl h f) <> EmptyString) (files d))).
  - constructor.
  - intros file d Hd.
    destruct (addFile_files_cases h file d)
      as [->|(f & _ & Hp & [(l1 & x & l2 & Hl & _ & _ & [->| ->])| ->])]; simpl; auto.
    + rewrite Hl in Hd. apply Forall_app in Hd. destruct Hd as [H1 H2].
      apply Forall_app. split; [assumption|]. now inversion H2.
    + rewrite Hl in Hd. apply Forall_app in Hd. destruct Hd as [H1 H2].
      apply Forall_app. split; [|constructor; [assumption|constructor]].
      apply Forall_app. split; [assumption|]. now inversion H2.
    + apply Forall_app. split; [assumption|]. constructor; [assumption|constructor].
  - intros p d Hd. now rewrite (proj1 (removePath_frame p d)).
  - intros s d Hd. now rewrite (proj1 (addSymlink_frame h s d)).
Qed.

Lemma built_symlinks_have_ends (h : Heap) (d : DataToPersist) :
  built h d ->
  Forall (fun s => src (link h s) <> EmptyString /\ dest (link h s) <> EmptyString)
         (symlinks d).
Proof.
  revert d. apply (built_invariant h
    (fun d => Forall (fun s => src (link h s) <> EmptyString
                               /\ dest (link h s) <> EmptyString) (symlinks d))).
  - constructor.
  - intros file d Hd. now rewrite (proj1 (addFile_frame h file d)).
  - intros p d Hd. now rewrite (proj2 (removePath_frame p d)).
  - intros s d Hd. unfold addSymlink.
    destruct (truthy (src (link h s))) eqn:Hs; simpl; [|exact Hd].
    destruct (truthy (dest (link h s))) eqn:Ht; simpl; [|exact Hd].
    apply truthy_true in Hs, Ht.
    apply Forall_app. split; [assumption|]. constructor; [split; assumption|constructor].
Qed.

Lemma FOP_NoDup_map {A B : Type} (R : A -> A -> Prop) (g : A -> B) (l : list A) :
  (forall a b, R a b -> g a <> g b) -> ForallOrdPairs R l -> NoDup (map g l).
Proof.
  intros HR. induction 1 as [|x l Hx Hl IH]; simpl; constructor; [|assumption].
  intros Hin. apply in_map_iff in Hin. destruct Hin as (y & Hy & Hin).
  rewrite Forall_forall in Hx. apply (HR x y (Hx y Hin)). now symmetry.
Qed.

(** X1. The remove-paths of a change-set built by insertions and merges
    are distinct objects: [removePath] of an object that is already listed
    changes nothing, whatever the paths are; of any other object, it lists
    it last. *)
Theorem remove_paths_listed_once (h : Heap) (d : DataToPersist) :
  built h d ->
  NoDup (remove d)
  /\ (forall r, In r (remove d) -> removePath (Some r) d = (d, Returned tt))
  /\ (forall r, ~ In r (remove d) ->
                removePath (Some r) d = (set_remove (remove d ++ [r])%list d, Returned tt)).
Proof.
  intros Hb. split; [now apply (built_remove_NoDup h)|split].
  - intros r Hr. unfold removePath. apply existsb_eqb_In in Hr. now rewrite Hr.
  - intros r Hr. unfold removePath.
    destruct (existsb (Nat.eqb r) (remove d)) eqn:He; [|reflexivity].
    apply existsb_eqb_In in He. contradiction.
Qed.

(** X2. In a change-set built by insertions and merges every pending file
    has a path, no two pending files have the same path, and every pending
    symlink has a source and a destination. *)
Theorem built_well_formed (h : Heap) (d : DataToPersist) :
  built h d ->
  Forall (fun f => path (vinyl h f) <> EmptyString) (files d)
  /\ NoDup (map (fun f => path (vinyl h f)) (files d))
  /\ Forall (fun s => src (link h s) <> EmptyString /\ dest (link h s) <> EmptyString)
            (symlinks d).
Proof.
  intros Hb. split; [now apply built_files_have_paths|split].
  - apply built_disjoint in Hb. unfold disjoint_writes in Hb.
    apply (FOP_NoDup_map (compatible h)); [|assumption]. intros a b [Hne _]. exact Hne.
  - now apply built_symlinks_have_ends.
Qed.

End MoreInsertionFacts.

Lemma forEach_cons_ok {E S A : Type} (f : A -> M E S unit) (x : A) (l : list A) (s s' : S) :
  forEach f (x :: l) s = (s', Returned tt) ->
  exists s1, f x s = (s1, Returned tt) /\ forEach f l s1 = (s', Returned tt).
Proof.
  simpl. unfold bind. destruct (f x s) as [s1 [[]|e]]; [|discriminate].
  intros H. exists s1. split; [reflexivity|assumption].
Qed.

(** A loop that throws: the elements before the one that threw were
    handled, and the state is the one in which it threw. *)
Lemma forEach_throw_split {E S A : Type} (f : A -> M E S unit) (l : list A) (s s' : S) (e : E) :
  forEach f l s = (s', Thrown e) ->
  exists pre x post s1,
    l = (pre ++ x :: post)%list
    /\ forEach f pre s = (s1, Returned tt)
    /\ f x s1 = (s', Thrown e).
Proof.
  revert s. induction l as [|x l IH]; intros s; simpl; [discriminate|].
  unfold bind. destruct (f x s) as [s1 [[]|e1]] eqn:Hx.
  - intros H. destruct (IH s1 H) as (pre & y & post & s2 & -> & Hpre & Hy).
    exists (x :: pre), y, post, s2. split; [reflexivity|]. split; [|assumption].
    simpl. unfold bind. now rewrite Hx.
  - intros H. inversion H; subst. exists [], x, l, s. repeat split; auto.
Qed.

Section MergeFacts.

Context {P : NodePath}.

(** An insertion that returns. *)
Lemma addFile_ok_cases (h : Heap) (f : ref) (d d' : DataToPersist) :
  addFile h (Some f) d = (d', Returned tt) ->
  (d' = d /\ override (vinyl h f) = false
   /\ exists x, In x (files d) /\ path (vinyl h x) = path (vinyl h f))
  \/ (exists l1 x l2,
         files d = (l1 ++ x :: l2)%list /\ path (vinyl h x) = path (vinyl h f)
         /\ override (vinyl h f) = true
         /\ d' = set_files ((l1 ++ l2) ++ [f])%list d)
  \/ ((forall x, In x (files d) -> path (vinyl h x) <> path (vinyl h f))
      /\ d' = set_files (files d ++ [f])%list d).
Proof.
  unfold addFile. destruct (truthy (path (vinyl h f))); simpl; [|discriminate].
  destruct (findIndex _ (files d)) as [i|] eqn:Hi.
  - apply findIndex_Some in Hi. destruct Hi as (l1 & x & l2 & Hl & _ & Hx & _ & Hsp).
    apply String.eqb_eq in Hx.
    destruct (override (vinyl h f)) eqn:Ho.
    + unfold bind, modify, _throwForDirectoryCollision. rewrite Hsp. simpl.
      destruct (find _ (l1 ++ l2)%list); simpl; [discriminate|].
      intros H. inversion H; subst. right. left. exists l1, x, l2. auto.
    + intros H. inversion H; subst. left. split; [reflexivity|]. split; [reflexivity|].
      exists x. split; [|assumption]. rewrite Hl. apply in_elt.
  - unfold bind, modify, _throwForDirectoryCollision.
    destruct (find _ (files d)); simpl; [discriminate|].
    intros H. inversion H; subst. right. right. split; [|reflexivity].
    apply findIndex_None in Hi. rewrite Forall_forall in Hi.
    intros x Hx. specialize (Hi x Hx). simpl in Hi. now apply String.eqb_neq in Hi.
Qed.

Lemma addFile_ok_paths (h : Heap) (f : ref) (d d' : DataToPersist) :
  addFile h (Some f) d = (d', Returned tt) ->
  symlinks d' = symlinks d /\ remove d' = remove d
  /\ (forall p, In p (write_paths h d') <-> In p (write_paths h d) \/ p = path (vinyl h f))
  /\ (forall g, In g (files d) ->
                In g (files d')
                \/ (path (vinyl h f) = path (vinyl h g) /\ override (vinyl h f) = true)).
Proof.
  intros H. unfold write_paths.
  destruct (addFile_ok_cases h f d d' H)
    as [(-> & _ & x & Hx & Hp)|[(l1 & x & l2 & Hl & Hp & Ho & ->)|(_ & ->)]]; simpl.
  - split; [reflexivity|]. split; [reflexivity|]. split; [|intros g Hg; now left].
    intros p. split; [now left|]. intros [Hin| ->]; [assumption|]. rewrite <- Hp.
    now apply (in_map (fun f0 => path (vinyl h f0))).
  - split; [reflexivity|]. split; [reflexivity|]. split.
    + intros p. rewrite Hl. rewrite !map_app. simpl. rewrite !in_app_iff. simpl.
      rewrite Hp. intuition.
    + intros g Hg. rewrite Hl in Hg. apply in_app_or in Hg.
      rewrite !in_app_iff. destruct Hg as [Hg|[<-|Hg]]; auto.
  - split; [reflexivity|]. split; [reflexivity|]. split.
    + intros p. rewrite map_app, in_app_iff. simpl. intuition.
    + intros g Hg. left. apply in_or_app. now left.
Qed.

Lemma addManyFiles_ok (h : Heap) (l : list ref) :
  forall d d',
    addManyFiles h l d = (d', Returned tt) ->
    symlinks d' = symlinks d /\ remove d' = remove d
    /\ (forall p, In p (write_paths h d')
                  <-> In p (write_paths h d) \/ In p (map (fun f => path (vinyl h f)) l))
    /\ (forall g, In g (files d) ->
                  In g (files d')
                  \/ exists f, In f l /\ path (vinyl h f) = path (vinyl h g)
                               /\ override (vinyl h f) = true).
Proof.
  unfold addManyFiles. induction l as [|f l IH]; intros d d' H.
  - simpl in H. inversion H; subst. split; [reflexivity|]. split; [reflexivity|]. split.
    + intros p. simpl. intuition.
    + intros g Hg. now left.
  - apply forEach_cons_ok in H. destruct H as (d1 & H1 & H2).
    destruct (addFile_ok_paths h f d d1 H1) as (Hs1 & Hr1 & Hp1 & Hg1).
    destruct (IH d1 d' H2) as (Hs2 & Hr2 & Hp2 & Hg2).
    split; [congruence|]. split; [congruence|]. split.
    + intros p. rewrite Hp2, Hp1. simpl. intuition.
    + intros g Hg. destruct (Hg1 g Hg) as [Hin|(Hp & Ho)].
      * destruct (Hg2 g Hin) as [Hin'|(f' & Hf' & Hp' & Ho')]; [now left|].
        right. exists f'. split; [now right|]. auto.
      * right. exists f. split; [now left|]. auto.
Qed.

Lemma removeManyPaths_result (l : list ref) :
  forall d,
    exists d', removeManyPaths l d = (d', Returned tt)
               /\ files d' = files d /\ symlinks d' = symlinks d
               /\ (forall r, In r (remove d') <-> In r (remove d) \/ In r l).
Proof.
  unfold removeManyPaths. induction l as [|x l IH]; intros d; cbn [forEach].
  - exists d. split; [reflexivity|]. split; [reflexivity|]. split; [reflexivity|].
    intros r. simpl. intuition.
  - unfold bind. unfold removePath at 1.
    destruct (existsb (Nat.eqb x) (remove d)) eqn:Hx.
    + destruct (IH d) as (d' & Hd' & Hf & Hs & Hr). exists d'. rewrite Hd'.
      apply existsb_eqb_In in Hx.
      split; [reflexivity|]. split; [assumption|]. split; [assumption|].
      intros r. rewrite Hr. simpl. intuition. subst. auto.
    + destruct (IH (set_remove (remove d ++ [x])%list d)) as (d' & Hd' & Hf & Hs & Hr).
      exists d'. rewrite Hd'.
      split; [reflexivity|]. split; [assumption|]. split; [assumption|].
      intros r. rewrite Hr. simpl. rewrite in_app_iff. simpl. intuition.
Qed.

Lemma addManySymlinks_ok (h : Heap) (l : list ref) :
  forall d d',
    addManySymlinks h l d = (d', Returned tt) ->
    d' = set_symlinks (symlinks d ++ l)%list d.
Proof.
  unfold addManySymlinks. induction l as [|s l IH]; intros d d' H.
  - simpl in H. inversion H; subst. destruct d'; unfold set_symlinks; simpl.
    now rewrite app_nil_r.
  - apply forEach_cons_ok in H. destruct H as (d1 & H1 & H2).
    unfold addSymlink in H1.
    destruct (negb (truthy (src (link h s)))); [discriminate|].
    destruct (negb (truthy (dest (link h s)))); [discriminate|].
    inversion H1; subst. rewrite (IH _ _ H2). unfold set_symlinks. simpl.
    now rewrite <- app_assoc.
Qed.

(** X3. A merge that returns: the paths to write are those of the two
    change-sets, a pending file giving way only to a merged file of the same
    path that has [override] set; the remove-paths are those of the two
    change-sets; the symlinks of the merged change-set are appended, all of
    them. *)
Theorem merge_returned (h : Heap) (other d d' : DataToPersist) :
  merge h (Some other) d = (d', Returned tt) ->
  (forall p, In p (write_paths h d') <-> In p (write_paths h d) \/ In p (write_paths h other))
  /\ (forall g, In g (files d) ->
                In g (files d')
                \/ exists f, In f (files other) /\ path (vinyl h f) = path (vinyl h g)
                             /\ override (vinyl h f) = true)
  /\ (forall r, In r (remove d') <-> In r (remove d) \/ In r (remove other))
  /\ symlinks d' = (symlinks d ++ symlinks other)%list.
Proof.
  unfold merge, bind.
  destruct (addManyFiles h (files other) d) as [d1 [[]|e]] eqn:H1; [|discriminate].
  destruct (removeManyPaths_result (remove other) d1) as (d2 & H2 & Hf2 & Hs2 & Hr2).
  rewrite H2. intros H3. apply addManySymlinks_ok in H3. subst d'.
  destruct (addManyFiles_ok h _ _ _ H1) as (Hs1 & Hr1 & Hp1 & Hg1).
  unfold write_paths in *. simpl. rewrite Hf2. split; [exact Hp1|]. split; [exact Hg1|].
  split.
  - intros r. rewrite Hr2, Hr1. reflexivity.
  - congruence.
Qed.

Lemma FOP_app_inv {A : Type} (R : A -> A -> Prop) (l1 : list A) (x : A) (l2 : list A) :
  ForallOrdPairs R (l1 ++ x :: l2) -> Forall (fun y => R y x) l1.
Proof.
  induction l1 as [|y l1 IH]; simpl; intros H; [constructor|].
  inversion H; subst. constructor.
  - apply Forall_app in H2. destruct H2 as [_ Hb]. now inversion Hb.
  - now apply IH.
Qed.

Lemma addManyFiles_fresh (h : Heap) (l : list ref) :
  forall d,
    Forall (fun f => path (vinyl h f) <> EmptyString) l ->
    ForallOrdPairs (compatible h) (files d ++ l) ->
    addManyFiles h l d = (set_files (files d ++ l)%list d, Returned tt).
Proof.
  unfold addManyFiles. induction l as [|f l IH]; intros d Hp Hc; cbn [forEach].
  - rewrite app_nil_r. now destruct d.
  - inversion Hp; subst. pose proof (FOP_app_inv _ _ _ _ Hc) as Hf.
    rewrite Forall_forall in Hf.
    unfold bind. unfold addFile at 1.
    apply truthy_true in H1. rewrite H1. simpl.
    assert (Hi : findIndex (fun existingFile =>
                   String.eqb (path (vinyl h existingFile)) (path (vinyl h f))) (files d)
                 = None).
    { apply findIndex_None. rewrite Forall_forall. intros x Hx.
      destruct (Hf x Hx) as [Hne _]. now apply String.eqb_neq. }
    rewrite Hi. unfold bind, modify.
    rewrite throwForDirectoryCollision_pass.
    2:{ rewrite Forall_forall. intros x Hx. destruct (Hf x Hx) as [_ Hco].
        now rewrite collides_sym. }
    simpl. rewrite IH; simpl.
    + unfold set_files. simpl. now rewrite <- app_assoc.
    + assumption.
    + now rewrite <- app_assoc.
Qed.

Lemma removeManyPaths_fresh (l : list ref) :
  forall d,
    NoDup (remove d ++ l) ->
    removeManyPaths l d = (set_remove (remove d ++ l)%list d, Returned tt).
Proof.
  unfold removeManyPaths. induction l as [|r l IH]; intros d Hn; cbn [forEach].
  - rewrite app_nil_r. now destruct d.
  - unfold bind. unfold removePath at 1.
    destruct (existsb (Nat.eqb r) (remove d)) eqn:He.
    + exfalso. apply existsb_eqb_In in He. apply NoDup_remove_2 in Hn.
      apply Hn. apply in_or_app. now left.
    + rewrite IH; simpl.
      * unfold set_remove. simpl. now rewrite <- app_assoc.
      * now rewrite <- app_assoc.
Qed.

Lemma addManySymlinks_fresh (h : Heap) (l : list ref) :
  forall d,
    Forall (fun s => src (link h s) <> EmptyString /\ dest (link h s) <> EmptyString) l ->
    addManySymlinks h l d = (set_symlinks (symlinks d ++ l)%list d, Returned tt).
Proof.
  unfold addManySymlinks. induction l as [|s l IH]; intros d Hl; cbn [forEach].
  - rewrite app_nil_r. now destruct d.
  - inversion Hl as [|? ? [Hs Ht] Hl']; subst.
    apply truthy_true in Hs, Ht. unfold bind, addSymlink at 1. rewrite Hs, Ht. simpl.
    rewrite IH; [|assumption]. unfold set_symlinks. simpl. now rewrite <- app_assoc.
Qed.

(** X4. Merging a change-set built by insertions and merges into a new
    change-set gives that change-set again: every pending file, remove-path
    and symlink, in the same order. *)
Theorem merge_into_new (h : Heap) (other : DataToPersist) :
  built h other ->
  merge h (Some other) new_DataToPersist = (other, Returned tt).
Proof.
  intros Hb.
  pose proof (built_files_have_paths h other Hb) as Hpaths.
  pose proof (built_symlinks_have_ends h other Hb) as Hlinks.
  pose proof (built_remove_NoDup h other Hb) as Hnd.
  apply built_disjoint in Hb. unfold disjoint_writes in Hb.
  unfold merge, bind.
  rewrite (addManyFiles_fresh h (files other) new_DataToPersist Hpaths Hb). simpl.
  rewrite removeManyPaths_fresh; [|exact Hnd]. simpl.
  rewrite addManySymlinks_fresh; [|exact Hlinks]. simpl.
  now destruct other.
Qed.

(** X5. A merge that throws is not undone.  It threw either at a file of
    the merged change-set, the files before it having been inserted and no
    remove-path or symlink merged yet; or at a symlink, every file and
    remove-path having been merged and the symlinks before it appended. *)
Theorem merge_thrown (h : Heap) (other d d' : DataToPersist) (e : Error) :
  merge h (Some other) d = (d', Thrown e) ->
  (exists pre f post d1,
      files other = (pre ++ f :: post)%list
      /\ addManyFiles h pre d = (d1, Returned tt)
      /\ addFile h (Some f) d1 = (d', Thrown e)
      /\ remove d' = remove d /\ symlinks d' = symlinks d)
  \/ (exists pre s post d2,
         symlinks other = (pre ++ s :: post)%list
         /\ (addManyFiles h (files other) ;; removeManyPaths (remove other))%js d
            = (d2, Returned tt)
         /\ d' = set_symlinks (symlinks d ++ pre)%list d2
         /\ addSymlink h s d' = (d', Thrown e)).
Proof.
  unfold merge, bind.
  destruct (addManyFiles h (files other) d) as [d1 [[]|e1]] eqn:H1.
  - destruct (removeManyPaths_result (remove other) d1) as (d2 & H2 & Hf2 & Hs2 & Hr2).
    rewrite H2. intros H3. right.
    apply forEach_throw_split in H3. destruct H3 as (pre & s & post & d3 & Hl & Hpre & Hs).
    apply (addManySymlinks_ok h pre d2 d3) in Hpre. subst d3.
    assert (Hd' : d' = set_symlinks (symlinks d2 ++ pre)%list d2).
    { pose proof (addSymlink_frame h s (set_symlinks (symlinks d2 ++ pre)%list d2)) as _.
      unfold addSymlink in Hs.
      destruct (negb (truthy (src (link h s)))); [now inversion Hs|].
      destruct (negb (truthy (dest (link h s)))); now inversion Hs. }
    exists pre, s, post, d2. split; [assumption|]. split; [reflexivity|].
    destruct (addManyFiles_ok h _ _ _ H1) as (Hs1 & _).
    assert (Heq : symlinks d2 = symlinks d) by congruence.
    rewrite <- Hd' in Hs. rewrite Heq in Hd'. split; [exact Hd'|exact Hs].
  - intros H. inversion H; subst. left.
    apply forEach_throw_split in H1. destruct H1 as (pre & f & post & d1 & Hl & Hpre & Hf).
    exists pre, f, post, d1. split; [assumption|]. split; [assumption|]. split; [assumption|].
    destruct (addManyFiles_ok h _ _ _ Hpre) as (Hs1 & Hr1 & _).
    destruct (addFile_frame h (Some f) d1) as [Hs Hr]. rewrite Hf in Hs, Hr. simpl in Hs, Hr.
    split; congruence.
Qed.

End MergeFacts.

(** ** More on commits *)

Lemma started_app (a b : list event) : started_tasks (a ++ b) = (started_tasks a ++ started_tasks b)%list.
Proof. apply flat_map_app. Qed.
Lemma fulfilled_app (a b : list event) : fulfilled_tasks (a ++ b) = (fulfilled_tasks a ++ fulfilled_tasks b)%list.
Proof. apply flat_map_app. Qed.
Lemma rejected_app (a b : list event) : rejected_tasks (a ++ b) = (rejected_tasks a ++ rejected_tasks b)%list.
Proof. apply flat_map_app. Qed.

Lemma project_Started (ts : list task) :
  started_tasks (map Started ts) = ts /\ fulfilled_tasks (map Started ts) = []
  /\ rejected_tasks (map Started ts) = [].
Proof.
  induction ts as [|t ts (IH1 & IH2 & IH3)]; simpl; [auto|].
  rewrite IH1. auto.
Qed.

Lemma project_Fulfilled (ts : list task) :
  started_tasks (map Fulfilled ts) = [] /\ fulfilled_tasks (map Fulfilled ts) = ts
  /\ rejected_tasks (map Fulfilled ts) = [].
Proof.
  induction ts as [|t ts (IH1 & IH2 & IH3)]; simpl; [auto|].
  rewrite IH2. auto.
Qed.

(** A batch whose await resumes: every task started, in order, and
    fulfilled; none rejected. *)
Lemma awaitAll_true (ts : list task) (tr : list event) :
  awaitAll ts tr true ->
  started_tasks tr = ts /\ Permutation (fulfilled_tasks tr) ts /\ rejected_tasks tr = [].
Proof.
  intros H. inversion H as [ts0 settled Hp| |]; subst.
  destruct (project_Started ts) as (S1 & S2 & S3).
  destruct (project_Fulfilled settled) as (F1 & F2 & F3).
  rewrite started_app, fulfilled_app, rejected_app, S1, S2, S3, F1, F2, F3.
  rewrite app_nil_r. auto.
Qed.

(** A batch whose await throws: the trace ends with the one rejection,
    and the tasks started are the first ones of the batch. *)
Lemma awaitAll_false (ts : list task) (tr : list event) :
  awaitAll ts tr false ->
  exists t l rest,
    tr = (l ++ [Rejected t])%list /\ rejected_tasks tr = [t] /\ In t (started_tasks tr)
    /\ ts = (started_tasks tr ++ rest)%list.
Proof.
  intros H. inversion H as [|ts0 settled t pending Hp|st t unstarted]; subst.
  - destruct (project_Started ts) as (S1 & S2 & S3).
    destruct (project_Fulfilled settled) as (F1 & F2 & F3).
    exists t, (map Started ts ++ map Fulfilled settled)%list, [].
    rewrite <- app_assoc. split; [reflexivity|].
    rewrite !started_app, !rejected_app, S1, S3, F1, F3. simpl. rewrite !app_nil_r.
    split; [reflexivity|]. split; [|reflexivity].
    apply (Permutation_in t Hp). apply in_elt.
  - destruct (project_Started st) as (S1 & S2 & S3).
    exists t, (map Started st ++ [Started t])%list, unstarted.
    rewrite <- app_assoc. split; [reflexivity|].
    rewrite !started_app, !rejected_app, S1, S3. simpl.
    split; [reflexivity|]. split; [apply in_elt|]. now rewrite <- app_assoc.
Qed.

Lemma awaitEach_returned (bs : list (list task)) (tr : list event) :
  awaitEach bs tr (Returned tt) ->
  started_tasks tr = concat bs /\ Permutation (fulfilled_tasks tr) (concat bs) /\ rejected_tasks tr = [].
Proof.
  intros H. remember (Returned tt) as res eqn:Hres. induction H as [|ts rest tr1 tr2 res Ha He IH|];
    [simpl; auto| |discriminate].
  destruct (awaitAll_true _ _ Ha) as (S & F & R). destruct (IH Hres) as (S' & F' & R').
  rewrite started_app, fulfilled_app, rejected_app, S, S', R, R'. simpl.
  split; [reflexivity|]. split; [|reflexivity]. now apply Permutation_app.
Qed.

Lemma awaitEach_thrown (bs : list (list task)) (tr : list event) (e : Error) :
  awaitEach bs tr (Thrown e) ->
  e = Rejection
  /\ exists t l rest,
      tr = (l ++ [Rejected t])%list /\ rejected_tasks tr = [t] /\ In t (started_tasks tr)
      /\ concat bs = (started_tasks tr ++ rest)%list.
Proof.
  intros H. remember (Thrown e) as res eqn:Hres.
  induction H as [|ts rest tr1 tr2 res Ha He IH|ts rest tr1 Ha]; [discriminate| |].
  - destruct (awaitAll_true _ _ Ha) as (S & F & R).
    destruct (IH Hres) as (-> & t & l & more & Htr & Hrej & Hin & Hc).
    split; [reflexivity|]. exists t, (tr1 ++ l)%list, more.
    rewrite started_app, rejected_app, R, S, Hrej. simpl.
    split; [now rewrite Htr, app_assoc|]. split; [reflexivity|].
    split; [apply in_or_app; now right|]. now rewrite Hc, app_assoc.
  - inversion Hres; subst. split; [reflexivity|].
    destruct (awaitAll_false _ _ Ha) as (t & l & more & Htr & Hrej & Hin & Hts).
    exists t, l, (more ++ concat rest)%list. simpl.
    split; [assumption|]. split; [assumption|]. split; [assumption|].
    rewrite Hts at 1. now rewrite <- app_assoc.
Qed.

(** Every batch can be awaited through: the trace in which each task is
    fulfilled in the order it was started. *)
Lemma awaitEach_can_return (bs : list (list task)) :
  exists tr, awaitEach bs tr (Returned tt).
Proof.
  induction bs as [|ts bs [tr IH]].
  - exists []. constructor.
  - exists ((map Started ts ++ map Fulfilled ts) ++ tr)%list.
    apply awaitEach_next; [|assumption]. constructor. apply Permutation_refl.
Qed.

Lemma awaitEach_started (bs : list (list task)) (tr : list event) (res : outcome Error unit)
      (w : task) :
  awaitEach bs tr res -> In (Started w) tr -> In w (concat bs).
Proof.
  induction 1 as [|ts rest tr1 tr2 res Ha He IH|ts rest tr1 Ha]; simpl; intros Hin.
  - destruct Hin.
  - apply in_or_app. apply in_app_or in Hin. destruct Hin as [Hin|Hin].
    + left. eapply awaitAll_started; eassumption.
    + right. now apply IH.
  - apply in_or_app. left. eapply awaitAll_started; eassumption.
Qed.

Section MoreCommitFacts.

Context {P : NodePath}.

(** X6. A commit that returns has started the tasks of its phases, these
    and no other, in order -- the removals, then the writes, then the
    symlinks -- and every one of them was fulfilled, none rejected; on the
    file system the paths had passed the validation.  And a commit can
    return: to a capsule always, to the file system once the validation
    passes. *)
Theorem commit_returned (h : Heap) (d : DataToPersist) (tr : list event) :
  (persistAllToFS h d tr (Returned tt) ->
   _validate h d tt = (tt, Returned tt)
   /\ started_tasks tr = concat (fs_batches h d)
   /\ Permutation (fulfilled_tasks tr) (concat (fs_batches h d))
   /\ rejected_tasks tr = [])
  /\ (persistAllToCapsule h d tr (Returned tt) ->
      started_tasks tr = concat (capsule_batches h d)
      /\ Permutation (fulfilled_tasks tr) (concat (capsule_batches h d))
      /\ rejected_tasks tr = [])
  /\ (_validate h d tt = (tt, Returned tt) ->
      exists tr', persistAllToFS h d tr' (Returned tt))
  /\ (exists tr', persistAllToCapsule h d tr' (Returned tt)).
Proof.
  split; [|split; [|split]].
  - unfold persistAllToFS. destruct (_validate h d tt) as [[] [[]|e]]; simpl.
    + intros H. split; [reflexivity|]. now apply awaitEach_returned.
    + intros [_ H]. discriminate.
  - unfold persistAllToCapsule. apply awaitEach_returned.
  - intros Hv. unfold persistAllToFS. rewrite Hv. simpl. apply awaitEach_can_return.
  - unfold persistAllToCapsule. apply awaitEach_can_return.
Qed.

(** X7. A commit to the file system that throws: either the validation
    threw and nothing was started, or a task was rejected; then the trace
    ends with that rejection, the only one, and the tasks started are the
    first ones in the order of the phases: no task after them was started. *)
Theorem commit_thrown (h : Heap) (d : DataToPersist) (tr : list event) (e : Error) :
  persistAllToFS h d tr (Thrown e) ->
  (tr = [] /\ exists p, e = ExpectsAbsolute p /\ In p (validated_paths h d)
                        /\ isAbsolute p = false)
  \/ (e = Rejection
      /\ _validate h d tt = (tt, Returned tt)
      /\ exists t l rest,
          tr = (l ++ [Rejected t])%list /\ rejected_tasks tr = [t] /\ In t (started_tasks tr)
          /\ concat (fs_batches h d) = (started_tasks tr ++ rest)%list).
Proof.
  unfold persistAllToFS. pose proof (validate_result h d) as Hv.
  destruct (_validate h d tt) as [[] [[]|e0]]; simpl in *.
  - intros H. right. apply awaitEach_thrown in H. destruct H as [-> H]. auto.
  - intros [-> He]. inversion He; subst. left. split; [reflexivity|].
    destruct (find _ (validated_paths h d)) as [p|] eqn:Hf; [|discriminate].
    inversion Hv; subst. apply find_some in Hf. destruct Hf as [Hin Hp].
    exists p. apply negb_true_iff in Hp. auto.
Qed.

(** X8. Inside the remove phase of a commit to the file system: the
    recursive remover is started only with the paths of the remove-paths
    that have [removeItsDirIfEmpty] set, and only when there are some; and a
    remove-path is removed on its own only when it has not that flag, and
    once the recursive remover is done. *)
Theorem remove_phase_order (h : Heap) (d : DataToPersist) (tr : list event)
        (res : outcome Error unit) :
  persistAllToFS h d tr res ->
  (forall paths, In (Started (removeFilesAndEmptyDirsRecursively paths)) tr ->
                 paths = flagged_paths h d /\ paths <> [])
  /\ (forall l1 r l2,
         tr = (l1 ++ Started (persistToFS r) :: l2)%list ->
         In r (remove d) /\ removeItsDirIfEmpty (rmpath h r) = false
         /\ (flagged_paths h d <> [] ->
             In (Fulfilled (removeFilesAndEmptyDirsRecursively (flagged_paths h d))) l1)).
Proof.
  unfold persistAllToFS. destruct (snd (_validate h d tt)) as [[]|e].
  2:{ intros [-> _]. split.
      - intros paths [].
      - intros l1 r l2 H. now destruct l1. }
  intros H.
  assert (Htasks : forall w, In w (concat (fs_batches h d)) ->
            (w = removeFilesAndEmptyDirsRecursively (flagged_paths h d)
             /\ flagged_paths h d <> [])
            \/ (exists r, w = persistToFS r /\ In r (remove d)
                          /\ removeItsDirIfEmpty (rmpath h r) = false)
            \/ (exists f, w = write_file f) \/ (exists s, w = write_symlink s)).
  { intros w Hw. unfold fs_batches, _deletePathsFromFS in Hw.
    fold (flagged_paths h d) in Hw. rewrite !concat_app in Hw. simpl in Hw.
    rewrite !app_nil_r in Hw. rewrite !in_app_iff in Hw.
    destruct Hw as [[Hw|Hw]|[Hw|Hw]].
    - left. destruct (flagged_paths h d) as [|p ps]; [destruct Hw|].
      simpl in Hw. destruct Hw as [<-|[]]. split; [reflexivity|discriminate].
    - right. left. apply in_map_iff in Hw. destruct Hw as (r & <- & Hr).
      apply filter_In in Hr. destruct Hr as [Hr Hflag]. apply negb_true_iff in Hflag.
      exists r. auto.
    - right. right. left. apply in_map_iff in Hw. destruct Hw as (f & <- & _). eauto.
    - right. right. right. apply in_map_iff in Hw. destruct Hw as (s & <- & _). eauto. }
  split.
  - intros paths Hin. apply (awaitEach_started _ _ _ _ H) in Hin.
    destruct (Htasks _ Hin) as [[Heq Hne]|[(r & Heq & _)|[(f & Heq)|(s & Heq)]]];
      try discriminate.
    inversion Heq; subst. auto.
  - intros l1 r l2 Htr.
    assert (Hin : In (Started (persistToFS r)) tr) by (rewrite Htr; apply in_elt).
    apply (awaitEach_started _ _ _ _ H) in Hin.
    destruct (Htasks _ Hin) as [[Heq _]|[(r' & Heq & Hr & Hflag)|[(f & Heq)|(s & Heq)]]];
      try discriminate.
    inversion Heq; subst r'. split; [assumption|]. split; [assumption|].
    intros Hne. unfold fs_batches, _deletePathsFromFS in H.
    fold (flagged_paths h d) in H.
    destruct (flagged_paths h d) as [|p ps] eqn:Hfl; [congruence|]. simpl in H.
    apply (awaitEach_order [[removeFilesAndEmptyDirsRecursively (p :: ps)]] _ _ _ H
                           l1 (persistToFS r) l2 Htr).
    + simpl. intros [Hx|[]]. discriminate.
    + simpl. now left.
Qed.

End MoreCommitFacts.

(** ** A rebase, then a commit *)

Section RebaseThenCommit.

Context {P : NodePath} {V : VinylMethods}.

Hypothesis join_absolute : forall a p, isAbsolute a = true -> isAbsolute (join a p) = true.
Hypothesis updatePaths_absolute :
  forall newBase f, isAbsolute newBase = true -> isAbsolute (path (updatePaths newBase f)) = true.

Lemma rewritten_checked (b : string) (h : Heap) (x y : entry) :
  isAbsolute b = true ->
  (x = y \/ Forall (fun p => isAbsolute p = true) (checked_paths h y)) ->
  Forall (fun p => isAbsolute p = true) (checked_paths (rewritten b h x) y).
Proof.
  intros Hb Hy. destruct (entry_eq_dec x y) as [->|Hne].
  - destruct y as [r|r|r]; simpl; unfold upd; rewrite Nat.eqb_refl; simpl;
      repeat constructor; auto.
  - destruct Hy as [Hy|Hy]; [contradiction|].
    pose proof (rewritten_other b h x y Hne) as Hu.
    destruct y as [r|r|r]; simpl in *; now rewrite Hu.
Qed.

Lemma forEach_rebase_checked (b : string) (l : list entry) :
  isAbsolute b = true ->
  forall h h',
    forEach (rebase_entry b) l h = (h', Returned tt) ->
    forall y,
      In y l \/ Forall (fun p => isAbsolute p = true) (checked_paths h y) ->
      Forall (fun p => isAbsolute p = true) (checked_paths h' y).
Proof.
  intros Hb. induction l as [|x l IH]; intros h h' H y Hy.
  - simpl in H. inversion H; subst. destruct Hy as [[]|Hy]. exact Hy.
  - apply forEach_cons_ok in H. destruct H as (h1 & Hx & Hl).
    destruct (rebase_entry_cases b x h) as [[_ Hr]|(p & _ & _ & Hr)];
      rewrite Hr in Hx; [|discriminate].
    inversion Hx; subst h1. apply (IH _ _ Hl).
    destruct Hy as [[->|Hy]|Hy].
    + right. apply rewritten_checked; auto.
    + now left.
    + right. apply rewritten_checked; auto.
Qed.

Lemma validated_paths_entries (h : Heap) (d : DataToPersist) (p : string) :
  In p (validated_paths h d) -> exists x, In x (entries d) /\ In p (checked_paths h x).
Proof.
  unfold validated_paths, entries. rewrite !in_app_iff. intros [H|[H|H]].
  - apply in_map_iff in H. destruct H as (r & <- & Hr). exists (File r).
    split; [|now left]. apply in_or_app. left. now apply in_map.
  - apply in_map_iff in H. destruct H as (r & <- & Hr). exists (Remove r).
    split; [|now left]. apply in_or_app. right. apply in_or_app. right. now apply in_map.
  - apply in_flat_map in H. destruct H as (r & Hr & Hp). exists (Link r).
    split; [|exact Hp]. apply in_or_app. right. apply in_or_app. left. now apply in_map.
Qed.

(** X9. A change-set rebased onto an absolute base passes the validation
    of a commit to the file system: when [addBasePath] returns, every path
    [_validate] checks is absolute.  (Of Node's [path.join]: joining onto an
    absolute path gives an absolute path; of [updatePaths]: a file given an
    absolute base has an absolute path.) *)
Theorem rebased_is_valid (d : DataToPersist) (b : string) (h h' : Heap) :
  isAbsolute b = true ->
  addBasePath d b h = (h', Returned tt) ->
  _validate h' d tt = (tt, Returned tt)
  /\ exists tr, persistAllToFS h' d tr (Returned tt).
Proof.
  intros Hb H. rewrite addBasePath_entries in H.
  assert (Hv : _validate h' d tt = (tt, Returned tt)).
  { pose proof (validate_result h' d) as Hr.
    destruct (_validate h' d tt) as [[] o]. simpl in Hr. f_equal. rewrite Hr.
    destruct (find _ (validated_paths h' d)) as [p|] eqn:Hf; [|reflexivity].
    exfalso. apply find_some in Hf. destruct Hf as [Hin Hp].
    apply validated_paths_entries in Hin. destruct Hin as (x & Hx & Hpx).
    pose proof (forEach_rebase_checked b (entries d) Hb h h' H x (or_introl Hx)) as Ha.
    rewrite Forall_forall in Ha. rewrite (Ha p Hpx) in Hp. discriminate. }
  split; [exact Hv|]. unfold persistAllToFS. rewrite Hv. simpl. apply awaitEach_can_return.
Qed.

End RebaseThenCommit.

(** ** Concrete runs *)

(** The remove-path "old", removed twice, is listed once. *)
Lemma remove_paths_listed_once_witness :
  built (P := Posix.path) Sample.heap SampleRuns.removed_twice
  /\ remove SampleRuns.removed_twice = [0]
  /\ NoDup (remove SampleRuns.removed_twice).
Proof.
  assert (Hb : built (P := Posix.path) Sample.heap SampleRuns.removed_twice).
  { unfold SampleRuns.removed_twice. apply built_removePath, built_removePath, built_new. }
  split; [exact Hb|]. split; [reflexivity|].
  exact (proj1 (remove_paths_listed_once (P := Posix.path) Sample.heap _ Hb)).
Defined.

Lemma built_well_formed_witness :
  built (P := Posix.path) Sample.heap Sample.with_bar_foo
  /\ NoDup (map (fun f => path (vinyl Sample.heap f)) (files Sample.with_bar_foo)).
Proof.
  assert (Hb : built (P := Posix.path) Sample.heap Sample.with_bar_foo).
  { unfold Sample.with_bar_foo. apply built_addFile, built_new. }
  split; [exact Hb|].
  exact (proj1 (proj2 (built_well_formed (P := Posix.path) Sample.heap _ Hb))).
Defined.

(** Merging "bar/foo" with [override] into a change-set that has
    "bar/foo": the file is replaced, the symlink and the remove-path come
    along. *)
Lemma merge_returned_witness :
  merge (P := Posix.path) Sample.heap (Some SampleRuns.overriding) Sample.with_bar_foo
  = ({| files := [3]; symlinks := [0]; remove := [0] |}, Returned tt)
  /\ (forall p, In p (write_paths Sample.heap {| files := [3]; symlinks := [0]; remove := [0] |})
                <-> In p (write_paths Sample.heap Sample.with_bar_foo)
                    \/ In p (write_paths Sample.heap SampleRuns.overriding)).
Proof.
  assert (H : merge (P := Posix.path) Sample.heap (Some SampleRuns.overriding)
                    Sample.with_bar_foo
              = ({| files := [3]; symlinks := [0]; remove := [0] |}, Returned tt))
    by reflexivity.
  split; [exact H|].
  exact (proj1 (merge_returned (P := Posix.path) Sample.heap _ _ _ H)).
Defined.

Lemma merge_into_new_witness :
  built (P := Posix.path) Sample.heap Sample.with_bar_foo
  /\ merge (P := Posix.path) Sample.heap (Some Sample.with_bar_foo) new_DataToPersist
     = (Sample.with_bar_foo, Returned tt).
Proof.
  assert (Hb : built (P := Posix.path) Sample.heap Sample.with_bar_foo).
  { unfold Sample.with_bar_foo. apply built_addFile, built_new. }
  split; [exact Hb|].
  exact (merge_into_new (P := Posix.path) Sample.heap _ Hb).
Defined.

(** Merging "bar" into a change-set that has "bar/foo" throws at that
    file. *)
Lemma merge_thrown_witness :
  merge (P := Posix.path) Sample.heap (Some SampleRuns.only_bar) Sample.with_bar_foo
  = (Sample.with_bar_foo, Thrown (DirectoryCollision "bar" "bar/foo"))
  /\ ((exists pre f post d1,
          files SampleRuns.only_bar = (pre ++ f :: post)%list
          /\ addManyFiles (P := Posix.path) Sample.heap pre Sample.with_bar_foo
             = (d1, Returned tt)
          /\ addFile (P := Posix.path) Sample.heap (Some f) d1
             = (Sample.with_bar_foo, Thrown (DirectoryCollision "bar" "bar/foo"))
          /\ remove Sample.with_bar_foo = remove Sample.with_bar_foo
          /\ symlinks Sample.with_bar_foo = symlinks Sample.with_bar_foo)
      \/ (exists pre s post d2,
             symlinks SampleRuns.only_bar = (pre ++ s :: post)%list
             /\ (addManyFiles (P := Posix.path) Sample.heap (files SampleRuns.only_bar) ;;
                 removeManyPaths (remove SampleRuns.only_bar))%js Sample.with_bar_foo
                = (d2, Returned tt)
             /\ Sample.with_bar_foo
                = set_symlinks (symlinks Sample.with_bar_foo ++ pre)%list d2
             /\ addSymlink Sample.heap s Sample.with_bar_foo
                = (Sample.with_bar_foo, Thrown (DirectoryCollision "bar" "bar/foo")))).
Proof.
  assert (H : merge (P := Posix.path) Sample.heap (Some SampleRuns.only_bar)
                    Sample.with_bar_foo
              = (Sample.with_bar_foo, Thrown (DirectoryCollision "bar" "bar/foo")))
    by reflexivity.
  split; [exact H|].
  exact (merge_thrown (P := Posix.path) Sample.heap _ _ _ _ H).
Defined.

Lemma sample_commit :
  persistAllToFS (P := Posix.path) Sample.heap Sample.absolute SampleRuns.fulfilled_trace
                 (Returned tt).
Proof.
  unfold persistAllToFS, SampleRuns.fulfilled_trace. simpl.
  apply (awaitEach_next [persistToFS 2] _
           [Started (persistToFS 2); Fulfilled (persistToFS 2)]).
  - apply (awaitAll_fulfilled [persistToFS 2] [persistToFS 2]). apply Permutation_refl.
  - apply (awaitEach_next [write_file 4] _
             [Started (write_file 4); Fulfilled (write_file 4)]).
    + apply (awaitAll_fulfilled [write_file 4] [write_file 4]). apply Permutation_refl.
    + apply (awaitEach_next [write_symlink 1] []
               [Started (write_symlink 1); Fulfilled (write_symlink 1)] []).
      * apply (awaitAll_fulfilled [write_symlink 1] [write_symlink 1]).
        apply Permutation_refl.
      * apply awaitEach_done.
Qed.

Lemma commit_returned_witness :
  persistAllToFS (P := Posix.path) Sample.heap Sample.absolute SampleRuns.fulfilled_trace
                 (Returned tt)
  /\ started_tasks SampleRuns.fulfilled_trace = [persistToFS 2; write_file 4; write_symlink 1]
  /\ rejected_tasks SampleRuns.fulfilled_trace = [].
Proof.
  split; [exact sample_commit|].
  destruct (proj1 (commit_returned (P := Posix.path) Sample.heap Sample.absolute
                                   SampleRuns.fulfilled_trace) sample_commit)
    as (_ & Hs & _ & Hr).
  split; [exact Hs|exact Hr].
Defined.

Lemma sample_rejected_commit :
  persistAllToFS (P := Posix.path) Sample.heap Sample.absolute SampleRuns.rejected_trace
                 (Thrown Rejection).
Proof.
  unfold persistAllToFS, SampleRuns.rejected_trace. simpl.
  apply awaitEach_throw.
  apply (awaitAll_rejected [persistToFS 2] [] (persistToFS 2) []). apply Permutation_refl.
Qed.

Lemma commit_thrown_witness :
  persistAllToFS (P := Posix.path) Sample.heap Sample.absolute SampleRuns.rejected_trace
                 (Thrown Rejection)
  /\ ((SampleRuns.rejected_trace = []
       /\ exists p, Rejection = ExpectsAbsolute p
                    /\ In p (validated_paths Sample.heap Sample.absolute)
                    /\ isAbsolute (NodePath := Posix.path) p = false)
      \/ (Rejection = Rejection
          /\ _validate (P := Posix.path) Sample.heap Sample.absolute tt = (tt, Returned tt)
          /\ exists t l rest,
              SampleRuns.rejected_trace = (l ++ [Rejected t])%list
              /\ rejected_tasks SampleRuns.rejected_trace = [t]
              /\ In t (started_tasks SampleRuns.rejected_trace)
              /\ concat (fs_batches Sample.heap Sample.absolute)
                 = (started_tasks SampleRuns.rejected_trace ++ rest)%list)).
Proof.
  split; [exact sample_rejected_commit|].
  exact (commit_thrown (P := Posix.path) Sample.heap Sample.absolute _ _
                       sample_rejected_commit).
Defined.

Lemma sample_removal :
  persistAllToFS (P := Posix.path) Sample.heap SampleRuns.two_removes
                 SampleRuns.removal_trace (Returned tt).
Proof.
  unfold persistAllToFS, SampleRuns.removal_trace. simpl.
  apply (awaitEach_next [removeFilesAndEmptyDirsRecursively ["/repo/old"]] _
           [Started (removeFilesAndEmptyDirsRecursively ["/repo/old"]);
            Fulfilled (removeFilesAndEmptyDirsRecursively ["/repo/old"])]).
  - apply (awaitAll_fulfilled [removeFilesAndEmptyDirsRecursively ["/repo/old"]]
                              [removeFilesAndEmptyDirsRecursively ["/repo/old"]]).
    apply Permutation_refl.
  - apply (awaitEach_next [persistToFS 2] _
             [Started (persistToFS 2); Fulfilled (persistToFS 2)]).
    + apply (awaitAll_fulfilled [persistToFS 2] [persistToFS 2]). apply Permutation_refl.
    + apply (awaitEach_next [] _ [] []).
      * apply (awaitAll_fulfilled [] []). apply Permutation_refl.
      * apply (awaitEach_next [] [] [] []).
        -- apply (awaitAll_fulfilled [] []). apply Permutation_refl.
        -- apply awaitEach_done.
Qed.

Lemma remove_phase_order_witness :
  persistAllToFS (P := Posix.path) Sample.heap SampleRuns.two_removes
                 SampleRuns.removal_trace (Returned tt)
  /\ In (Fulfilled (removeFilesAndEmptyDirsRecursively
                      (flagged_paths Sample.heap SampleRuns.two_removes)))
        [Started (removeFilesAndEmptyDirsRecursively ["/repo/old"]);
         Fulfilled (removeFilesAndEmptyDirsRecursively ["/repo/old"])].
Proof.
  split; [exact sample_removal|].
  refine (proj2 (proj2 (proj2 (remove_phase_order (P := Posix.path) Sample.heap
                                 SampleRuns.two_removes _ _ sample_removal)
                              [Started (removeFilesAndEmptyDirsRecursively ["/repo/old"]);
                               Fulfilled (removeFilesAndEmptyDirsRecursively ["/repo/old"])]
                              2 [Fulfilled (persistToFS 2)] eq_refl)) _).
  discriminate.
Defined.

Lemma sample_updatePaths_absolute (newBase : string) (f : AbstractVinyl) :
  isAbsolute (NodePath := Posix.path) newBase = true ->
  isAbsolute (NodePath := Posix.path)
             (path (updatePaths (VinylMethods := Sample.methods) newBase f)) = true.
Proof. intros H. simpl. now apply posix_join_absolute. Qed.

(** The relative change-set of [Sample], rebased onto "/repo", can be
    committed. *)
Lemma rebased_is_valid_witness :
  isAbsolute (NodePath := Posix.path) "/repo" = true
  /\ addBasePath (P := Posix.path) (V := Sample.methods) Sample.relative "/repo" Sample.heap
     = (fst (addBasePath (P := Posix.path) (V := Sample.methods) Sample.relative "/repo"
                         Sample.heap), Returned tt)
  /\ _validate (P := Posix.path)
               (fst (addBasePath (P := Posix.path) (V := Sample.methods) Sample.relative
                                 "/repo" Sample.heap))
               Sample.relative tt
     = (tt, Returned tt).
Proof.
  split; [reflexivity|]. split; [reflexivity|].
  exact (proj1 (rebased_is_valid (P := Posix.path) (V := Sample.methods)
                  posix_join_absolute sample_updatePaths_absolute
                  Sample.relative "/repo" Sample.heap _ eq_refl eq_refl)).
Defined.

(** ** Dictionaries *)

Import Add.

Lemma dict_get_set {A : Type} (o : dict A) (k k' : string) (v : A) :
  dict_get (dict_set o k v) k' = if String.eqb k k' then Some v else dict_get o k'.
Proof.
  induction o as [|[k0 v0] o IH]; simpl.
  - reflexivity.
  - destruct (String.eqb k0 k) eqn:H0; simpl.
    + apply String.eqb_eq in H0. subst k0. now destruct (String.eqb k k').
    + destruct (String.eqb k0 k') eqn:H1.
      * apply String.eqb_eq in H1. subst k0. now rewrite String.eqb_sym, H0.
      * exact IH.
Qed.

Lemma keys_dict_set {A : Type} (o : dict A) (k k' : string) (v : A) :
  In k' (keys (dict_set o k v)) <-> k' = k \/ In k' (keys o).
Proof.
  unfold keys. induction o as [|[k0 v0] o IH]; simpl.
  - intuition.
  - destruct (String.eqb k0 k) eqn:H0; simpl.
    + apply String.eqb_eq in H0. subst. intuition.
    + rewrite IH. intuition.
Qed.

Lemma dict_get_In {A : Type} (o : dict A) (k : string) (v : A) :
  dict_get o k = Some v -> In (k, v) o.
Proof.
  induction o as [|[k0 v0] o IH]; simpl; [discriminate|].
  destruct (String.eqb k0 k) eqn:H0.
  - apply String.eqb_eq in H0. intros H. inversion H. subst. now left.
  - intros H. right. now apply IH.
Qed.

(** A group holds, in order, the elements that have its key. *)
Lemma groupBy_fold {A : Type} (key : A -> string) (l : list A) (acc : dict (list A))
      (k : string) :
  dict_get
    (fold_left (fun o x =>
                  dict_set o (key x)
                           (match dict_get o (key x) with
                            | Some group => group ++ [x]
                            | None => [x]
                            end)%list)
               l acc) k
  = match dict_get acc k with
    | Some g => Some (g ++ filter (fun x => String.eqb (key x) k) l)%list
    | None =>
        match filter (fun x => String.eqb (key x) k) l with
        | [] => None
        | x :: g => Some (x :: g)
        end
    end.
Proof.
  revert acc. induction l as [|x l IH]; intros acc; simpl.
  - destruct (dict_get acc k); [now rewrite app_nil_r|reflexivity].
  - rewrite IH, dict_get_set. destruct (String.eqb (key x) k) eqn:Hk.
    + apply String.eqb_eq in Hk. subst k.
      destruct (dict_get acc (key x)); [now rewrite <- app_assoc|reflexivity].
    + reflexivity.
Qed.

Lemma groupBy_get {A : Type} (key : A -> string) (l : list A) (k : string) :
  dict_get (groupBy key l) k
  = match filter (fun x => String.eqb (key x) k) l with
    | [] => None
    | x :: g => Some (x :: g)
    end.
Proof. unfold groupBy. now rewrite groupBy_fold. Qed.

Lemma filter_two {A : Type} (f : A -> bool) (l : list A) (i j : nat) (a b : A) :
  i <> j -> nth_error l i = Some a -> nth_error l j = Some b ->
  f a = true -> f b = true ->
  1 < List.length (filter f l).
Proof.
  assert (one : forall l i a, nth_error l i = Some a -> f a = true ->
                              0 < List.length (filter f l)).
  { intros l0. induction l0 as [|x l0 IH]; intros i0 a0 H0 Ha0.
    - destruct i0; discriminate.
    - simpl. destruct i0 as [|i0]; simpl in H0.
      + inversion H0; subst. rewrite Ha0. simpl. lia.
      + specialize (IH i0 a0 H0 Ha0). destruct (f x); simpl; lia. }
  revert i j. induction l as [|x l IH]; intros i j Hij Hi Hj Ha Hb.
  - destruct i; discriminate.
  - simpl. destruct i as [|i], j as [|j]; simpl in Hi, Hj; try lia.
    + inversion Hi; subst. rewrite Ha. simpl. specialize (one l j b Hj Hb). lia.
    + inversion Hj; subst. rewrite Hb. simpl. specialize (one l i a Hi Ha). lia.
    + assert (H : 1 < List.length (filter f l)) by (apply (IH i j); auto).
      destruct (f x); simpl; lia.
Qed.

(** ** The add resolver *)

Section ResolverFacts.

Context {P : NodePath} {I : BitIdClass} {B : BitMapClass} {U : Utils}.





(** *** One call of [addOneComponent] *)

Lemma mapM_call_state (id main namespace : option string) (tests : list string)
      (exclude : option (list string)) (l : dict bool) (s : State) :
  fst (mapM (fun stat => call_addOneComponent id main namespace tests exclude [stat]) l s) = s.
Proof.
  induction l as [|x l IH]; simpl; [reflexivity|].
  unfold bind, call_addOneComponent at 1.
  destruct (snd (addOneComponent _ _ _ _ _ _ _ _)); [|reflexivity].
  destruct (mapM _ l s) as [s' [ys|e]]; simpl in *; now subst.
Qed.

(** *** Duplicate ids *)

Lemma duplicateIds_found (cands : list Component) (i j : nat) (ci cj : Component) :
  i <> j -> nth_error cands i = Some ci -> nth_error cands j = Some cj ->
  toString (componentId ci) = toString (componentId cj) ->
  exists group,
    In (toString (componentId ci), group) (duplicateIds cands)
    /\ In ci group /\ In cj group.
Proof.
  intros Hij Hi Hj Hid.
  set (k := toString (componentId ci)) in *.
  set (f := fun c => String.eqb (toString (componentId c)) k).
  assert (Hfi : f ci = true) by (unfold f; apply String.eqb_refl).
  assert (Hfj : f cj = true) by (unfold f; rewrite <- Hid; apply String.eqb_refl).
  pose proof (filter_two f cands i j ci cj Hij Hi Hj Hfi Hfj) as Hlen.
  assert (Hget : dict_get (groupBy (fun c => toString (componentId c)) cands) k
                 = match filter f cands with
                   | [] => None
                   | x :: g => Some (x :: g)
                   end)
    by (rewrite groupBy_get; reflexivity).
  exists (filter f cands). split.
  - unfold duplicateIds. apply filter_In. split.
    + apply dict_get_In. rewrite Hget. destruct (filter f cands); [simpl in Hlen; lia|].
      reflexivity.
    + simpl. now apply Nat.ltb_lt.
  - split; apply filter_In; split; auto; eapply nth_error_In; eassumption.
Qed.


End ResolverFacts.

(** ** Reconciling a candidate with the index *)

Section ReconcileFacts.

Context {P : NodePath} {I : BitIdClass} {B : BitMapClass} {U : Utils}.

Lemma reconcile_found_file_auto (consumerPath : string) (id : option string)
      (key : string) (parsed : BitId) (found : ComponentMap) (file : ComponentMapFile)
      (s : State) :
  isAutoGeneratedFile (join consumerPath (relativePath file)) = true ->
  reconcile_found_file consumerPath id key parsed found file s = (s, Returned (found, None)).
Proof.
  intros Ha. unfold reconcile_found_file. now rewrite Ha.
Qed.

Lemma reconcile_found_file_missing (consumerPath : string) (id : option string)
      (key : string) (parsed : BitId) (found : ComponentMap) (file : ComponentMapFile)
      (s : State) :
  truthy key = true -> truthyO (rootDir found) = true ->
  isAutoGeneratedFile (join consumerPath (relativePath file)) = false ->
  truthyO id = false ->
  reconcile_found_file consumerPath id key parsed found file s
  = (s, Thrown (MissingComponentIdForImportedComponent (toStringWithoutVersion parsed))).
Proof.
  intros Hk Hr Ha Hid. unfold reconcile_found_file. rewrite Ha, Hk, Hr. simpl.
  destruct id as [i|]; [|reflexivity]. simpl in Hid. now rewrite Hid.
Qed.

Lemma reconcile_found_file_incorrect (consumerPath : string) (i : string)
      (key : string) (parsed : BitId) (found : ComponentMap) (file : ComponentMapFile)
      (s : State) :
  truthy key = true -> truthyO (rootDir found) = true ->
  isAutoGeneratedFile (join consumerPath (relativePath file)) = false ->
  truthy i = true ->
  toStringWithoutScopeAndVersion parsed <> i ->
  toStringWithoutVersion parsed <> i ->
  reconcile_found_file consumerPath (Some i) key parsed found file s
  = (s, Thrown (IncorrectIdForImportedComponent (toStringWithoutVersion parsed) i)).
Proof.
  intros Hk Hr Ha Hi H1 H2. unfold reconcile_found_file. rewrite Ha, Hk, Hr, Hi. simpl.
  apply String.eqb_neq in H1. apply String.eqb_neq in H2. now rewrite H1, H2.
Qed.

(** The files of a found group are visited in order: the auto-generated
    ones are passed over, and a throw on any other file ends the visit. *)
Lemma reconcile_found_files_throw (consumerPath : string) (id : option string)
      (key : string) (parsed : BitId) (found : ComponentMap)
      (fileList : list ComponentMapFile) (s : State) (e : AddError) :
  (forall file,
      isAutoGeneratedFile (join consumerPath (relativePath file)) = false ->
      reconcile_found_file consumerPath id key parsed found file s = (s, Thrown e)) ->
  (exists file, In file fileList
                /\ isAutoGeneratedFile (join consumerPath (relativePath file)) = false) ->
  reconcile_found_files consumerPath id key parsed found fileList s = (s, Thrown e).
Proof.
  intros Hthrow. induction fileList as [|x l IH]; intros (file & Hin & Ha).
  - destruct Hin.
  - simpl. unfold bind.
    destruct (isAutoGeneratedFile (join consumerPath (relativePath x))) eqn:Hx.
    + rewrite (reconcile_found_file_auto _ _ _ _ _ _ _ Hx). simpl.
      destruct Hin as [->|Hin]; [congruence|].
      rewrite IH; [reflexivity|]. exists file. auto.
    + now rewrite (Hthrow x Hx).
Qed.

Lemma reconcile_group_throw (consumerPath : string) (id : option string) (override : bool)
      (component : Component) (group : string * list (string * ComponentMapFile))
      (found : ComponentMap) (s : State) (e : AddError) :
  getComponent (bitMap s) (fst group) true = Some found ->
  reconcile_found_files consumerPath id (fst group) (parse (fst group)) found
                        (map snd (snd group)) s = (s, Thrown e) ->
  reconcile_group consumerPath id override component group s = (s, Thrown e).
Proof.
  intros Hfound Hfiles. unfold reconcile_group, bind, gets. rewrite Hfound.
  now rewrite Hfiles.
Qed.

(** A throw in the callback of one group ends the whole [map]. *)
Lemma reconcile_groups_throw (consumerPath : string) (id : option string) (override : bool)
      (pre : dict (list (string * ComponentMapFile)))
      (group : string * list (string * ComponentMapFile))
      (post : dict (list (string * ComponentMapFile)))
      (component c1 : Component) (rs : list (option Added)) (s s1 s2 : State) (e : AddError) :
  reconcile_groups consumerPath id override component pre s = (s1, Returned (c1, rs)) ->
  reconcile_group consumerPath id override c1 group s1 = (s2, Thrown e) ->
  reconcile_groups consumerPath id override component (pre ++ group :: post)%list s
  = (s2, Thrown e).
Proof.
  revert component s rs. induction pre as [|g pre IH]; intros component s rs Hpre Hg; simpl.
  - simpl in Hpre. inversion Hpre; subst. unfold bind. now rewrite Hg.
  - simpl in Hpre. unfold bind in *.
    destruct (reconcile_group consumerPath id override component g s) as [s' [r|e']];
      [|discriminate].
    destruct (reconcile_groups consumerPath id override (fst r) pre s') as [s'' [[c' rs']|e']]
      eqn:Hrest; [|discriminate].
    simpl in Hpre. inversion Hpre; subst.
    now rewrite (IH _ _ _ Hrest Hg).
Qed.

(** C6, as the code has it.  When the files of a candidate are reconciled
    group by group and the group reached is one whose id is found in the
    index with a root directory, and one of its files is not an
    auto-generated file: without an id the reconciliation throws the
    missing-id error, naming, without version, the id of the group; with an
    id that is neither that id without scope and version nor that id without
    version, it throws the incorrect-id error naming that id without version
    and the id supplied.  Nothing is added to the index for that group. *)
Theorem C6_imported_entry (consumerPath : string) (id : option string) (override : bool)
        (component c1 : Component) (s s1 : State)
        (pre post : dict (list (string * ComponentMapFile)))
        (group : string * list (string * ComponentMapFile))
        (rs : list (option Added)) (found : ComponentMap) :
  groupFilesByComponentId (componentId component) (files component) (bitMap s)
  = (pre ++ group :: post)%list ->
  reconcile_groups consumerPath id override component pre s = (s1, Returned (c1, rs)) ->
  getComponent (bitMap s1) (fst group) true = Some found ->
  truthyO (rootDir found) = true ->
  fst group <> EmptyString ->
  (exists file, In file (map snd (snd group))
                /\ isAutoGeneratedFile (join consumerPath (relativePath file)) = false) ->
  (truthyO id = false ->
   addOrUpdateExistingComponentsInBitMap consumerPath id override component s
   = (s1, Thrown (MissingComponentIdForImportedComponent
                    (toStringWithoutVersion (parse (fst group))))))
  /\ (forall i,
         id = Some i -> i <> EmptyString ->
         toStringWithoutScopeAndVersion (parse (fst group)) <> i ->
         toStringWithoutVersion (parse (fst group)) <> i ->
         addOrUpdateExistingComponentsInBitMap consumerPath id override component s
         = (s1, Thrown (IncorrectIdForImportedComponent
                          (toStringWithoutVersion (parse (fst group))) i))).
Proof.
  intros Hgroups Hpre Hfound Hroot Hkey Hfile.
  apply truthy_true in Hkey.
  assert (Hall : forall e,
             (forall file,
                 isAutoGeneratedFile (join consumerPath (relativePath file)) = false ->
                 reconcile_found_file consumerPath id (fst group) (parse (fst group)) found
                                      file s1 = (s1, Thrown e)) ->
             addOrUpdateExistingComponentsInBitMap consumerPath id override component s
             = (s1, Thrown e)).
  { intros e He. unfold addOrUpdateExistingComponentsInBitMap, bind, gets.
    rewrite Hgroups.
    rewrite (reconcile_groups_throw consumerPath id override pre group post
               component c1 rs s s1 s1 e Hpre); [reflexivity|].
    apply (reconcile_group_throw _ _ _ _ _ found); [assumption|].
    now apply reconcile_found_files_throw. }
  split.
  - intros Hid. apply Hall. intros file Ha. now apply reconcile_found_file_missing.
  - intros i -> Hi H1 H2. apply Hall. intros file Ha.
    apply reconcile_found_file_incorrect; auto. now apply truthy_true.
Qed.

(** *** The guard on Nested entries *)

Lemma updateId_nested (bm : BitMap) (currentId existing : string) (c : ComponentMap)
      (parsedId : option BitId) :
  getExistingComponentId bm currentId = Some existing ->
  existing <> EmptyString ->
  getComponent bm existing false = Some c ->
  origin c = NESTED ->
  updateIdAccordingToExistingComponent bm currentId parsedId
  = (parsedId, Thrown (DependencyHasSameName existing)).
Proof.
  intros He Hne Hc Ho. apply truthy_true in Hne.
  unfold updateIdAccordingToExistingComponent. rewrite He. simpl. rewrite Hne, Hc, Ho.
  reflexivity.
Qed.

(** With an id that resolves to a Nested entry, [addAction] throws before
    it looks at any path; the index is neither changed nor written. *)
Lemma nested_guard_explicit_id (componentPaths : list string) (i : string)
      (main namespace : option string) (tests : list string)
      (exclude : option (list string)) (override : bool) (s : State)
      (componentPathsStats : dict bool) (existing : string) (c : ComponentMap) :
  getMissingTestFiles tests = [] ->
  resolveComponentPaths componentPaths (Some i) tests = Returned componentPathsStats ->
  i <> EmptyString ->
  getExistingComponentId (bitMap s) i = Some existing ->
  existing <> EmptyString ->
  getComponent (bitMap s) existing false = Some c ->
  origin c = NESTED ->
  addAction componentPaths (Some i) main namespace tests exclude override s
  = (s, Thrown (DependencyHasSameName existing)).
Proof.
  intros Hmiss Hres Hi He Hne Hc Ho. apply truthy_true in Hi.
  unfold addAction. rewrite Hmiss. simpl. unfold bind at 1. unfold lift. rewrite Hres.
  simpl. rewrite Hi. rewrite andb_false_r.
  unfold bind at 1. unfold bind at 1. unfold call_addOneComponent, addOneComponent.
  rewrite Hi. unfold bind at 1.
  now rewrite (updateId_nested _ _ _ _ _ He Hne Hc Ho).
Qed.

(** With no id and one path that is a file, the id derived from the path is
    resolved the same way, and guarded the same way. *)
Lemma nested_guard_file (componentPaths : list string) (id : option string)
      (main namespace : option string) (tests : list string)
      (exclude : option (list string)) (override : bool) (s : State)
      (componentPath existing : string) (c : ComponentMap) :
  getMissingTestFiles tests = [] ->
  resolveComponentPaths componentPaths id tests = Returned [(componentPath, false)] ->
  truthyO id = false ->
  getExistingComponentId (bitMap s)
    (toString
       (getValidBitId
          (orO namespace
               (from_end 1 (path_split
                              (if truthy (path_parse_dir (path_resolve componentPath))
                               then path_parse_dir (path_resolve componentPath)
                               else path_dirname (path_resolve componentPath)))))
          (Some (path_parse_name (path_resolve componentPath)))))
  = Some existing ->
  existing <> EmptyString ->
  getComponent (bitMap s) existing false = Some c ->
  origin c = NESTED ->
  addAction componentPaths id main namespace tests exclude override s
  = (s, Thrown (DependencyHasSameName existing)).
Proof.
  intros Hmiss Hres Hid He Hne Hc Ho.
  unfold addAction. rewrite Hmiss. simpl. unfold bind at 1. unfold lift. rewrite Hres.
  simpl. unfold bind at 1. unfold bind at 1.
  unfold call_addOneComponent, addOneComponent.
  assert (Hfirst : (match id with
                    | Some idOrFoundID =>
                        if truthy idOrFoundID
                        then updateIdAccordingToExistingComponent (bitMap s) idOrFoundID
                        else ret tt
                    | None => ret tt
                    end) None = (None, Returned tt)).
  { destruct id as [i|]; [|reflexivity]. simpl in Hid. now rewrite Hid. }
  unfold bind at 1. rewrite Hfirst. simpl. unfold bind at 1. unfold bind at 1.
  unfold add_file. unfold bind at 1. unfold gets at 1. unfold bind at 1.
  unfold bind at 1. unfold modify at 1.
  now rewrite (updateId_nested _ _ _ _ _ He Hne Hc Ho).
Qed.

End ReconcileFacts.

Section DirectoryFacts.

Context {P : NodePath} {I : BitIdClass} {B : BitMapClass} {U : Utils}.

Lemma mapM_single {E S A R : Type} (f : A -> M E S R) (x : A) (s : S) :
  mapM f [x] s
  = match f x s with
    | (s', Returned y) => (s', Returned [y])
    | (s', Thrown e) => (s', Thrown e)
    end.
Proof.
  simpl. unfold bind, ret. now destruct (f x s) as [s' [y|e]].
Qed.

Lemma add_directory_cases (main namespace : option string) (tests : list string)
      (componentPath : string) :
  add_directory main namespace tests componentPath None = (None, Thrown EmptyDirectory)
  \/ exists c parsedId,
      add_directory main namespace tests componentPath None = (parsedId, Returned c)
      /\ componentId c
         = getValidBitId (orO namespace (from_end 2 (path_split (path_resolve componentPath))))
                         (from_end 1 (path_split (path_resolve componentPath))).
Proof.
  unfold add_directory.
  destruct (gitIgnore_filter _) as [|m ms]; [left; reflexivity|].
  right. unfold bind, gets, modify, ret. eexists. eexists. split; reflexivity.
Qed.

(** A single directory, no id: [addOneComponent] never asks the index
    whether the id it derives is taken by a Nested entry. *)
Lemma addOneComponent_directory (bm : BitMap) (id main namespace : option string)
      (tests : list string) (exclude : option (list string)) (componentPath : string) :
  truthyO id = false ->
  snd (addOneComponent bm id main namespace tests exclude [(componentPath, true)] None)
  = Thrown EmptyDirectory
  \/ exists c,
      snd (addOneComponent bm id main namespace tests exclude [(componentPath, true)] None)
      = Returned c
      /\ componentId c
         = getValidBitId (orO namespace (from_end 2 (path_split (path_resolve componentPath))))
                         (from_end 1 (path_split (path_resolve componentPath))).
Proof.
  intros Hid.
  assert (Hfirst : (match id with
                    | Some idOrFoundID =>
                        if truthy idOrFoundID
                        then updateIdAccordingToExistingComponent bm idOrFoundID
                        else ret tt
                    | None => ret tt
                    end) None = (None, Returned tt)).
  { destruct id as [i|]; [|reflexivity]. simpl in Hid. now rewrite Hid. }
  unfold addOneComponent, bind. rewrite Hfirst, mapM_single. cbn [fst snd].
  destruct (add_directory_cases main namespace tests componentPath)
    as [Hd|(c0 & st & Hd & Hc0)]; rewrite Hd; [left; reflexivity|right].
  assert (Hex : exists c1, match exclude with
                           | Some excluded => removeExcludedFiles [c0] excluded
                           | None => [c0]
                           end = [c1] /\ componentId c1 = componentId c0).
  { destruct exclude as [ex|]; [|exists c0; auto].
    unfold removeExcludedFiles. cbn [map].
    destruct (match option_map pathNormalizeToLinux (mainFile c0) with
              | Some m0 => includes _ m0
              | None => false
              end); eexists; split; reflexivity. }
  destruct Hex as (c1 & -> & Hc1). cbn [filter].
  destruct (negb (Nat.eqb (List.length (files c1)) 0)); eexists; split; try reflexivity;
    cbn [componentId snd]; congruence.
Qed.

End DirectoryFacts.

(** ** Nothing is written when [addAction] throws *)

Section WriteFacts.

Context {P : NodePath} {I : BitIdClass} {B : BitMapClass} {U : Utils}.

Lemma mapM_invariant {E S A R : Type} (Inv : S -> Prop) (f : A -> M E S R) (l : list A) :
  (forall x s, Inv s -> Inv (fst (f x s))) ->
  forall s, Inv s -> Inv (fst (mapM f l s)).
Proof.
  intros Hf. induction l as [|x l IH]; intros s Hs; simpl; [exact Hs|].
  apply (bind_invariant Inv); [now apply Hf|]. intros y s1 H1.
  apply (bind_invariant Inv); [now apply IH|]. intros ys s2 H2. exact H2.
Qed.

Lemma warn_written (tested key relPath : string) (s : State) :
  written (fst (warn tested key relPath s)) = written s.
Proof.
  unfold warn. destruct (dict_get (warnings s) tested); [|reflexivity].
  now destruct (dict_get (warnings s) key).
Qed.

Lemma addToBitMap_written (w : list BitMap) (override : bool) (component : Component)
      (s : State) :
  written s = w -> written (fst (addToBitMap override component s)) = w.
Proof.
  intros Hs. unfold addToBitMap, bind, modify, gets. simpl.
  now destruct (getComponent _ _ false).
Qed.

Lemma reconcile_found_file_written (w : list BitMap) (consumerPath : string)
      (id : option string) (key : string) (parsed : BitId) (found : ComponentMap)
      (file : ComponentMapFile) (s : State) :
  written s = w ->
  written (fst (reconcile_found_file consumerPath id key parsed found file s)) = w.
Proof.
  intros Hs. unfold reconcile_found_file.
  assert (Hnot : forall s0, written s0 = w ->
             written (fst ((tracked <- gets (fun s => getComponentIdByPath (bitMap s)
                                                                         (relativePath file)) ;;
                            (if match tracked with
                                | Some t => negb (String.eqb t (toString parsed))
                                | None => true
                                end
                             then warn key key (relativePath file)
                             else ret tt) ;;
                            ret (found, Some file))%js s0)) = w).
  { intros s0 H0. unfold bind, gets.
    destruct (match getComponentIdByPath (bitMap s0) (relativePath file) with
              | Some t => negb (String.eqb t (toString parsed))
              | None => true
              end).
    - pose proof (warn_written key key (relativePath file) s0) as Hw.
      destruct (warn key key (relativePath file) s0) as [s1 [[]|e]]; simpl in *; congruence.
    - exact H0. }
  destruct (negb (isAutoGeneratedFile _)); [|exact Hs].
  destruct (truthy key && truthyO (rootDir found)); [|now apply Hnot].
  destruct id as [i|]; [|exact Hs].
  destruct (negb (truthy i)); [exact Hs|].
  destruct (negb (String.eqb _ i) && negb (String.eqb _ i)); [exact Hs|].
  destruct (find _ (entry_files found)); [exact Hs|now apply Hnot].
Qed.

Lemma reconcile_found_files_written (w : list BitMap) (consumerPath : string)
      (id : option string) (key : string) (parsed : BitId)
      (fileList : list ComponentMapFile) :
  forall (found : ComponentMap) (s : State),
    written s = w ->
    written (fst (reconcile_found_files consumerPath id key parsed found fileList s)) = w.
Proof.
  induction fileList as [|x l IH]; intros found s Hs; simpl; [exact Hs|].
  apply (bind_invariant (fun s => written s = w)).
  - now apply reconcile_found_file_written.
  - intros r s1 H1. apply (bind_invariant (fun s => written s = w)); [now apply IH|].
    intros rs s2 H2. exact H2.
Qed.

Lemma reconcile_group_written (w : list BitMap) (consumerPath : string) (id : option string)
      (override : bool) (component : Component)
      (group : string * list (string * ComponentMapFile)) (s : State) :
  written s = w ->
  written (fst (reconcile_group consumerPath id override component group s)) = w.
Proof.
  intros Hs. unfold reconcile_group.
  apply (bind_invariant (fun s => written s = w)); [exact Hs|].
  intros [found|] s1 H1.
  - apply (bind_invariant (fun s => written s = w));
      [now apply reconcile_found_files_written|].
    intros kept s2 H2. apply (bind_invariant (fun s => written s = w)); [exact H2|].
    intros located s3 H3. apply (bind_invariant (fun s => written s = w));
      [now apply addToBitMap_written|].
    intros added s4 H4. exact H4.
  - apply (bind_invariant (fun s => written s = w)).
    + apply (mapM_invariant (fun s => written s = w)); [|exact H1].
      intros x s0 H0. unfold reconcile_new_file.
      apply (bind_invariant (fun s => written s = w)); [exact H0|].
      intros [i|] s2 H2; [|exact H2]. destruct (truthy i); [|exact H2].
      apply (bind_invariant (fun s => written s = w)).
      * now rewrite warn_written.
      * intros _ s3 H3. exact H3.
    + intros kept s2 H2. destruct (defined kept); [exact H2|].
      apply (bind_invariant (fun s => written s = w)); [now apply addToBitMap_written|].
      intros added s3 H3. exact H3.
Qed.

Lemma addOrUpdate_written (w : list BitMap) (consumerPath : string) (id : option string)
      (override : bool) (component : Component) (s : State) :
  written s = w ->
  written (fst (addOrUpdateExistingComponentsInBitMap consumerPath id override component s))
  = w.
Proof.
  intros Hs. unfold addOrUpdateExistingComponentsInBitMap.
  apply (bind_invariant (fun s => written s = w)); [exact Hs|].
  intros groups s1 H1. apply (bind_invariant (fun s => written s = w)).
  - clear Hs. revert component s1 H1.
    induction groups as [|g groups IH]; intros component s1 H1; simpl; [exact H1|].
    apply (bind_invariant (fun s => written s = w)); [now apply reconcile_group_written|].
    intros r s2 H2. apply (bind_invariant (fun s => written s = w)); [now apply IH|].
    intros rs s3 H3. exact H3.
  - intros r s2 H2. exact H2.
Qed.

(** Whatever [addAction] throws, it throws before [bitMap.write()]: the
    index on disk is the one it found. *)
Lemma addAction_throw_unwritten (componentPaths : list string)
      (id main namespace : option string) (tests : list string)
      (exclude : option (list string)) (override : bool) (s s' : State) (e : AddError) :
  addAction componentPaths id main namespace tests exclude override s = (s', Thrown e) ->
  written s' = written s.
Proof.
  unfold addAction. destruct (negb (isEmpty (getMissingTestFiles tests))).
  { intros H. now inversion H. }
  unfold bind at 1. unfold lift.
  destruct (resolveComponentPaths componentPaths id tests) as [stats|e0].
  2:{ intros H. now inversion H. }
  unfold bind at 1.
  match goal with
  | |- context [match ?m s with _ => _ end] => set (stage := m)
  end.
  assert (Hstage : written (fst (stage s)) = written s).
  { unfold stage. destruct (Nat.ltb 1 _ && negb (truthyO id)).
    - apply (bind_invariant (fun s0 => written s0 = written s)).
      + now rewrite mapM_call_state.
      + intros cands s1 H1. apply (bind_invariant (fun s0 => written s0 = written s)).
        * unfold validateNoDuplicateIds. now destruct (duplicateIds cands).
        * intros _ s2 H2. apply (mapM_invariant (fun s0 => written s0 = written s));
            [|exact H2].
          intros c s3 H3. destruct (negb (isEmpty (files c))); [|exact H3].
          now apply addOrUpdate_written.
    - apply (bind_invariant (fun s0 => written s0 = written s)); [reflexivity|].
      intros c s1 H1. destruct (negb (isEmpty (files c))); [|exact H1].
      apply (bind_invariant (fun s0 => written s0 = written s));
        [now apply addOrUpdate_written|].
      intros r s2 H2. exact H2. }
  destruct (stage s) as [s1 [added|e1]]; simpl in Hstage.
  - unfold bind, write, modify, gets, ret. intros H. inversion H.
  - intros H. inversion H; subst. exact Hstage.
Qed.

End WriteFacts.

(** * Further properties of the add resolver *)

(** ** More on dictionaries and groups *)

Lemma dict_set_keys_NoDup {A : Type} (o : dict A) (k : string) (v : A) :
  NoDup (keys o) -> NoDup (keys (dict_set o k v)).
Proof.
  unfold keys. induction o as [|[k0 v0] o IH]; simpl; intros H.
  - constructor; [intros []|constructor].
  - inversion H; subst. destruct (String.eqb k0 k) eqn:Hk; simpl.
    + now constructor.
    + constructor; [|now apply IH].
      intros Hin. apply (keys_dict_set o k k0 v) in Hin. destruct Hin as [->|Hin].
      * rewrite String.eqb_refl in Hk. discriminate.
      * contradiction.
Qed.

Lemma In_dict_get {A : Type} (o : dict A) (k : string) (v : A) :
  NoDup (keys o) -> In (k, v) o -> dict_get o k = Some v.
Proof.
  unfold keys. induction o as [|[k0 v0] o IH]; simpl; intros Hn Hin; [destruct Hin|].
  inversion Hn; subst. destruct Hin as [Heq|Hin].
  - inversion Heq; subst. now rewrite String.eqb_refl.
  - destruct (String.eqb k0 k) eqn:Hk.
    + apply String.eqb_eq in Hk. subst k0. exfalso. apply H1.
      now apply (in_map fst o (k, v)).
    + now apply IH.
Qed.

Lemma dict_set_values {A : Type} (o : dict (list A)) (k : string) (x : A) :
  Permutation
    (concat (map snd (dict_set o k (match dict_get o k with
                                    | Some group => group ++ [x]
                                    | None => [x]
                                    end)%list)))
    (concat (map snd o) ++ [x])%list.
Proof.
  induction o as [|[k0 g0] o IH]; simpl.
  - apply Permutation_refl.
  - destruct (String.eqb k0 k) eqn:Hk; simpl.
    + rewrite <- !app_assoc. apply Permutation_app_head. apply Permutation_app_comm.
    + rewrite <- app_assoc. apply Permutation_app_head. exact IH.
Qed.

Lemma groupBy_fold_facts {A : Type} (key : A -> string) (l : list A) :
  forall acc : dict (list A),
    NoDup (keys acc) ->
    let r := fold_left (fun o x =>
                          dict_set o (key x)
                                   (match dict_get o (key x) with
                                    | Some group => group ++ [x]
                                    | None => [x]
                                    end)%list) l acc in
    NoDup (keys r)
    /\ Permutation (concat (map snd r)) (concat (map snd acc) ++ l)%list.
Proof.
  induction l as [|x l IH]; intros acc Hn; simpl.
  - split; [assumption|]. now rewrite app_nil_r.
  - set (acc' := dict_set acc (key x) _).
    destruct (IH acc' (dict_set_keys_NoDup acc (key x) _ Hn)) as [H1 H2].
    split; [exact H1|]. eapply Permutation_trans; [exact H2|].
    change (x :: l) with ([x] ++ l)%list. rewrite app_assoc.
    apply Permutation_app_tail. apply dict_set_values.
Qed.

(** Grouping is a partition: the keys are distinct, no group is empty, a
    group holds in order the elements of its key, and nothing is lost or
    repeated. *)
Lemma groupBy_partition {A : Type} (key : A -> string) (l : list A) :
  NoDup (keys (groupBy key l))
  /\ (forall k g, In (k, g) (groupBy key l) ->
                  g <> [] /\ g = filter (fun x => String.eqb (key x) k) l)
  /\ Permutation (concat (map snd (groupBy key l))) l.
Proof.
  destruct (groupBy_fold_facts key l [] (NoDup_nil _)) as [Hn Hp]. fold (groupBy key l) in Hn, Hp.
  split; [exact Hn|]. split; [|exact Hp].
  intros k g Hin. apply (In_dict_get _ _ _ Hn) in Hin.
  assert (Hget : dict_get (groupBy key l) k
                 = match filter (fun x => String.eqb (key x) k) l with
                   | [] => None
                   | x :: g => Some (x :: g)
                   end) by (rewrite groupBy_get; reflexivity).
  rewrite Hget in Hin. destruct (filter _ l); [discriminate|].
  inversion Hin; subst. split; [discriminate|reflexivity].
Qed.

Lemma filter_key_length {A : Type} (key : A -> string) (l : list A) (k : string) :
  NoDup (map key l) -> List.length (filter (fun x => String.eqb (key x) k) l) <= 1.
Proof.
  induction l as [|x l IH]; simpl; intros H; [lia|].
  inversion H; subst. destruct (String.eqb (key x) k) eqn:Hk; [|now apply IH].
  apply String.eqb_eq in Hk. subst k. simpl.
  assert (Hnone : filter (fun y => String.eqb (key y) (key x)) l = []).
  { clear IH H H3. induction l as [|y l IH]; simpl; [reflexivity|].
    destruct (String.eqb (key y) (key x)) eqn:Hy.
    - apply String.eqb_eq in Hy. exfalso. apply H2. left. exact Hy.
    - apply IH. intros Hin. apply H2. now right. }
  rewrite Hnone. simpl. lia.
Qed.

Section MoreResolverFacts.

Context {P : NodePath} {I : BitIdClass} {B : BitMapClass} {U : Utils}.

(** X10. [validateNoDuplicateIds] returns exactly when the candidates
    have distinct ids (compared as strings); it changes nothing. *)
Theorem no_duplicate_ids_iff (S : Type) (addComponents : list Component) (s : S) :
  validateNoDuplicateIds addComponents s = (s, Returned tt)
  <-> NoDup (map (fun c => toString (componentId c)) addComponents).
Proof.
  unfold validateNoDuplicateIds. split.
  - intros H. destruct (duplicateIds addComponents) eqn:Hd; [|discriminate]. clear H.
    apply NoDup_nth_error. intros i j Hi Heq.
    destruct (Nat.eq_dec i j) as [|Hij]; [assumption|exfalso].
    rewrite !nth_error_map in Heq.
    destruct (nth_error addComponents i) as [ci|] eqn:Hci.
    2:{ apply nth_error_None in Hci. rewrite length_map in Hi. lia. }
    destruct (nth_error addComponents j) as [cj|] eqn:Hcj; [|discriminate].
    simpl in Heq. inversion Heq as [Hsame].
    destruct (duplicateIds_found addComponents i j ci cj Hij Hci Hcj Hsame) as (g & Hg & _).
    rewrite Hd in Hg. destruct Hg.
  - intros Hn.
    assert (Hd : duplicateIds addComponents = []).
    { unfold duplicateIds.
      destruct (groupBy_partition (fun c => toString (componentId c)) addComponents)
        as (_ & Hg & _).
      induction (groupBy _ addComponents) as [|[k g] o IH]; simpl; [reflexivity|].
      destruct (Hg k g (or_introl eq_refl)) as [_ Heq].
      assert (Hlen : List.length g <= 1) by (rewrite Heq; now apply filter_key_length).
      destruct (Nat.ltb 1 (List.length g)) eqn:Hlt; [apply Nat.ltb_lt in Hlt; lia|].
      apply IH. intros k' g' Hin. apply Hg. now right. }
    now rewrite Hd.
Qed.

(** X11. [groupFilesByComponentId] is a partition of the candidate's
    files: the group keys are distinct, no group is empty, every file is in
    one group -- that of the id the index has for its path, of the
    candidate's id when it has none -- and in no other. *)
Theorem files_grouped_once (componentId : BitId) (fileList : list ComponentMapFile)
        (bm : BitMap) :
  NoDup (keys (groupFilesByComponentId componentId fileList bm))
  /\ (forall k g, In (k, g) (groupFilesByComponentId componentId fileList bm) ->
        g <> []
        /\ forall k' f, In (k', f) g ->
             k' = k
             /\ k = match getComponentObjectOfFileByPath bm (relativePath f) with
                    | Some i => if truthy i then i else toString componentId
                    | None => toString componentId
                    end)
  /\ Permutation
       (map snd (concat (map snd (groupFilesByComponentId componentId fileList bm))))
       fileList.
Proof.
  unfold groupFilesByComponentId.
  set (tag := fun file : ComponentMapFile =>
                (match getComponentObjectOfFileByPath bm (relativePath file) with
                 | Some i => if truthy i then i else toString componentId
                 | None => toString componentId
                 end, file)).
  destruct (groupBy_partition fst (map tag fileList)) as (Hn & Hg & Hp).
  split; [exact Hn|]. split.
  - intros k g Hin. destruct (Hg k g Hin) as [Hne Heq]. split; [exact Hne|].
    intros k' f Hf. rewrite Heq in Hf. apply filter_In in Hf. destruct Hf as [Hf Hk].
    simpl in Hk. apply String.eqb_eq in Hk. subst k'. split; [reflexivity|].
    apply in_map_iff in Hf. destruct Hf as (f0 & Hf0 & _). unfold tag in Hf0.
    inversion Hf0; subst. reflexivity.
  - apply (Permutation_map snd) in Hp. rewrite map_map in Hp. simpl in Hp.
    rewrite map_id in Hp. exact Hp.
Qed.

End MoreResolverFacts.

Section MoreAddFacts.

Context {P : NodePath} {I : BitIdClass} {B : BitMapClass} {U : Utils}.

(** X12. [addAction] writes the index exactly when it returns: once, as
    its last step, the index it holds in memory then; the warnings it
    returns are those collected.  When it throws, nothing is written. *)
Theorem index_written_on_return (componentPaths : list string)
        (id main namespace : option string) (tests : list string)
        (exclude : option (list string)) (override : bool) (s : State) :
  match addAction componentPaths id main namespace tests exclude override s with
  | (s', Returned r) =>
      written s' = (written s ++ [bitMap s'])%list /\ result_warnings r = warnings s'
  | (s', Thrown e) => written s' = written s
  end.
Proof.
  destruct (addAction componentPaths id main namespace tests exclude override s)
    as [s' [r|e]] eqn:H.
  2:{ eapply addAction_throw_unwritten. exact H. }
  revert H. unfold addAction. destruct (negb (isEmpty (getMissingTestFiles tests))).
  { discriminate. }
  unfold bind at 1. unfold lift.
  destruct (resolveComponentPaths componentPaths id tests) as [stats|e0]; [|discriminate].
  unfold bind at 1.
  match goal with
  | |- context [match ?m s with _ => _ end] => set (stage := m)
  end.
  assert (Hstage : written (fst (stage s)) = written s).
  { unfold stage. destruct (Nat.ltb 1 _ && negb (truthyO id)).
    - apply (bind_invariant (fun s0 => written s0 = written s)).
      + now rewrite mapM_call_state.
      + intros cands s1 H1. apply (bind_invariant (fun s0 => written s0 = written s)).
        * unfold validateNoDuplicateIds. now destruct (duplicateIds cands).
        * intros _ s2 H2. apply (mapM_invariant (fun s0 => written s0 = written s));
            [|exact H2].
          intros c s3 H3. destruct (negb (isEmpty (files c))); [|exact H3].
          now apply addOrUpdate_written.
    - apply (bind_invariant (fun s0 => written s0 = written s)); [reflexivity|].
      intros c s1 H1. destruct (negb (isEmpty (files c))); [|exact H1].
      apply (bind_invariant (fun s0 => written s0 = written s));
        [now apply addOrUpdate_written|].
      intros r0 s2 H2. exact H2. }
  destruct (stage s) as [s1 [added|e1]]; simpl in Hstage; [|discriminate].
  unfold bind, write, modify, gets, ret. intros H. inversion H; subst. simpl.
  split; [now rewrite Hstage|reflexivity].
Qed.


End MoreAddFacts.

Lemma mapM_cons_ok {E S A R : Type} (f : A -> M E S R) (x : A) (l : list A) (s s' : S)
      (ys : list R) :
  mapM f (x :: l) s = (s', Returned ys) ->
  exists s1 y ys', f x s = (s1, Returned y) /\ mapM f l s1 = (s', Returned ys')
                   /\ ys = y :: ys'.
Proof.
  simpl. unfold bind. destruct (f x s) as [s1 [y|e]] eqn:Hx; [|discriminate].
  destruct (mapM f l s1) as [s2 [ys'|e]] eqn:Hl; [|discriminate].
  unfold ret. intros H. inversion H; subst. exists s1, y, ys'.
  split; [reflexivity|]. split; [assumption|reflexivity].
Qed.

(** What every result of a [map] satisfies, given the state in which each
    callback runs. *)
Lemma mapM_Forall {E S A R : Type} (Inv : S -> Prop) (Q : R -> Prop) (f : A -> M E S R) :
  (forall x s s' y, Inv s -> f x s = (s', Returned y) -> Inv s' /\ Q y) ->
  forall l s s' ys, Inv s -> mapM f l s = (s', Returned ys) -> Inv s' /\ Forall Q ys.
Proof.
  intros Hf. induction l as [|x l IH]; intros s s' ys Hs H.
  - simpl in H. inversion H; subst. auto.
  - apply mapM_cons_ok in H. destruct H as (s1 & y & ys' & Hx & Hl & ->).
    destruct (Hf _ _ _ _ Hs Hx) as [H1 Hy]. destruct (IH _ _ _ H1 Hl) as [H2 Hys]. auto.
Qed.

Lemma NoDup_map_filter {A B : Type} (g : A -> B) (f : A -> bool) (l : list A) :
  NoDup (map g l) -> NoDup (map g (filter f l)).
Proof.
  induction l as [|x l IH]; simpl; intros H; [constructor|].
  inversion H; subst. destruct (f x); simpl; [|now apply IH].
  constructor; [|now apply IH]. intros Hin. apply H2.
  apply in_map_iff in Hin. destruct Hin as (y & Hy & Hin). apply filter_In in Hin.
  apply in_map_iff. exists y. tauto.
Qed.

Section CandidateFacts.

Context {P : NodePath} {I : BitIdClass} {B : BitMapClass} {U : Utils}.

Lemma uniqByPath_NoDup (l : list ComponentMapFile) :
  NoDup (map relativePath (uniqByPath l)).
Proof.
  induction l as [|x l IH]; simpl; constructor.
  - intros Hin. apply in_map_iff in Hin. destruct Hin as (y & Hy & Hin).
    apply filter_In in Hin. destruct Hin as [_ Hne].
    rewrite Hy, String.eqb_refl in Hne. discriminate.
  - now apply NoDup_map_filter.
Qed.

Lemma mergeTestFilesWithFiles_NoDup (tests : list string) (fileList : list ComponentMapFile) :
  NoDup (map relativePath (mergeTestFilesWithFiles tests fileList)).
Proof. unfold mergeTestFilesWithFiles, unionBy. apply uniqByPath_NoDup. Qed.

Lemma addMainFileToFiles_NoDup (fileList : list ComponentMapFile) (main : option string) :
  NoDup (map relativePath fileList) ->
  NoDup (map relativePath (fst (addMainFileToFiles fileList main))).
Proof.
  intros Hn. unfold addMainFileToFiles. cbn [fst].
  destruct main as [m|]; [|exact Hn].
  destruct (truthy m && matches_REGEX_PATTERN m); [|exact Hn]. cbn [fst].
  generalize fileList at 1 as todo. intros todo.
  generalize m as cur. revert Hn. generalize fileList as acc.
  induction todo as [|file todo IH]; intros acc Hn cur; simpl; [exact Hn|].
  destruct (find _ acc) as [f|] eqn:Hf; simpl.
  - now apply IH.
  - destruct (fs_existsSync (format_dsl cur (relativePath file))); simpl; [|now apply IH].
    apply IH. rewrite map_app. simpl. apply NoDup_app_end; [assumption|].
    intros Hin. apply in_map_iff in Hin. destruct Hin as (y & Hy & Hin).
    apply find_None_Forall in Hf. rewrite Forall_forall in Hf. specialize (Hf y Hin).
    simpl in Hf. rewrite Hy, String.eqb_refl in Hf. discriminate.
Qed.

Lemma add_directory_NoDup (main namespace : option string) (tests : list string)
      (componentPath : string) (st st' : option BitId) (c : Component) :
  add_directory main namespace tests componentPath st = (st', Returned c) ->
  NoDup (map relativePath (files c)).
Proof.
  unfold add_directory. destruct (gitIgnore_filter _) as [|m ms]; [discriminate|].
  unfold bind, gets, modify, ret. intros H. inversion H; subst. cbn [files].
  apply addMainFileToFiles_NoDup, mergeTestFilesWithFiles_NoDup.
Qed.

Lemma add_file_NoDup (bm : BitMap) (main namespace : option string) (tests : list string)
      (componentPath : string) (st st' : option BitId) (c : Component) :
  add_file bm main namespace tests componentPath st = (st', Returned c) ->
  NoDup (map relativePath (files c)).
Proof.
  unfold add_file. unfold bind at 1. unfold gets at 1.
  unfold bind at 1.
  match goal with
  | |- context [match ?m st with _ => _ end] => destruct (m st) as [st1 [[]|e]]
  end; [|discriminate].
  unfold bind, gets, ret. intros H. inversion H; subst. cbn [files].
  apply addMainFileToFiles_NoDup, mergeTestFilesWithFiles_NoDup.
Qed.

Lemma removeExcludedFiles_NoDup (mapValues : list Component) (excludedList : list string) :
  Forall (fun c => NoDup (map relativePath (files c))) mapValues ->
  Forall (fun c => NoDup (map relativePath (files c)))
         (removeExcludedFiles mapValues excludedList).
Proof.
  intros H. unfold removeExcludedFiles. apply Forall_map.
  eapply Forall_impl; [|exact H]. intros c Hc. cbv beta.
  destruct (match option_map pathNormalizeToLinux (mainFile c) with
            | Some m => includes _ m
            | None => false
            end); cbn [files]; [constructor|now apply NoDup_map_filter].
Qed.

Lemma assign_first_truthy_path (k : string) (g : list ComponentMapFile) :
  g <> [] -> Forall (fun f => relativePath f = k) g ->
  exists f, assign_first_truthy g = Some f /\ relativePath f = k.
Proof.
  destruct g as [|x rest]; [congruence|]. intros _ Hall.
  apply Forall_cons_iff in Hall. destruct Hall as [Hx Hrest].
  simpl. eexists. split; [reflexivity|].
  revert x Hx. induction rest as [|y rest IH]; intros x Hx; simpl; [exact Hx|].
  apply Forall_cons_iff in Hrest. destruct Hrest as [Hy Hrest].
  apply IH; [assumption|]. simpl. rewrite Hx, Hy. now destruct (truthy k).
Qed.

Lemma grouped_paths (l : list ComponentMapFile) :
  map relativePath
      (defined (map (fun kv => assign_first_truthy (snd kv)) (groupBy relativePath l)))
  = keys (groupBy relativePath l).
Proof.
  destruct (groupBy_partition relativePath l) as (_ & Hg & _).
  induction (groupBy relativePath l) as [|[k g] o IH]; simpl; [reflexivity|].
  destruct (Hg k g (or_introl eq_refl)) as [Hne Heq].
  destruct (assign_first_truthy_path k g Hne) as (f & Hf & Hk).
  { rewrite Heq. apply Forall_forall. intros x Hx. apply filter_In in Hx.
    destruct Hx as [_ Hx]. now apply String.eqb_eq in Hx. }
  rewrite Hf. simpl. rewrite Hk. f_equal. apply IH. intros k' g' Hin. apply Hg. now right.
Qed.

(** X14. A candidate that [addOneComponent] returns lists every relative
    path once: a file that is also matched as a test file, or that several
    of the given paths contain, is one entry. *)
Theorem candidate_paths_distinct (bm : BitMap) (id main namespace : option string)
        (tests : list string) (exclude : option (list string))
        (componentPathsStats : dict bool) (st st' : option BitId) (c : Component) :
  addOneComponent bm id main namespace tests exclude componentPathsStats st
  = (st', Returned c) ->
  NoDup (map relativePath (files c)).
Proof.
  unfold addOneComponent. unfold bind at 1.
  match goal with
  | |- context [match ?m st with _ => _ end] => destruct (m st) as [st1 [[]|e]]
  end; [|discriminate].
  unfold bind at 1.
  destruct (mapM _ componentPathsStats st1) as [st2 [mapValues|e]] eqn:Hmap; [|discriminate].
  apply (mapM_Forall (fun _ => True) (fun c => NoDup (map relativePath (files c)))) in Hmap;
    [|intros [p isdir] s s' y _ Hy; split; [trivial|];
      simpl in Hy; destruct isdir;
      [eapply add_directory_NoDup|eapply add_file_NoDup]; eassumption
     |trivial].
  destruct Hmap as [_ Hall].
  assert (Hall' : Forall (fun c => NoDup (map relativePath (files c)))
                         (match exclude with
                          | Some excluded => removeExcludedFiles mapValues excluded
                          | None => mapValues
                          end)).
  { destruct exclude; [now apply removeExcludedFiles_NoDup|assumption]. }
  destruct (match exclude with
            | Some excluded => removeExcludedFiles mapValues excluded
            | None => mapValues
            end) as [|first rest]; [discriminate|].
  assert (Hkept : Forall (fun c => NoDup (map relativePath (files c)))
                         (filter (fun mapVal => negb (Nat.eqb (List.length (files mapVal)) 0))
                                 (first :: rest))).
  { apply Forall_forall. intros x Hx. apply filter_In in Hx. rewrite Forall_forall in Hall'.
    apply Hall'. tauto. }
  destruct (filter _ (first :: rest)) as [|only [|second more]] eqn:Hfil.
  - unfold ret. intros H. inversion H; subst. constructor.
  - unfold ret. intros H. inversion H; subst. now inversion Hkept.
  - unfold ret. intros H. inversion H; subst. cbn [files].
    rewrite grouped_paths. apply groupBy_partition.
Qed.

End CandidateFacts.

Lemma groupBy_one_key {A : Type} (key : A -> string) (k : string) (x : A) (l : list A) :
  Forall (fun y => key y = k) (x :: l) -> groupBy key (x :: l) = [(k, x :: l)].
Proof.
  intros H. apply Forall_cons_iff in H. destruct H as [Hx Hl]. unfold groupBy. simpl.
  rewrite Hx.
  assert (Hgen : forall g,
             fold_left (fun o y =>
                          dict_set o (key y)
                                   (match dict_get o (key y) with
                                    | Some group => group ++ [y]
                                    | None => [y]
                                    end)%list) l [(k, g)]
             = [(k, (g ++ l)%list)]).
  { induction l as [|y l IH]; intros g; simpl.
    - now rewrite app_nil_r.
    - apply Forall_cons_iff in Hl. destruct Hl as [Hy Hl]. rewrite Hy, String.eqb_refl.
      rewrite (IH Hl). now rewrite <- app_assoc. }
  apply (Hgen [x]).
Qed.

Section NewComponentFacts.

Context {P : NodePath} {I : BitIdClass} {B : BitMapClass} {U : Utils}.

Lemma reconcile_new_files_untracked (key : string) (l : list ComponentMapFile) (s : State) :
  (forall f, In f l -> getComponentIdByPath (bitMap s) (relativePath f) = None) ->
  mapM (reconcile_new_file key) l s = (s, Returned (map Some l)).
Proof.
  induction l as [|f l IH]; intros H; simpl; [reflexivity|].
  unfold bind. unfold reconcile_new_file at 1. unfold bind, gets.
  rewrite (H f (or_introl eq_refl)). unfold ret at 1.
  rewrite IH; [reflexivity|]. intros g Hg. apply H. now right.
Qed.

Lemma defined_map_Some {A : Type} (l : list A) : defined (map Some l) = l.
Proof.
  unfold defined. induction l as [|x l IH]; simpl; [reflexivity|]. now rewrite IH.
Qed.

(** X15. A candidate whose id the index does not know and whose files the
    index does not track is added as it is: one call of [addComponent], with
    the candidate's id, all its files, its main file and the origin
    AUTHORED; one component is reported, with the files the index then has
    for it; no warning is recorded. *)
Theorem new_component_added (consumerPath : string) (id : option string) (override : bool)
        (component : Component) (s : State) :
  files component <> [] ->
  (forall f, In f (files component) ->
             getComponentObjectOfFileByPath (bitMap s) (relativePath f) = None
             /\ getComponentIdByPath (bitMap s) (relativePath f) = None) ->
  getComponent (bitMap s) (toString (componentId component)) true = None ->
  let added := addComponent (bitMap s) (componentId component) (files component)
                            (mainFile component) AUTHORED override in
  addOrUpdateExistingComponentsInBitMap consumerPath id override component s
  = (set_bitMap added s,
     match getComponent added (toString (componentId component)) false with
     | Some e => Returned [{| added_id := toString (componentId component);
                              added_files := entry_files e |}]
     | None => Thrown TypeError
     end).
Proof.
  intros Hne Huntracked Hnew added. unfold added. clear added.
  unfold addOrUpdateExistingComponentsInBitMap. unfold bind at 1. unfold gets at 1.
  assert (Hgroups : groupFilesByComponentId (componentId component) (files component)
                                            (bitMap s)
                    = [(toString (componentId component),
                        map (fun f => (toString (componentId component), f))
                            (files component))]).
  { unfold groupFilesByComponentId.
    assert (Hmap : map (fun file =>
                          (match getComponentObjectOfFileByPath (bitMap s)
                                                                (relativePath file) with
                           | Some i => if truthy i then i else toString (componentId component)
                           | None => toString (componentId component)
                           end, file)) (files component)
                   = map (fun f => (toString (componentId component), f))
                         (files component)).
    { apply map_ext_in. intros f Hf. now rewrite (proj1 (Huntracked f Hf)). }
    rewrite Hmap. destruct (files component) as [|f l]; [congruence|]. simpl map.
    apply groupBy_one_key. apply Forall_forall. intros y Hy.
    change (f, ?a) with (f, a) in Hy.
    destruct Hy as [<-|Hy]; [reflexivity|].
    apply in_map_iff in Hy. destruct Hy as (g & <- & _). reflexivity. }
  rewrite Hgroups. cbn [reconcile_groups]. unfold bind at 1. unfold bind at 1.
  unfold reconcile_group. cbn [fst snd]. unfold bind at 1. unfold gets at 1.
  rewrite Hnew. unfold bind at 1. rewrite map_map. cbn [snd]. rewrite map_id.
  rewrite reconcile_new_files_untracked; [|intros f Hf; apply Huntracked; exact Hf].
  rewrite defined_map_Some. cbn [files componentId mainFile].
  destruct (files component) as [|f l] eqn:Hfiles; [congruence|].
  unfold bind at 1. unfold addToBitMap. unfold bind at 1. unfold modify at 1.
  unfold bind at 1. unfold gets at 1. cbn [bitMap set_bitMap componentId files mainFile].
  destruct (getComponent _ _ false) as [e|]; reflexivity.
Qed.

(** X16. Paths that cannot be added.  When a test pattern has no file,
    [addAction] throws [PathNotExists] with the missing ones, whatever the
    component paths.  Otherwise, when the component paths match nothing and
    no fallback to the test files applies (no test pattern, or no id), it
    throws [PathNotExists] with the paths as given.  In both cases nothing
    has changed. *)
Theorem unknown_paths_rejected (componentPaths : list string)
        (id main namespace : option string) (tests : list string)
        (exclude : option (list string)) (override : bool) (s : State) :
  (getMissingTestFiles tests <> [] ->
   addAction componentPaths id main namespace tests exclude override s
   = (s, Thrown (PathNotExists (getMissingTestFiles tests))))
  /\ (getMissingTestFiles tests = [] ->
      flat_map glob componentPaths = [] ->
      tests = [] \/ truthyO id = false ->
      addAction componentPaths id main namespace tests exclude override s
      = (s, Thrown (PathNotExists componentPaths))).
Proof.
  split.
  - intros Hm. unfold addAction. destruct (getMissingTestFiles tests); [congruence|].
    reflexivity.
  - intros Hm Hg Hno. unfold addAction. rewrite Hm. simpl. unfold bind at 1. unfold lift.
    assert (Hres : resolveComponentPaths componentPaths id tests
                   = Thrown (PathNotExists componentPaths)).
    { unfold resolveComponentPaths. rewrite Hg. simpl.
      destruct Hno as [->|Hid]; [reflexivity|]. rewrite Hid.
      now destruct (negb (isEmpty tests)). }
    now rewrite Hres.
Qed.

(** X17. A directory in which every file is ignored.  When the one path
    to add is a directory, no id is given, and the ignore list leaves nothing
    of what the directory holds, [addAction] throws [EmptyDirectory]; nothing
    has changed. *)
Theorem empty_directory_rejected (componentPaths : list string)
        (id main namespace : option string) (tests : list string)
        (exclude : option (list string)) (override : bool) (s : State)
        (componentPath : string) :
  getMissingTestFiles tests = [] ->
  resolveComponentPaths componentPaths id tests = Returned [(componentPath, true)] ->
  truthyO id = false ->
  gitIgnore_filter
    (glob_nodir (join (getPathRelativeToProjectRoot componentPath consumer_getPath) "**"))
  = [] ->
  addAction componentPaths id main namespace tests exclude override s
  = (s, Thrown EmptyDirectory).
Proof.
  intros Hm Hres Hid Hempty. unfold addAction. rewrite Hm. simpl.
  unfold bind at 1. unfold lift. rewrite Hres. cbn [keys map List.length Nat.ltb Nat.leb andb].
  unfold bind at 1. unfold bind at 1. unfold call_addOneComponent.
  assert (Hone : snd (addOneComponent (bitMap s) id main namespace tests exclude
                                      [(componentPath, true)] None)
                 = Thrown EmptyDirectory).
  { assert (Hfirst : (match id with
                      | Some idOrFoundID =>
                          if truthy idOrFoundID
                          then updateIdAccordingToExistingComponent (bitMap s) idOrFoundID
                          else ret tt
                      | None => ret tt
                      end) None = (None, Returned tt)).
    { destruct id as [i|]; [|reflexivity]. simpl in Hid. now rewrite Hid. }
    unfold addOneComponent, bind. rewrite Hfirst, mapM_single. cbn [fst snd].
    unfold add_directory. now rewrite Hempty. }
  now rewrite Hone.
Qed.

End NewComponentFacts.

Section ExplicitIdFacts.

Context {P : NodePath} {I : BitIdClass} {B : BitMapClass} {U : Utils}.

Lemma add_directory_known_id (main namespace : option string) (tests : list string)
      (componentPath : string) (x : BitId) (st' : option BitId) (c : Component) :
  add_directory main namespace tests componentPath (Some x) = (st', Returned c) ->
  st' = Some x /\ componentId c = x.
Proof.
  unfold add_directory. destruct (gitIgnore_filter _) as [|m ms]; [discriminate|].
  unfold bind, gets, modify, ret. intros H. inversion H; subst. auto.
Qed.

Lemma add_file_known_id (bm : BitMap) (main namespace : option string) (tests : list string)
      (componentPath : string) (x : BitId) (st' : option BitId) (c : Component) :
  add_file bm main namespace tests componentPath (Some x) = (st', Returned c) ->
  st' = Some x /\ componentId c = x.
Proof.
  unfold add_file, bind, gets, modify, ret. intros H. inversion H; subst. auto.
Qed.

Lemma removeExcludedFiles_ids (mapValues : list Component) (excludedList : list string) :
  map componentId (removeExcludedFiles mapValues excludedList) = map componentId mapValues.
Proof.
  unfold removeExcludedFiles. rewrite map_map. apply map_ext. intros c.
  destruct (match option_map pathNormalizeToLinux (mainFile c) with
            | Some m => includes _ m
            | None => false
            end); reflexivity.
Qed.

(** X18. With an id given, every path of the invocation goes to that id:
    the candidate [addOneComponent] returns has the id the index already has
    for the given one, or else the given id itself, whether the paths are
    directories or files; no id is derived from a path. *)
Theorem explicit_id_names_candidate (bm : BitMap) (i : string) (main namespace : option string)
        (tests : list string) (exclude : option (list string))
        (componentPathsStats : dict bool) (st : option BitId) (c : Component) :
  truthy i = true ->
  addOneComponent bm (Some i) main namespace tests exclude componentPathsStats None
  = (st, Returned c) ->
  componentId c = parse (match getExistingComponentId bm i with
                         | Some existing => if truthy existing then existing else i
                         | None => i
                         end).
Proof.
  intros Hi. unfold addOneComponent. rewrite Hi. unfold bind at 1.
  set (x := parse (match getExistingComponentId bm i with
                   | Some existing => if truthy existing then existing else i
                   | None => i
                   end)).
  destruct (updateIdAccordingToExistingComponent bm i None) as [st1 [[]|e]] eqn:Hupd;
    [|discriminate].
  assert (Hst1 : st1 = Some x).
  { revert Hupd. unfold updateIdAccordingToExistingComponent, x.
    destruct (getExistingComponentId bm i) as [existing|]; simpl.
    - destruct (truthy existing).
      + destruct (getComponent bm existing false) as [c0|]; [|discriminate].
        destruct (origin c0); unfold modify; intros H; now inversion H.
      + unfold modify. intros H. now inversion H.
    - unfold modify. intros H. now inversion H. }
  subst st1. unfold bind at 1.
  destruct (mapM _ componentPathsStats (Some x)) as [st2 [mapValues|e]] eqn:Hmap;
    [|discriminate].
  apply (mapM_Forall (fun s => s = Some x) (fun c => componentId c = x)) in Hmap;
    [|intros [p isdir] s s' y -> Hy; simpl in Hy; destruct isdir;
      [eapply add_directory_known_id|eapply add_file_known_id]; eassumption
     |reflexivity].
  destruct Hmap as [_ Hall].
  assert (Hall' : Forall (fun c => componentId c = x)
                         (match exclude with
                          | Some excluded => removeExcludedFiles mapValues excluded
                          | None => mapValues
                          end)).
  { destruct exclude as [ex|]; [|assumption].
    apply Forall_forall. intros y Hy. apply (in_map componentId) in Hy.
    rewrite removeExcludedFiles_ids in Hy. apply in_map_iff in Hy.
    destruct Hy as (z & <- & Hz). rewrite Forall_forall in Hall. now apply Hall. }
  destruct (match exclude with
            | Some excluded => removeExcludedFiles mapValues excluded
            | None => mapValues
            end) as [|first rest]; [discriminate|].
  assert (Hfirst : componentId first = x) by now inversion Hall'.
  assert (Hkept : Forall (fun c => componentId c = x)
                         (filter (fun mapVal => negb (Nat.eqb (List.length (files mapVal)) 0))
                                 (first :: rest))).
  { apply Forall_forall. intros y Hy. apply filter_In in Hy. rewrite Forall_forall in Hall'.
    apply Hall'. tauto. }
  destruct (filter _ (first :: rest)) as [|only [|second more]].
  - unfold ret. intros H. inversion H; subst. exact Hfirst.
  - unfold ret. intros H. inversion H; subst. now inversion Hkept.
  - unfold ret. intros H. inversion H; subst. exact Hfirst.
Qed.

End ExplicitIdFacts.

Lemma includes_In (l : list string) (x : string) : includes l x = true <-> In x l.
Proof.
  unfold includes. rewrite existsb_exists. split.
  - intros (y & Hy & He). apply String.eqb_eq in He. now subst.
  - intros H. exists x. split; [assumption|apply String.eqb_refl].
Qed.

Lemma find_app {A : Type} (f : A -> bool) (l1 l2 : list A) :
  find f (l1 ++ l2) = match find f l1 with
                      | Some x => Some x
                      | None => find f l2
                      end.
Proof.
  induction l1 as [|x l1 IH]; simpl; [reflexivity|]. now destruct (f x).
Qed.

(** What [unionBy] keeps: of the entries of one path, the first. *)
Lemma uniqByPath_In (l : list ComponentMapFile) (x : ComponentMapFile) :
  In x (uniqByPath l)
  <-> find (fun y => String.eqb (relativePath y) (relativePath x)) l = Some x.
Proof.
  induction l as [|a l IH]; simpl.
  - split; [intros []|discriminate].
  - destruct (String.eqb (relativePath a) (relativePath x)) eqn:Ha.
    + split.
      * intros [->|Hin]; [reflexivity|]. apply filter_In in Hin. destruct Hin as [_ Hne].
        rewrite String.eqb_sym, Ha in Hne. discriminate.
      * intros H. inversion H. now left.
    + rewrite <- IH. split.
      * intros [->|Hin]; [rewrite String.eqb_refl in Ha; discriminate|].
        apply filter_In in Hin. tauto.
      * intros Hin. right. apply filter_In. split; [assumption|].
        now rewrite String.eqb_sym, Ha.
Qed.

Section FileSetFacts.

Context {P : NodePath} {I : BitIdClass} {B : BitMapClass} {U : Utils}.

(** X19. The files of a candidate and its test files.  Every file
    matched by a test pattern is an entry with [test] set; every other file
    is the entry it was; a file that is both is one entry, the test one; no
    path has two entries. *)
Theorem test_files_marked (tests : list string) (fileList : list ComponentMapFile) :
  let testFilesArr :=
    match tests with
    | [] => []
    | _ :: _ => getFiles (map relativePath fileList) tests
    end in
  NoDup (map relativePath (mergeTestFilesWithFiles tests fileList))
  /\ (forall testFile,
         In testFile testFilesArr ->
         In {| relativePath := testFile; test := true; name := path_basename testFile |}
            (mergeTestFilesWithFiles tests fileList))
  /\ (forall file,
         In file fileList ->
         In (relativePath file) (map relativePath (mergeTestFilesWithFiles tests fileList)))
  /\ (forall file,
         In file (mergeTestFilesWithFiles tests fileList) ->
         (In (relativePath file) testFilesArr
          /\ file = {| relativePath := relativePath file; test := true;
                       name := path_basename (relativePath file) |})
         \/ (In file fileList /\ ~ In (relativePath file) testFilesArr)).
Proof.
  intros testFilesArr. split; [apply mergeTestFilesWithFiles_NoDup|].
  unfold mergeTestFilesWithFiles, unionBy. fold testFilesArr.
  set (mk := fun testFile => {| relativePath := testFile; test := true;
                                name := path_basename testFile |}).
  assert (Hfind : forall p,
             find (fun y => String.eqb (relativePath y) p) (map mk testFilesArr)
             = if includes testFilesArr p then Some (mk p) else None).
  { intros p. induction testFilesArr as [|t l IH]; simpl; [reflexivity|].
    unfold includes in *. simpl. rewrite (String.eqb_sym p t).
    destruct (String.eqb t p) eqn:Ht; simpl.
    - apply String.eqb_eq in Ht. now subst.
    - exact IH. }
  split; [|split].
  - intros testFile Hin. apply uniqByPath_In. rewrite find_app. cbn [relativePath].
    rewrite Hfind. apply includes_In in Hin. now rewrite Hin.
  - intros file Hin.
    destruct (find (fun y => String.eqb (relativePath y) (relativePath file))
                   (map mk testFilesArr ++ fileList)) as [x|] eqn:Hf.
    + pose proof (find_some _ _ Hf) as [_ Hx]. apply String.eqb_eq in Hx.
      rewrite <- Hx in Hf. apply uniqByPath_In in Hf. rewrite <- Hx.
      now apply in_map.
    + exfalso. apply find_None_Forall in Hf. rewrite Forall_forall in Hf.
      specialize (Hf file). simpl in Hf. rewrite String.eqb_refl in Hf.
      assert (true = false) by (apply Hf; apply in_or_app; now right). discriminate.
  - intros file Hin. apply uniqByPath_In in Hin. rewrite find_app, Hfind in Hin.
    destruct (includes testFilesArr (relativePath file)) eqn:Hi.
    + left. apply includes_In in Hi. split; [exact Hi|]. inversion Hin as [Heq].
      rewrite <- Heq at 1. reflexivity.
    + right. split.
      * apply find_some in Hin. tauto.
      * intros Hc. apply includes_In in Hc. congruence.
Qed.

(** X20. Exclusion.  After [removeExcludedFiles] no candidate has a file
    that an exclude pattern resolves to; a candidate whose main file is such
    a file has no file left; the candidates, their ids and their main files
    are otherwise as they were. *)
Theorem excluded_files_removed (mapValues : list Component) (excludedList : list string) :
  let resolvedExcludedFiles :=
    getFiles (flat_map (fun x => map relativePath (files x)) mapValues) excludedList in
  map componentId (removeExcludedFiles mapValues excludedList) = map componentId mapValues
  /\ map mainFile (removeExcludedFiles mapValues excludedList) = map mainFile mapValues
  /\ (forall mapVal file,
         In mapVal (removeExcludedFiles mapValues excludedList) ->
         In file (files mapVal) ->
         includes resolvedExcludedFiles (relativePath file) = false)
  /\ (forall mapVal main,
         In mapVal (removeExcludedFiles mapValues excludedList) ->
         mainFile mapVal = Some main ->
         includes resolvedExcludedFiles (pathNormalizeToLinux main) = true ->
         files mapVal = [])
  /\ (forall mapVal file,
         In mapVal mapValues -> In file (files mapVal) ->
         match mainFile mapVal with
         | Some main => includes resolvedExcludedFiles (pathNormalizeToLinux main) = false
         | None => True
         end ->
         includes resolvedExcludedFiles (relativePath file) = false ->
         exists kept, In kept (removeExcludedFiles mapValues excludedList)
                      /\ componentId kept = componentId mapVal /\ In file (files kept)).
Proof.
  intros E. split; [apply removeExcludedFiles_ids|].
  unfold removeExcludedFiles. fold E.
  split; [|split; [|split]].
  - rewrite map_map. apply map_ext. intros c.
    destruct (match option_map pathNormalizeToLinux (mainFile c) with
              | Some m => includes E m
              | None => false
              end); reflexivity.
  - intros mapVal file Hin Hf. apply in_map_iff in Hin. destruct Hin as (c & <- & _).
    destruct (match option_map pathNormalizeToLinux (mainFile c) with
              | Some m => includes E m
              | None => false
              end); cbn [files] in Hf; [destruct Hf|].
    apply filter_In in Hf. destruct Hf as [_ Hf]. now apply negb_true_iff in Hf.
  - intros mapVal main Hin Hmain Hex. apply in_map_iff in Hin. destruct Hin as (c & <- & _).
    assert (Hc : mainFile c = Some main).
    { destruct (match option_map pathNormalizeToLinux (mainFile c) with
                | Some m => includes E m
                | None => false
                end); exact Hmain. }
    rewrite Hc. cbn [option_map]. now rewrite Hex.
  - intros c file Hc Hf Hmain Hfile.
    eexists. split; [apply in_map; exact Hc|].
    assert (Hno : match option_map pathNormalizeToLinux (mainFile c) with
                  | Some m => includes E m
                  | None => false
                  end = false).
    { destruct (mainFile c); [exact Hmain|reflexivity]. }
    rewrite Hno. cbn [componentId files]. split; [reflexivity|].
    apply filter_In. split; [assumption|]. now rewrite Hfile.
Qed.

End FileSetFacts.

(** ** Concrete runs of the add resolver *)

Import AddSample.

(** C5, on the code.  A directory added without id becomes a candidate
    with no look at the index, whatever entry has the id derived from its
    path.  On the sample tree, with the Nested entry "deps/foo" in the index:
    adding the directory "deps/foo" does not throw the ownership error -- it
    puts the files of the directory into the Nested entry and writes the
    index, or, when the entry has a root directory, throws the missing-id
    error of imported components -- whereas adding the file "deps/foo.js",
    whose derived id is the same, throws the ownership error. *)
Theorem C5_directory_skips_nested_guard :
  (forall (P : NodePath) (I : BitIdClass) (B : BitMapClass) (U : Utils)
          (bm : BitMap) (main namespace : option string) (tests : list string)
          (exclude : option (list string)) (componentPath : string),
      snd (addOneComponent bm None main namespace tests exclude [(componentPath, true)] None)
      = Thrown EmptyDirectory
      \/ exists c,
          snd (addOneComponent bm None main namespace tests exclude
                               [(componentPath, true)] None)
          = Returned c
          /\ componentId c
             = getValidBitId
                 (orO namespace (from_end 2 (path_split (path_resolve componentPath))))
                 (from_end 1 (path_split (path_resolve componentPath))))
  /\ getExistingComponentId (with_nested None) "deps/foo" = Some "deps/foo"
  /\ getComponent (with_nested None) "deps/foo" false = Some (nested_entry None)
  /\ (exists r,
         snd (run ["deps/foo"] None [] (with_nested None)) = Returned r
         /\ written (fst (run ["deps/foo"] None [] (with_nested None)))
            = [[("deps/foo",
                 {| entry_files := [{| relativePath := "deps/foo/index.js"; test := false;
                                       name := "index.js" |}];
                    origin := NESTED;
                    rootDir := None |})]])
  /\ run ["deps/foo"] None [] (with_nested (Some "components/.dependencies/deps/foo"))
     = (state_of (with_nested (Some "components/.dependencies/deps/foo")),
        Thrown (MissingComponentIdForImportedComponent "deps/foo"))
  /\ run ["deps/foo.js"] None [] (with_nested None)
     = (state_of (with_nested None), Thrown (DependencyHasSameName "deps/foo")).
Proof.
  split.
  - intros P I B U bm main namespace tests exclude componentPath.
    exact (addOneComponent_directory bm None main namespace tests exclude componentPath
             eq_refl).
  - split; [reflexivity|]. split; [reflexivity|]. split; [eexists; split; reflexivity|].
    split; reflexivity.
Qed.

(** The file is tracked by an Imported entry with a root directory and no
    id is given, yet nothing is thrown: the file is auto-generated, so it is
    passed over, and the index is written. *)
Lemma C6_counterexample :
  getComponentObjectOfFileByPath with_imported "components/comp/index.js"
  = Some "scope/comp/lib@0.0.1"
  /\ getComponent with_imported "scope/comp/lib@0.0.1" true = Some imported_entry
  /\ rootDir imported_entry = Some "components/comp"
  /\ origin imported_entry = IMPORTED
  /\ exists r,
      snd (run ["components/comp/index.js"] None [] with_imported) = Returned r
      /\ written (fst (run ["components/comp/index.js"] None [] with_imported))
         = [with_imported].
Proof.
  repeat split; try reflexivity. eexists. split; reflexivity.
Qed.

(** "components/comp/lib.js" is tracked by the Imported entry: without id,
    and with another id, the reconciliation throws. *)
Lemma C6_imported_entry_witness :
  addOrUpdateExistingComponentsInBitMap (P := Posix.path) "/work" None false
    (candidate "scope/comp/lib@0.0.1" [tracked "components/comp/lib.js" "lib.js"])
    (state_of with_imported)
  = (state_of with_imported, Thrown (MissingComponentIdForImportedComponent "scope/comp/lib"))
  /\ addOrUpdateExistingComponentsInBitMap (P := Posix.path) "/work" (Some "other/id") false
       (candidate "other/id" [tracked "components/comp/lib.js" "lib.js"])
       (state_of with_imported)
     = (state_of with_imported,
        Thrown (IncorrectIdForImportedComponent "scope/comp/lib" "other/id"))
  /\ run ["components/comp/lib.js"] None [] with_imported
     = (state_of with_imported,
        Thrown (MissingComponentIdForImportedComponent "scope/comp/lib"))
  /\ run ["components/comp/lib.js"] (Some "other/id") [] with_imported
     = (state_of with_imported,
        Thrown (IncorrectIdForImportedComponent "scope/comp/lib" "other/id")).
Proof.
  set (lib := tracked "components/comp/lib.js" "lib.js").
  split; [|split; [|split; reflexivity]].
  - apply (proj1 (C6_imported_entry (P := Posix.path) (I := ids) (B := index) (U := tree) "/work" None false
                    (candidate "scope/comp/lib@0.0.1" [lib])
                    (candidate "scope/comp/lib@0.0.1" [lib])
                    (state_of with_imported) (state_of with_imported)
                    [] [] ("scope/comp/lib@0.0.1", [("scope/comp/lib@0.0.1", lib)])
                    [] imported_entry
                    eq_refl eq_refl eq_refl eq_refl ltac:(discriminate)
                    (ex_intro _ lib (conj (or_introl eq_refl) eq_refl)))).
    reflexivity.
  - apply (proj2 (C6_imported_entry (P := Posix.path) (I := ids) (B := index) (U := tree) "/work" (Some "other/id") false
                    (candidate "other/id" [lib])
                    (candidate "other/id" [lib])
                    (state_of with_imported) (state_of with_imported)
                    [] [] ("scope/comp/lib@0.0.1", [("scope/comp/lib@0.0.1", lib)])
                    [] imported_entry
                    eq_refl eq_refl eq_refl eq_refl ltac:(discriminate)
                    (ex_intro _ lib (conj (or_introl eq_refl) eq_refl)))
                 "other/id" eq_refl); discriminate.
Defined.




(** ** More concrete runs of the add resolver *)


(** The directory "a/ns/foo" of the sample tree, with its file as a test
    pattern too. *)
Lemma candidate_paths_distinct_witness :
  exists st c,
    addOneComponent (P := Posix.path) (I := ids) (B := index) (U := tree)
                    [] None None None ["a/ns/foo/x.js"] None [("a/ns/foo", true)] None
    = (st, Returned c)
    /\ map relativePath (files c) = ["a/ns/foo/x.js"]
    /\ NoDup (map relativePath (files c)).
Proof.
  eexists. eexists.
  assert (H : addOneComponent (P := Posix.path) (I := ids) (B := index) (U := tree)
                [] None None None ["a/ns/foo/x.js"] None [("a/ns/foo", true)] None
              = (Some "ns/foo",
                 Returned {| componentId := ("ns/foo" : @BitId ids);
                             files := [{| relativePath := "a/ns/foo/x.js"; test := true;
                                          name := "x.js" |}];
                             mainFile := None |})) by (vm_compute; reflexivity).
  split; [exact H|]. split; [reflexivity|].
  exact (candidate_paths_distinct (P := Posix.path) (I := ids) (B := index) (U := tree)
           _ _ _ _ _ _ _ _ _ _ H).
Defined.

(** A new component "a/x" with one untracked file, on the empty index. *)
Lemma new_component_added_witness :
  addOrUpdateExistingComponentsInBitMap (P := Posix.path) (I := ids) (B := index) (U := tree)
    "/work" None false (candidate "a/x" [tracked "a/ns/foo/x.js" "x.js"]) (state_of [])
  = (set_bitMap [("a/x", {| entry_files := [tracked "a/ns/foo/x.js" "x.js"];
                            origin := AUTHORED; rootDir := None |})]
                (state_of []),
     Returned [{| added_id := "a/x"; added_files := [tracked "a/ns/foo/x.js" "x.js"] |}]).
Proof.
  apply (new_component_added (P := Posix.path) (I := ids) (B := index) (U := tree)
           "/work" None false (candidate "a/x" [tracked "a/ns/foo/x.js" "x.js"])
           (state_of [])).
  - discriminate.
  - intros f [<-|[]]. split; reflexivity.
  - reflexivity.
Defined.

(** On the sample tree: a test pattern without file; a path that matches
    nothing. *)
Lemma unknown_paths_rejected_witness :
  addAction (P := Posix.path) (I := ids) (B := index) (U := tree)
            ["deps/foo"] None None None ["test/b.spec.js"] None false (state_of [])
  = (state_of [], Thrown (PathNotExists ["test/b.spec.js"]))
  /\ addAction (P := Posix.path) (I := ids) (B := index) (U := tree)
               ["nope"] (Some "a/x") None None [] None false (state_of [])
     = (state_of [], Thrown (PathNotExists ["nope"])).
Proof.
  split.
  - apply (proj1 (unknown_paths_rejected (P := Posix.path) (I := ids) (B := index) (U := tree)
                    ["deps/foo"] None None None ["test/b.spec.js"] None false (state_of []))).
    discriminate.
  - apply (proj2 (unknown_paths_rejected (P := Posix.path) (I := ids) (B := index) (U := tree)
                    ["nope"] (Some "a/x") None None [] None false (state_of []))).
    + reflexivity.
    + reflexivity.
    + left. reflexivity.
Defined.

(** The directory "dist" holds "dist/out.js" only, which is ignored. *)
Lemma empty_directory_rejected_witness :
  resolveComponentPaths (U := IgnoredSample.tree) ["dist"] None [] = Returned [("dist", true)]
  /\ addAction (P := Posix.path) (I := ids) (B := index) (U := IgnoredSample.tree)
               ["dist"] None None None [] None false (state_of [])
     = (state_of [], Thrown EmptyDirectory).
Proof.
  split; [reflexivity|].
  apply (empty_directory_rejected (P := Posix.path) (I := ids) (B := index)
           (U := IgnoredSample.tree) ["dist"] None None None [] None false (state_of [])
           "dist"); reflexivity.
Defined.

(** The directory "a/ns/foo" added with the id "my/comp" on the empty
    index: the candidate is "my/comp", not "ns/foo". *)
Lemma explicit_id_names_candidate_witness :
  exists st c,
    addOneComponent (P := Posix.path) (I := ids) (B := index) (U := tree)
                    [] (Some "my/comp") None None [] None [("a/ns/foo", true)] None
    = (st, Returned c)
    /\ componentId c = ("my/comp" : @BitId ids).
Proof.
  eexists. eexists.
  assert (H : addOneComponent (P := Posix.path) (I := ids) (B := index) (U := tree)
                [] (Some "my/comp") None None [] None [("a/ns/foo", true)] None
              = (Some "my/comp",
                 Returned {| componentId := ("my/comp" : @BitId ids);
                             files := [{| relativePath := "a/ns/foo/x.js"; test := false;
                                          name := "x.js" |}];
                             mainFile := None |})) by (vm_compute; reflexivity).
  split; [exact H|].
  exact (explicit_id_names_candidate (P := Posix.path) (I := ids) (B := index) (U := tree)
           [] "my/comp" None None [] None [("a/ns/foo", true)] _ _ eq_refl H).
Defined.

(** * Properties of the package-manager client *)

Import Npm.

(** ** Lines *)

Lemma split_nonempty (c : ascii) (s : string) : split c s <> [].
Proof.
  destruct s as [|b s]; simpl; [discriminate|].
  destruct (Ascii.eqb b c); [discriminate|]. destruct (split c s); discriminate.
Qed.

Lemma split_clean (c : ascii) (s : string) :
  Forall (fun l => has_char c l = false) (split c s).
Proof.
  induction s as [|b s IH]; simpl.
  - constructor; [reflexivity|constructor].
  - destruct (Ascii.eqb b c) eqn:Hb.
    + constructor; [reflexivity|exact IH].
    + destruct (split c s) as [|w ws].
      * constructor; [|constructor]. simpl. now rewrite Hb.
      * inversion IH; subst. constructor; [|assumption]. simpl. now rewrite Hb.
Qed.

Lemma split_no_sep (c : ascii) (s : string) : has_char c s = false -> split c s = [s].
Proof.
  induction s as [|b s IH]; simpl; [reflexivity|].
  intros H. apply orb_false_iff in H. destruct H as [Hb Hs].
  rewrite Hb, (IH Hs). reflexivity.
Qed.

Lemma split_app (c : ascii) (x s : string) :
  has_char c x = false -> split c (x ++ String c s) = x :: split c s.
Proof.
  induction x as [|b x IH]; simpl.
  - intros _. now rewrite Ascii.eqb_refl.
  - intros H. apply orb_false_iff in H. destruct H as [Hb Hx].
    rewrite Hb, (IH Hx). reflexivity.
Qed.

(** Lines that are joined and split again are the lines. *)
Lemma split_concat (c : ascii) (ls : list string) :
  ls <> [] -> Forall (fun l => has_char c l = false) ls ->
  split c (String.concat (String c EmptyString) ls) = ls.
Proof.
  induction ls as [|x ls IH]; [congruence|]. intros _ H.
  apply Forall_cons_iff in H. destruct H as [Hx Hls].
  destruct ls as [|y ls].
  - simpl. now apply split_no_sep.
  - change (String.concat (String c EmptyString) (x :: y :: ls))
      with (x ++ String c (String.concat (String c EmptyString) (y :: ls))).
    rewrite split_app; [|assumption]. f_equal. apply IH; [discriminate|assumption].
Qed.

Lemma filter_idem {A : Type} (f : A -> bool) (l : list A) : filter f (filter f l) = filter f l.
Proof.
  induction l as [|x l IH]; simpl; [reflexivity|].
  destruct (f x) eqn:Hx; simpl; [rewrite Hx; now f_equal|exact IH].
Qed.

Lemma Forall_filter {A : Type} (Q : A -> Prop) (f : A -> bool) (l : list A) :
  Forall Q l -> Forall Q (filter f l).
Proof.
  intros H. apply Forall_forall. intros x Hx. apply filter_In in Hx.
  rewrite Forall_forall in H. apply H. tauto.
Qed.

(** Keeping the lines that pass a test no empty line passes. *)
Lemma keep_lines (f : string -> bool) (s : string) :
  f EmptyString = false ->
  let keep := fun s => String.concat nl (filter f (split "010"%char s)) in
  keep (keep s) = keep s
  /\ (forall line, In line (split "010"%char s) -> f line = true ->
                   In line (split "010"%char (keep s)))
  /\ (forall line, In line (split "010"%char (keep s)) -> line <> EmptyString ->
                   In line (split "010"%char s) /\ f line = true).
Proof.
  intros Hf keep. unfold keep.
  destruct (filter f (split "010"%char s)) as [|x l] eqn:Hl.
  - simpl. rewrite Hf. simpl. split; [reflexivity|]. split.
    + intros line Hin Hline.
      assert (H : In line (filter f (split "010"%char s))) by (apply filter_In; auto).
      rewrite Hl in H. destruct H.
    + intros line [<-|[]] Hne. congruence.
  - assert (Hsplit : split "010"%char (String.concat nl (x :: l)) = x :: l).
    { apply split_concat; [discriminate|]. rewrite <- Hl. apply Forall_filter, split_clean. }
    rewrite Hsplit. split; [|split].
    + rewrite <- Hl, filter_idem. reflexivity.
    + intros line Hin Hline. rewrite <- Hl. apply filter_In. auto.
    + intros line Hin _. rewrite <- Hl in Hin. now apply filter_In in Hin.
Qed.

Section ClientFacts.

Context {P : NodePath} {W : Platform}.

(** X21. The filters of a package manager's output keep whole lines:
    applied to what they return they change nothing; every line of the
    output that has the prefix of an error (of a warning about a missing
    peer dependency) is kept; and every line kept is such a line of the
    output. *)
Theorem output_filters_keep_lines (output packageManager : string) :
  (stripNonNpmErrors (stripNonNpmErrors output packageManager) packageManager
   = stripNonNpmErrors output packageManager
   /\ (forall line, In line (split "010"%char output) ->
                    startsWith line (errorPrefix packageManager) = true ->
                    In line (split "010"%char (stripNonNpmErrors output packageManager)))
   /\ (forall line, In line (split "010"%char (stripNonNpmErrors output packageManager)) ->
                    line <> EmptyString ->
                    In line (split "010"%char output)
                    /\ startsWith line (errorPrefix packageManager) = true))
  /\ (stripNonPeerDependenciesWarnings
        (stripNonPeerDependenciesWarnings output packageManager) packageManager
      = stripNonPeerDependenciesWarnings output packageManager
      /\ (forall line, In line (split "010"%char output) ->
                       startsWith line (warningPrefix packageManager) = true ->
                       str_includes line (peerDependenciesMissing packageManager) = true ->
                       In line (split "010"%char
                                      (stripNonPeerDependenciesWarnings output packageManager)))
      /\ (forall line,
             In line (split "010"%char
                            (stripNonPeerDependenciesWarnings output packageManager)) ->
             line <> EmptyString ->
             In line (split "010"%char output)
             /\ startsWith line (warningPrefix packageManager) = true
             /\ str_includes line (peerDependenciesMissing packageManager) = true)).
Proof.
  split.
  - unfold stripNonNpmErrors.
    apply (keep_lines (fun error => startsWith error (errorPrefix packageManager)) output).
    unfold errorPrefix. now destruct (String.eqb packageManager "npm").
  - unfold stripNonPeerDependenciesWarnings.
    destruct (keep_lines (fun error => startsWith error (warningPrefix packageManager)
                                       && str_includes error
                                            (peerDependenciesMissing packageManager)) output)
      as (H1 & H2 & H3).
    { unfold warningPrefix. now destruct (String.eqb packageManager "npm"). }
    split; [exact H1|]. split.
    + intros line Hin Hp Hi. apply H2; [assumption|]. now rewrite Hp, Hi.
    + intros line Hin Hne. destruct (H3 line Hin Hne) as [Hl Hf].
      apply andb_true_iff in Hf. tauto.
Qed.

Lemma pick_In {A : Type} (names : list string) (obj : dict A) (k : string) (v : A) :
  In (k, v) (pick names obj) -> In k names /\ dict_get obj k = Some v.
Proof.
  unfold pick. intros H. apply in_flat_map in H. destruct H as (n & Hn & Hin).
  destruct (dict_get obj n) as [v0|] eqn:Hg; [|destruct Hin].
  destruct Hin as [Heq|[]]. inversion Heq; subst. auto.
Qed.

(** One install: it needs a directory; it makes [node_modules] there and
    starts one process. *)
Lemma installInOneDirectory_cases (modules : Modules) (packageManager : PackageManager)
      (packageManagerArgs : list (option string)) (options : dict string)
      (dir : option string) (verbose : bool) (w : World) :
  (truthyO dir = false
   /\ _installInOneDirectory modules packageManager packageManagerArgs options dir verbose w
      = (w, Thrown TypeError))
  \/ exists d rest,
      dir = Some d /\ truthy d = true
      /\ (_installInOneDirectory modules packageManager packageManagerArgs options dir verbose w
          = ((w ++ [EnsureDir (join d "node_modules")])%list, Thrown FsError)
          \/ exists o,
              _installInOneDirectory modules packageManager packageManagerArgs options dir
                                     verbose w
              = (((w ++ [EnsureDir (join d "node_modules")])
                    ++ [Exec (pm_name packageManager) ("install" :: rest) (Some d)
                             (getAllowdPackageManagerProcessOptions options)])%list, o)).
Proof.
  unfold _installInOneDirectory.
  destruct (truthyO dir) eqn:Hd; [|left; split; reflexivity].
  destruct dir as [d|]; [|discriminate]. simpl in Hd. right.
  exists d, (rejectNils (match modules with
                         | ModulesObject o => map Some (objectToArray o)
                         | ModulesArray l => l
                         end ++ defaultPackageManagerArgs packageManager
                         ++ packageManagerArgs)%list).
  split; [reflexivity|]. split; [exact Hd|].
  unfold bind, run_ensureDirSync, run_execa, ret, throw.
  destruct (ensureDirSync w (join d "node_modules")); [|left; reflexivity].
  right. rewrite <- !app_assoc. cbn [app].
  unfold rejectNils, defined. cbn [app flat_map].
  destruct (execa _ _ _ _ _) as [r|err]; [eexists; reflexivity|].
  destruct verbose; [eexists; reflexivity|].
  destruct (err_stderr err); eexists; reflexivity.
Qed.

Lemma installs_app (a b : World) : installs (a ++ b)%list = (installs a ++ installs b)%list.
Proof. apply flat_map_app. Qed.

Lemma getNpmVersion_world (w : World) :
  fst (getNpmVersion w) = (w ++ [Exec "npm" ["--version"] None []])%list.
Proof.
  unfold getNpmVersion, bind, run_execa.
  destruct (execa w "npm" ["--version"] None []) as [r|e]; [|reflexivity].
  now destruct (truthy (stdout r) && negb (truthy (stderr r))).
Qed.

Lemma parse_installs (str packageManager : string) (w : World) :
  installs (fst (parseNpmListJsonGracefully str packageManager w)) = installs w.
Proof.
  unfold parseNpmListJsonGracefully. destruct (JSON_parse str) as [json|msg]; [reflexivity|].
  destruct (String.eqb packageManager "npm"); [|reflexivity].
  unfold bind at 1. pose proof (getNpmVersion_world w) as Hw.
  destruct (getNpmVersion w) as [w1 [v|e]]; simpl in Hw; subst w1.
  - unfold bind at 1.
    assert (Hi : installs ((w ++ [Exec "npm" ["--version"] None []])
                             ++ [SetExtraData "npmVersion" v])%list = installs w).
    { rewrite !installs_app. simpl. now rewrite !app_nil_r. }
    destruct v as [v|]; [|exact Hi]. destruct (truthy v); [|exact Hi].
    destruct (semver_gte v "5.0.0") as [[|]|]; try exact Hi.
    destruct (semver_lt v "5.1.0") as [[|]|]; exact Hi.
  - cbn [fst]. rewrite installs_app. simpl. now rewrite app_nil_r.
Qed.

Lemma getPeerDepsFromNpmList_installs (str packageManager : string) (w : World) :
  installs (fst (getPeerDepsFromNpmList str packageManager w)) = installs w.
Proof.
  unfold getPeerDepsFromNpmList.
  apply (bind_invariant (fun w' => installs w' = installs w)); [apply parse_installs|].
  intros json w1 H1. apply (bind_invariant (fun w' => installs w' = installs w)).
  - exact H1.
  - intros peers w2 H2. exact H2.
Qed.

Lemma getPeerDeps_installs (dir : option string) (w : World) :
  installs (fst (_getPeerDeps dir w)) = installs w.
Proof.
  unfold _getPeerDeps. unfold bind at 1. unfold run_execa at 1.
  assert (Hi : installs (w ++ [Exec (pm_name DEFAULT_PACKAGE_MANAGER) ["list"; "-j"] dir []])%list
               = installs w).
  { rewrite installs_app. simpl. now rewrite app_nil_r. }
  destruct (execa w _ _ dir []) as [r|err].
  - rewrite getPeerDepsFromNpmList_installs. exact Hi.
  - destruct (err_stdout err) as [out|]; [|exact Hi].
    destruct (truthy out && startsWith out "{"); [|exact Hi].
    rewrite getPeerDepsFromNpmList_installs. exact Hi.
Qed.

End ClientFacts.

Lemma installs_in_ret {A : Type} (a : A) : installs_in [] (ret a).
Proof. intros w. simpl. now rewrite app_nil_r. Qed.

Lemma installs_in_bind {A B : Type} (l1 l2 : list (option string))
      (m : M NpmError World A) (k : A -> M NpmError World B) :
  installs_in l1 m -> (forall a, installs_in l2 (k a)) -> installs_in (l1 ++ l2)%list (bind m k).
Proof.
  intros Hm Hk w. unfold bind. specialize (Hm w). destruct (m w) as [w1 [a|e]].
  - specialize (Hk a w1). destruct (k a w1) as [w2 [b|e]].
    + now rewrite Hk, Hm, app_assoc.
    + destruct Hk as (done & rest & H1 & H2). exists (l1 ++ done)%list, rest.
      rewrite H1, Hm, H2, !app_assoc. auto.
  - destruct Hm as (done & rest & H1 & H2). exists done, (rest ++ l2)%list.
    rewrite H1, H2, app_assoc. auto.
Qed.

Lemma installs_in_mapM {A R : Type} (g : A -> list (option string))
      (f : A -> M NpmError World R) (l : list A) :
  (forall x, installs_in (g x) (f x)) -> installs_in (flat_map g l) (mapM f l).
Proof.
  intros Hf. induction l as [|x l IH]; simpl.
  - apply installs_in_ret.
  - apply installs_in_bind; [apply Hf|]. intros y.
    rewrite <- (app_nil_r (flat_map g l)). apply installs_in_bind; [exact IH|].
    intros ys. apply installs_in_ret.
Qed.

Lemma mapM_length {E S A R : Type} (f : A -> M E S R) (l : list A) :
  forall s s' ys, mapM f l s = (s', Returned ys) -> List.length ys = List.length l.
Proof.
  induction l as [|x l IH]; intros s s' ys H.
  - simpl in H. inversion H. reflexivity.
  - apply mapM_cons_ok in H. destruct H as (s1 & y & ys' & _ & Hl & ->).
    simpl. f_equal. eapply IH. exact Hl.
Qed.

Section InstallFacts.

Context {P : NodePath} {W : Platform}.

Lemma installInOneDirectory_installs (modules : Modules) (packageManager : PackageManager)
      (packageManagerArgs : list (option string)) (options : dict string)
      (dir : option string) (verbose : bool) :
  installs_in [dir]
              (_installInOneDirectory modules packageManager packageManagerArgs options dir
                                      verbose).
Proof.
  intros w.
  destruct (installInOneDirectory_cases modules packageManager packageManagerArgs options
                                        dir verbose w)
    as [[_ ->]|(d & rest & -> & _ & [->|[o ->]])].
  - exists [], [dir]. now rewrite app_nil_r.
  - exists [], [Some d]. rewrite installs_app. simpl. now rewrite !app_nil_r.
  - assert (Hi : installs ((w ++ [EnsureDir (join d "node_modules")])
                             ++ [Exec (pm_name packageManager) ("install" :: rest) (Some d)
                                      (getAllowdPackageManagerProcessOptions options)])%list
                 = (installs w ++ [Some d])%list).
    { rewrite !installs_app. simpl. now rewrite app_nil_r. }
    destruct o as [r|e]; [exact Hi|]. exists [Some d], []. now rewrite Hi.
Qed.

Lemma getPeerDeps_installs_in (dir : option string) : installs_in [] (_getPeerDeps dir).
Proof.
  intros w. pose proof (getPeerDeps_installs dir w) as H.
  destruct (_getPeerDeps dir w) as [w' [ps|e]]; simpl in H.
  - now rewrite app_nil_r.
  - exists [], []. now rewrite app_nil_r.
Qed.

Lemma withPeerOption_installs (modules : Modules) (packageManager : PackageManager)
      (packageManagerArgs : list (option string)) (options : dict string)
      (dir : option string) (installPeerDependencies verbose : bool) :
  installs_in (if installPeerDependencies then [dir; dir] else [dir])
              (_installInOneDirectoryWithPeerOption modules packageManager packageManagerArgs
                                                    options dir installPeerDependencies
                                                    verbose).
Proof.
  unfold _installInOneDirectoryWithPeerOption. destruct installPeerDependencies.
  - change [dir; dir] with ([dir] ++ ([] ++ ([dir] ++ [])))%list.
    apply installs_in_bind; [apply installInOneDirectory_installs|]. intros r.
    apply installs_in_bind; [apply getPeerDeps_installs_in|]. intros peers.
    apply installs_in_bind; [apply installInOneDirectory_installs|]. intros r'.
    apply installs_in_ret.
  - change [dir] with ([dir] ++ [])%list.
    apply installs_in_bind; [apply installInOneDirectory_installs|]. intros r.
    apply installs_in_ret.
Qed.

Lemma withPeerOption_shape (modules : Modules) (packageManager : PackageManager)
      (packageManagerArgs : list (option string)) (options : dict string)
      (dir : option string) (installPeerDependencies verbose : bool) (w w' : World)
      (r : InstallResults) :
  _installInOneDirectoryWithPeerOption modules packageManager packageManagerArgs options dir
                                       installPeerDependencies verbose w
  = (w', Returned r) ->
  if installPeerDependencies then exists a b, r = ManyResults [a; b]
  else exists a, r = OneResult a.
Proof.
  unfold _installInOneDirectoryWithPeerOption. unfold bind at 1.
  destruct (_installInOneDirectory _ _ _ _ dir verbose w) as [w1 [r1|e]]; [|discriminate].
  destruct installPeerDependencies.
  - unfold bind at 1. destruct (_getPeerDeps dir w1) as [w2 [ps|e]]; [|discriminate].
    unfold bind at 1.
    destruct (_installInOneDirectory _ _ _ _ dir verbose w2) as [w3 [r2|e]]; [|discriminate].
    unfold ret. intros H. inversion H. eauto.
  - unfold ret. intros H. inversion H. eauto.
Qed.

(** X22. [installAction] installs directory after directory, in this
    order: the root for yarn workspaces, the root when its own package.json
    is to be installed, then the directories given; twice in each, the
    second time for the peer dependencies, when these are asked for.  When it
    throws, the installs started are the first ones of that order: none is
    started after one that failed. *)
Theorem install_order (modules : Modules) (packageManager : PackageManager)
        (packageManagerArgs : list (option string)) (options : dict string)
        (useWorkspaces : bool) (dirs : list string) (rootDir : option string)
        (installRootPackageJson installPeerDependencies verbose : bool) (w : World) :
  let targets :=
    flat_map (fun dir => if installPeerDependencies then [dir; dir] else [dir])
             (install_targets packageManager useWorkspaces dirs rootDir
                              installRootPackageJson) in
  match installAction modules packageManager packageManagerArgs options useWorkspaces dirs
                      rootDir installRootPackageJson installPeerDependencies verbose w with
  | (w', Returned _) => installs w' = (installs w ++ targets)%list
  | (w', Thrown _) =>
      exists done rest, installs w' = (installs w ++ done)%list /\ targets = (done ++ rest)%list
  end.
Proof.
  intros targets. revert w.
  change (installs_in targets
            (installAction modules packageManager packageManagerArgs options useWorkspaces
                           dirs rootDir installRootPackageJson installPeerDependencies
                           verbose)).
  unfold targets, install_targets, installAction. rewrite !flat_map_app.
  apply installs_in_bind.
  - destruct (useWorkspaces && _); [|apply installs_in_ret].
    simpl. rewrite app_nil_r.
    rewrite <- (app_nil_r (if installPeerDependencies then _ else _)).
    apply installs_in_bind; [apply withPeerOption_installs|]. intros r. apply installs_in_ret.
  - intros _. apply installs_in_bind.
    + destruct installRootPackageJson; [|apply installs_in_ret].
      simpl. rewrite app_nil_r.
      rewrite <- (app_nil_r (if installPeerDependencies then _ else _)).
      apply installs_in_bind; [apply withPeerOption_installs|]. intros [r|l];
        apply installs_in_ret.
    + intros results. rewrite <- (app_nil_r (flat_map _ (map Some dirs))).
      apply installs_in_bind; [|intros rs; apply installs_in_ret].
      rewrite flat_map_concat_map, map_map, <- flat_map_concat_map.
      apply (installs_in_mapM
               (fun dir => if installPeerDependencies then [Some dir; Some dir] else [Some dir])).
      intros dir. apply withPeerOption_installs.
Qed.

(** X23. How many results [installAction] returns: one for every
    directory given, two when peer dependencies are asked for; one more, for
    the root package.json, when it is to be installed and peer dependencies
    are not asked for -- with them the results of the root are left out;
    none for the install for yarn workspaces. *)
Theorem install_results (modules : Modules) (packageManager : PackageManager)
        (packageManagerArgs : list (option string)) (options : dict string)
        (useWorkspaces : bool) (dirs : list string) (rootDir : option string)
        (installRootPackageJson installPeerDependencies verbose : bool) (w w' : World)
        (results : list PackageManagerResults) :
  installAction modules packageManager packageManagerArgs options useWorkspaces dirs rootDir
                installRootPackageJson installPeerDependencies verbose w
  = (w', Returned results) ->
  List.length results
  = (if installRootPackageJson && negb installPeerDependencies then 1 else 0)
    + (if installPeerDependencies then 2 else 1) * List.length dirs.
Proof.
  unfold installAction. unfold bind at 1.
  match goal with
  | |- context [match ?m w with _ => _ end] => destruct (m w) as [w1 [[]|e]]
  end; [|discriminate].
  unfold bind at 1.
  match goal with
  | |- context [match ?m w1 with _ => _ end] =>
      destruct (m w1) as [w2 [root|e]] eqn:Hroot
  end; [|discriminate].
  assert (Hlen : List.length root
                 = if installRootPackageJson && negb installPeerDependencies then 1 else 0).
  { destruct installRootPackageJson; simpl.
    - revert Hroot. unfold bind at 1.
      destruct (_installInOneDirectoryWithPeerOption _ _ _ _ rootDir _ _ w1)
        as [w3 [r|e]] eqn:Hr; [|discriminate].
      apply withPeerOption_shape in Hr.
      destruct installPeerDependencies.
      + destruct Hr as (a & b & ->). unfold ret. intros H. now inversion H.
      + destruct Hr as (a & ->). unfold ret. intros H. now inversion H.
    - unfold ret in Hroot. now inversion Hroot. }
  unfold bind at 1.
  destruct (mapM _ dirs w2) as [w3 [rs|e]] eqn:Hmap; [|discriminate].
  unfold ret. intros H. inversion H; subst. rewrite length_app, Hlen. f_equal.
  pose proof (mapM_length _ _ _ _ _ Hmap) as Hn.
  apply (mapM_Forall (fun _ => True)
           (fun r => if installPeerDependencies then exists a b, r = ManyResults [a; b]
                     else exists a, r = OneResult a)) in Hmap;
    [|intros dir s s' y _ Hy; split; [trivial|]; eapply withPeerOption_shape; exact Hy
     |trivial].
  destruct Hmap as [_ Hall]. rewrite <- Hn. clear Hn H Hlen Hroot.
  unfold flatten. induction Hall as [|r rs Hr Hrs IH]; simpl; [now destruct installPeerDependencies|].
  rewrite length_app, IH. destruct installPeerDependencies.
  - destruct Hr as (a & b & ->). simpl. lia.
  - destruct Hr as (a & ->). simpl. lia.
Qed.

End InstallFacts.

Section ProcessFacts.

Context {P : NodePath} {W : Platform}.

(** X24. The process of an install.  Without a directory nothing is
    started: the install throws a [TypeError].  With one, the only process
    started is the package manager's, with [install] as its first argument
    and no null argument, in that directory -- no option can change
    it -- and with those of the given options that may be overridden, no
    other; before it, [node_modules] is made in the directory. *)
Theorem install_process (modules : Modules) (packageManager : PackageManager)
        (packageManagerArgs : list (option string)) (options : dict string)
        (dir : option string) (verbose : bool) (w : World) :
  (truthyO dir = false ->
   _installInOneDirectory modules packageManager packageManagerArgs options dir verbose w
   = (w, Thrown TypeError))
  /\ (forall d, dir = Some d -> truthy d = true ->
        exists started,
          fst (_installInOneDirectory modules packageManager packageManagerArgs options dir
                                      verbose w)
          = (w ++ EnsureDir (join d "node_modules") :: started)%list
          /\ (started = []
              \/ exists rest passed,
                  started = [Exec (pm_name packageManager) ("install" :: rest) (Some d) passed]
                  /\ rest = rejectNils (match modules with
                                        | ModulesObject o => map Some (objectToArray o)
                                        | ModulesArray l => l
                                        end ++ packageManagerArgs)%list
                  /\ (forall k v, In (k, v) passed ->
                                  In k allowdOptions /\ k <> "cwd"
                                  /\ dict_get options k = Some v))).
Proof.
  split.
  - intros Hd. unfold _installInOneDirectory. now rewrite Hd.
  - intros d -> Hd. unfold _installInOneDirectory. cbn [truthyO]. rewrite Hd.
    unfold bind at 1. unfold run_ensureDirSync at 1.
    destruct (ensureDirSync w (join d "node_modules")).
    2:{ exists []. split; [reflexivity|now left]. }
    eexists. split.
    + unfold bind, run_execa, ret, throw.
      destruct (execa _ _ _ _ _) as [r|err]; cbn [fst].
      * rewrite <- app_assoc. reflexivity.
      * destruct verbose; [rewrite <- app_assoc; reflexivity|].
        destruct (err_stderr err); rewrite <- app_assoc; reflexivity.
    + right. eexists. eexists. split; [reflexivity|]. split.
      * change (rejectNils ((match modules with
                             | ModulesObject o => map Some (objectToArray o)
                             | ModulesArray l => l
                             end ++ defaultPackageManagerArgs packageManager)
                              ++ packageManagerArgs)%list
                = rejectNils (match modules with
                              | ModulesObject o => map Some (objectToArray o)
                              | ModulesArray l => l
                              end ++ packageManagerArgs)%list).
        destruct packageManager; cbn [defaultPackageManagerArgs]; now rewrite app_nil_r.
      * intros k v Hin. apply pick_In in Hin. destruct Hin as [Hk Hv].
        split; [exact Hk|]. split; [|exact Hv]. intros ->. simpl in Hk.
        repeat (destruct Hk as [Hk|Hk]; [discriminate|]). exact Hk.
Qed.

(** X25. Whether sub-directories can be installed from the root.  For a
    package manager other than npm the answer is no, and nothing is run.
    The answer is yes only for npm, after one run of [npm --version] that
    printed a version, and nothing on its error output, which [semver] finds
    to be 5.0.0 or later. *)
Theorem supported_from_root (packageManager : string) (w : World) :
  (packageManager <> "npm" ->
   isSupportedInstallationOfSubDirFromRoot packageManager w = (w, Returned false))
  /\ (forall w',
         isSupportedInstallationOfSubDirFromRoot packageManager w = (w', Returned true) ->
         packageManager = "npm"
         /\ w' = (w ++ [Exec "npm" ["--version"] None []])%list
         /\ exists version,
             execa w "npm" ["--version"] None []
             = Returned {| stdout := version; stderr := EmptyString |}
             /\ version <> EmptyString
             /\ semver_gte version "5.0.0" = Some true).
Proof.
  unfold isSupportedInstallationOfSubDirFromRoot. split.
  - intros Hne. apply String.eqb_neq in Hne. now rewrite Hne.
  - intros w'. destruct (String.eqb packageManager "npm") eqn:Hpm; [|discriminate].
    apply String.eqb_eq in Hpm. unfold bind at 1. unfold getNpmVersion, bind, run_execa.
    destruct (execa w "npm" ["--version"] None []) as [[out err]|e]; simpl.
    + destruct (truthy out) eqn:Hout; simpl.
      * destruct (truthy err) eqn:Herr; simpl; [discriminate|].
        rewrite Hout. destruct (semver_gte out "5.0.0") as [[|]|] eqn:Hsem; try discriminate.
        intros H. inversion H; subst. split; [reflexivity|]. split; [reflexivity|].
        exists out. split; [|split; [now apply truthy_true|exact Hsem]].
        unfold truthy in Herr. apply negb_false_iff, String.eqb_eq in Herr. now subst.
      * discriminate.
    + discriminate.
Qed.

Lemma parsePeers_from_get (deps : dict Dependency) :
  forall acc peers,
    parsePeers_from deps acc = Returned peers ->
    forall n, dict_get peers n = match last_required deps n with
                                 | Some v => Some v
                                 | None => dict_get acc n
                                 end.
Proof.
  induction deps as [|[k dep] rest IH]; intros acc peers H n; simpl in *.
  - inversion H; subst. reflexivity.
  - destruct (peerMissing dep) eqn:Hp.
    + destruct (required dep) as [r|]; [|discriminate].
      rewrite (IH _ _ H n). destruct (last_required rest n); [reflexivity|].
      rewrite dict_get_set. simpl. now destruct (String.eqb (req_name r) n).
    + rewrite (IH _ _ H n). destruct (last_required rest n); [reflexivity|].
      now destruct (required dep).
Qed.

Lemma parsePeers_from_keys (deps : dict Dependency) :
  forall acc peers,
    parsePeers_from deps acc = Returned peers -> NoDup (keys acc) -> NoDup (keys peers).
Proof.
  induction deps as [|[k dep] rest IH]; intros acc peers H Hn; simpl in *.
  - inversion H; subst. exact Hn.
  - destruct (peerMissing dep).
    + destruct (required dep) as [r|]; [|discriminate].
      apply (IH _ _ H). now apply dict_set_keys_NoDup.
    + now apply (IH _ _ H).
Qed.

Lemma parsePeers_from_result (deps : dict Dependency) :
  forall acc,
    (exists peers, parsePeers_from deps acc = Returned peers
                   /\ Forall (fun kv => peerMissing (snd kv) = true ->
                                        required (snd kv) <> None) deps)
    \/ (parsePeers_from deps acc = Thrown TypeError
        /\ exists kv, In kv deps /\ peerMissing (snd kv) = true /\ required (snd kv) = None).
Proof.
  induction deps as [|[k dep] rest IH]; intros acc; simpl.
  - left. eexists. split; [reflexivity|constructor].
  - destruct (peerMissing dep) eqn:Hp.
    + destruct (required dep) as [r|] eqn:Hr.
      * destruct (IH (dict_set acc (req_name r) (req_version r)))
          as [(peers & H & Hall)|(H & kv & Hin & Hkv)].
        -- left. exists peers. split; [exact H|]. constructor; [|exact Hall].
           simpl. intros _. congruence.
        -- right. split; [exact H|]. exists kv. split; [now right|exact Hkv].
      * right. split; [reflexivity|]. exists (k, dep). split; [now left|]. auto.
    + destruct (IH acc) as [(peers & H & Hall)|(H & kv & Hin & Hkv)].
      * left. exists peers. split; [exact H|]. constructor; [|exact Hall].
        simpl. congruence.
      * right. split; [exact H|]. exists kv. split; [now right|exact Hkv].
Qed.

(** X26. The peer dependencies read off the output of [npm list -j],
    once it is parsed: one [name@version] for each name required by a
    dependency that misses a peer, the version being that of the last such
    dependency; nothing else.  A dependency that misses a peer and tells not
    which makes the reading throw a [TypeError]. *)
Theorem peer_dependencies_listed (npmList packageManager : string) (json : NpmList)
        (w : World) :
  JSON_parse npmList = Returned json ->
  (exists peers,
      getPeerDepsFromNpmList npmList packageManager w = (w, Returned (objectToArray peers))
      /\ NoDup (keys peers)
      /\ (forall n v, In (n, v) peers <-> last_required (dependencies json) n = Some v)
      /\ Forall (fun kv => peerMissing (snd kv) = true -> required (snd kv) <> None)
                (dependencies json))
  \/ (getPeerDepsFromNpmList npmList packageManager w = (w, Thrown TypeError)
      /\ exists kv, In kv (dependencies json) /\ peerMissing (snd kv) = true
                    /\ required (snd kv) = None).
Proof.
  intros Hjson. unfold getPeerDepsFromNpmList, parseNpmListJsonGracefully.
  rewrite Hjson. unfold bind, ret, lift, parsePeers.
  destruct (parsePeers_from_result (dependencies json) [])
    as [(peers & H & Hall)|(H & Hkv)]; rewrite H.
  - left. exists peers. split; [reflexivity|].
    pose proof (parsePeers_from_keys _ _ _ H (NoDup_nil _)) as Hn.
    split; [exact Hn|]. split; [|exact Hall].
    intros n v. pose proof (parsePeers_from_get _ _ _ H n) as Hg. simpl in Hg.
    split.
    + intros Hin. apply (In_dict_get _ _ _ Hn) in Hin. rewrite Hin in Hg.
      destruct (last_required (dependencies json) n); congruence.
    + intros Hl. rewrite Hl in Hg. now apply dict_get_In.
  - right. split; [reflexivity|exact Hkv].
Qed.

End ProcessFacts.

Section ParseFacts.

Context {P : NodePath} {W : Platform}.

(** X27. Output of [npm list] that is not JSON is never passed over:
    [parseNpmListJsonGracefully] throws.  For a package manager other than
    npm it throws the parse failure at once; for npm it first asks
    [npm --version], once, and hands the answer to the analytics, and the
    error names that version when [semver] places it from 5.0.0 up to, not
    including, 5.1.0. *)
Theorem unparsable_list_rejected (str packageManager message : string) (w : World) :
  JSON_parse str = Thrown message ->
  (packageManager <> "npm" ->
   parseNpmListJsonGracefully str packageManager w
   = (w, Thrown (PlainError ("failed parsing the output of npm list due to an error: "
                               ++ message))))
  /\ (packageManager = "npm" ->
      exists version e,
        parseNpmListJsonGracefully str packageManager w
        = ((w ++ [Exec "npm" ["--version"] None []; SetExtraData "npmVersion" version])%list,
           Thrown e)
        /\ getNpmVersion w = ((w ++ [Exec "npm" ["--version"] None []])%list, Returned version)
        /\ (forall v, version = Some v -> semver_gte v "5.0.0" = Some true ->
                      semver_lt v "5.1.0" = Some true ->
                      e = PlainError
                            ("error: your npm version " ++ dquote ++ v ++ dquote
                               ++ " has issues returning json, please upgrade to 5.1.0 or above (npm install -g npm@5.1.0)"))).
Proof.
  intros Hjson. unfold parseNpmListJsonGracefully. rewrite Hjson. split.
  - intros Hne. apply String.eqb_neq in Hne. now rewrite Hne.
  - intros ->. rewrite String.eqb_refl. unfold bind at 1.
    assert (Hv : exists version,
               getNpmVersion w = ((w ++ [Exec "npm" ["--version"] None []])%list,
                                  Returned version)
               /\ forall v, version = Some v -> truthy v = true).
    { unfold getNpmVersion, bind, run_execa.
      destruct (execa w "npm" ["--version"] None []) as [r|err].
      - destruct (truthy (stdout r) && negb (truthy (stderr r))) eqn:Ht.
        + eexists. split; [reflexivity|]. intros v Hv. inversion Hv; subst.
          now apply andb_true_iff in Ht.
        + eexists. split; [reflexivity|]. discriminate.
      - eexists. split; [reflexivity|]. discriminate. }
    destruct Hv as (version & Hget & Htruthy). rewrite Hget. exists version.
    unfold bind at 1. rewrite <- app_assoc. cbn [app].
    destruct version as [v|].
    + rewrite (Htruthy v eq_refl).
      destruct (semver_gte v "5.0.0") as [[|]|] eqn:Hgte.
      * destruct (semver_lt v "5.1.0") as [[|]|] eqn:Hlt.
        -- eexists. split; [reflexivity|]. split; [reflexivity|].
           intros v' Hv' _ _. inversion Hv'; subst. reflexivity.
        -- eexists. split; [reflexivity|]. split; [reflexivity|].
           intros v' Hv' _ Hc. inversion Hv'; subst. congruence.
        -- eexists. split; [reflexivity|]. split; [reflexivity|].
           intros v' Hv' _ Hc. inversion Hv'; subst. congruence.
      * eexists. split; [reflexivity|]. split; [reflexivity|].
        intros v' Hv' Hc. inversion Hv'; subst. congruence.
      * eexists. split; [reflexivity|]. split; [reflexivity|].
        intros v' Hv' Hc. inversion Hv'; subst. congruence.
    + eexists. split; [reflexivity|]. split; [reflexivity|]. discriminate.
Qed.

End ParseFacts.

(** ** Concrete runs of the client *)

(** The sample install with peer dependencies, the root package.json
    included: four results for the two directories, none for the root. *)
Lemma install_results_witness :
  exists w' results,
    NpmSample.run true true = (w', Returned results)
    /\ installs w' = [Some "/work"; Some "/work"; Some "/work/a"; Some "/work/a";
                      Some "/work/b"; Some "/work/b"]
    /\ List.length results = 4.
Proof.
  destruct (NpmSample.run true true) as [w' [results|e]] eqn:H.
  - exists w', results. split; [reflexivity|]. split.
    + assert (Hw : w' = fst (NpmSample.run true true)) by now rewrite H.
      rewrite Hw. vm_compute. reflexivity.
    + exact (install_results (P := Posix.path) (W := NpmSample.platform)
               (ModulesArray [Some "left-pad"]) npm [] [("cwd", "/tmp")] false
               ["/work/a"; "/work/b"] (Some "/work") true true false [] w' results H).
  - exfalso. assert (He : Thrown e = snd (NpmSample.run true true)) by now rewrite H.
    vm_compute in He. discriminate.
Defined.

(** An install without directory; an install in "/work/a" with an option
    that may not be overridden. *)
Lemma install_process_witness :
  _installInOneDirectory (P := Posix.path) (W := NpmSample.platform)
                         (ModulesArray [Some "left-pad"]) npm [] [("cwd", "/tmp")] None false []
  = ([], Thrown TypeError)
  /\ fst (_installInOneDirectory (P := Posix.path) (W := NpmSample.platform)
            (ModulesArray [Some "left-pad"; None]) npm [Some "--save"]
            [("cwd", "/tmp"); ("timeout", "1000")] (Some "/work/a") false [])
     = [EnsureDir "/work/a/node_modules";
        Exec "npm" ["install"; "left-pad"; "--save"] (Some "/work/a") [("timeout", "1000")]].
Proof.
  split; [|reflexivity].
  apply (proj1 (install_process (P := Posix.path) (W := NpmSample.platform)
                  (ModulesArray [Some "left-pad"]) npm [] [("cwd", "/tmp")] None false [])).
  reflexivity.
Defined.

Lemma supported_from_root_witness :
  isSupportedInstallationOfSubDirFromRoot (W := NpmSample.platform) "yarn" []
  = ([], Returned false)
  /\ isSupportedInstallationOfSubDirFromRoot (W := NpmSample.platform) "npm" []
     = ([Exec "npm" ["--version"] None []], Returned true).
Proof.
  split; [|reflexivity].
  apply (proj1 (supported_from_root (W := NpmSample.platform) "yarn" [])).
  discriminate.
Defined.

(** The sample list: "react" is required by two dependencies that miss
    it; the version of the last one is listed. *)
Lemma peer_dependencies_listed_witness :
  JSON_parse (Platform := NpmSample.platform) "{}" = Returned NpmSample.listed
  /\ getPeerDepsFromNpmList (W := NpmSample.platform) "{}" "npm" [] = ([], Returned ["react@16"])
  /\ ((exists peers,
          getPeerDepsFromNpmList (W := NpmSample.platform) "{}" "npm" []
          = ([], Returned (objectToArray peers))
          /\ NoDup (keys peers)
          /\ (forall n v, In (n, v) peers
                          <-> last_required (dependencies NpmSample.listed) n = Some v)
          /\ Forall (fun kv => peerMissing (snd kv) = true -> required (snd kv) <> None)
                    (dependencies NpmSample.listed))
      \/ (getPeerDepsFromNpmList (W := NpmSample.platform) "{}" "npm" [] = ([], Thrown TypeError)
          /\ exists kv, In kv (dependencies NpmSample.listed) /\ peerMissing (snd kv) = true
                        /\ required (snd kv) = None)).
Proof.
  split; [reflexivity|]. split; [reflexivity|].
  exact (peer_dependencies_listed (W := NpmSample.platform) "{}" "npm" NpmSample.listed []
                                  eq_refl).
Defined.

(** Output that is no JSON, read for yarn and for npm 5.0.3. *)
Lemma unparsable_list_rejected_witness :
  JSON_parse (Platform := NpmSample.broken) "oops"
  = Thrown "Unexpected token o in JSON at position 0"
  /\ parseNpmListJsonGracefully (W := NpmSample.broken) "oops" "yarn" []
     = ([], Thrown (PlainError
                      "failed parsing the output of npm list due to an error: Unexpected token o in JSON at position 0"))
  /\ fst (parseNpmListJsonGracefully (W := NpmSample.broken) "oops" "npm" [])
     = [Exec "npm" ["--version"] None []; SetExtraData "npmVersion" (Some "5.0.3")].
Proof.
  split; [reflexivity|]. split; [|reflexivity].
  apply (proj1 (unparsable_list_rejected (W := NpmSample.broken) "oops" "yarn" _ []
                                         eq_refl)).
  discriminate.
Defined.
